(** * Amiya-Bot-core: gateway session, handler registry and message adapter

    A shallow embedding of the parts of [amiyabot] that the specification
    talks about:

    - [Py]      : the fragment of Python's dynamic values the code touches
                  (decoded JSON, truthiness, [==], [in], subscripting) and an
                  exception-carrying result type;
    - [Kook]    : [adapters/kook/__init__.py], the KOOK gateway session with
                  its read loop, heartbeat tasks and role-list cache;
    - [Handler] : [handler/__init__.py], the handler registry, [on_message]
                  and [combine_factory] over an object store;
    - [Tencent] : [adapters/tencent/package.py], [package_tencent_message].

    Python integers are unbounded, so they are [Z].  JSON numbers are taken
    to be integers; wall-clock readings are exact rationals. *)

From stdpp Require Import gmap strings list fin_maps.
From Stdlib Require Import ZArith QArith.

Set Warnings "-register-all".

Open Scope Z_scope.

(* ===================================================================== *)
(** * Python values *)
(* ===================================================================== *)

Module Py.

(** What [json.loads] produces.  A [JObj] is a [dict]: insertion ordered,
    looked up by key. *)
Inductive json : Type :=
| JNull
| JBool (b : bool)
| JInt (z : Z)
| JStr (str : string)
| JArr (items : list json)
| JObj (fields : list (string * json)).

(** Exceptions that the embedded code raises or lets through. *)
Inductive exn : Type :=
| KeyError
| TypeError
| AttributeError
| ManualCloseException
| ResponseException
| RecursionError.

Inductive result (A : Type) : Type :=
| Ret (a : A)
| Raise (e : exn).
Arguments Ret {A} a.
Arguments Raise {A} e.

Definition rbind {A B} (r : result A) (k : A → result B) : result B :=
  match r with
  | Ret a => k a
  | Raise e => Raise e
  end.

Declare Scope res_scope.
Delimit Scope res_scope with res.
Notation "x <- m ;; k" := (rbind m (λ x, k))
  (at level 100, m at next level, k at level 200, right associativity) : res_scope.

(** [bool(v)] *)
Definition truthy (v : json) : bool :=
  match v with
  | JNull => false
  | JBool b => b
  | JInt z => negb (z =? 0)
  | JStr str => negb (String.eqb str "")
  | JArr items => negb (Nat.eqb (length items) 0)
  | JObj fields => negb (Nat.eqb (length fields) 0)
  end.

Fixpoint assoc {A} (k : string) (l : list (string * A)) : option A :=
  match l with
  | [] => None
  | (k', v) :: l' => if String.eqb k k' then Some v else assoc k l'
  end.

(** [a == b].  [True == 1] and [False == 0] as in Python; two dicts are
    equal when they have the same keys with equal values, in any order. *)
Fixpoint py_eq (a b : json) : bool :=
  match a, b with
  | JNull, JNull => true
  | JBool x, JBool y => Bool.eqb x y
  | JBool x, JInt y => (if x then 1 else 0) =? y
  | JInt x, JBool y => x =? (if y then 1 else 0)
  | JInt x, JInt y => x =? y
  | JStr x, JStr y => String.eqb x y
  | JArr xs, JArr ys =>
      (fix all2 (l1 l2 : list json) : bool :=
         match l1, l2 with
         | [], [] => true
         | u :: l1', v :: l2' => py_eq u v && all2 l1' l2'
         | _, _ => false
         end) xs ys
  | JObj xs, JObj ys =>
      Nat.eqb (length xs) (length ys)
      && (fix incl (l : list (string * json)) : bool :=
            match l with
            | [] => true
            | (k, u) :: l' =>
                match assoc k ys with
                | Some v => py_eq u v && incl l'
                | None => false
                end
            end) xs
  | _, _ => false
  end.

(** [needle in hay] on two strings: substring test. *)
Fixpoint substring_of (needle hay : string) : bool :=
  String.prefix needle hay
  || match hay with
     | EmptyString => false
     | String _ hay' => substring_of needle hay'
     end.

(** [k in v] for a string [k]: key of a dict, element of a list, substring
    of a string; anything else is not a container. *)
Definition contains (k : string) (v : json) : result bool :=
  match v with
  | JObj fields => Ret (if assoc k fields is Some _ then true else false)
  | JArr items => Ret (existsb (py_eq (JStr k)) items)
  | JStr str => Ret (substring_of k str)
  | _ => Raise TypeError
  end.

(** [v[k]] for a string [k]. *)
Definition getitem (v : json) (k : string) : result json :=
  match v with
  | JObj fields =>
      match assoc k fields with
      | Some x => Ret x
      | None => Raise KeyError
      end
  | _ => Raise TypeError
  end.

(** [for x in v]: the elements of a list, the keys of a dict, the
    characters of a string. *)
Fixpoint chars (str : string) : list json :=
  match str with
  | EmptyString => []
  | String c str' => JStr (String c EmptyString) :: chars str'
  end.

Definition iter (v : json) : result (list json) :=
  match v with
  | JArr items => Ret items
  | JObj fields => Ret (map (λ kv, JStr kv.1) fields)
  | JStr str => Ret (chars str)
  | _ => Raise TypeError
  end.

End Py.

(* ===================================================================== *)
(** * The KOOK gateway session ([adapters/kook/__init__.py]) *)
(* ===================================================================== *)

Module Kook.
Import Py.

(** A websocket object is known by a number. *)
Definition sock := nat.

Definition dict := list (string * json).

(** [@dataclass class WSPayload], with the field types it declares. *)
Record WSPayload := mkWSPayload {
  s : Z;
  d : option dict;
  sn : option Z;
  extra : option dict
}.

(** The coroutines that [asyncio.create_task] is handed.  A task is
    either not started yet ([None]) or suspended in its
    [asyncio.sleep(1)] with the local counter [sec]. *)
Inductive coro : Type :=
| Handler (event : string) (payload : option dict)
| HeartbeatInterval (sec : option Z)
| WaitHeartbeat (sec : option Z)
| Finished
| Failed (e : exn).

(** The fields [KOOKBotInstance.__init__] and [BotAdapterProtocol.__init__]
    create (plus [session], assigned on the handshake), followed by what
    the object has done to the outside: tasks created, frames written,
    sockets it called [close()] on.  [appid] and [bot_name] only feed log
    lines and are left out. *)
Record KOOKBotInstance := mkBot {
  keep_run : bool;
  ws_url : json;
  connection : option sock;
  pong : Z;
  last_sn : Z;
  session : option json;
  tasks : list coro;
  sent : list (sock * WSPayload);
  closed : list sock
}.

Definition set_keep_run (v : bool) (self : KOOKBotInstance) :=
  mkBot v (ws_url self) (connection self) (pong self) (last_sn self)
        (session self) (tasks self) (sent self) (closed self).
Definition set_ws_url (v : json) (self : KOOKBotInstance) :=
  mkBot (keep_run self) v (connection self) (pong self) (last_sn self)
        (session self) (tasks self) (sent self) (closed self).
Definition set_connection (v : option sock) (self : KOOKBotInstance) :=
  mkBot (keep_run self) (ws_url self) v (pong self) (last_sn self)
        (session self) (tasks self) (sent self) (closed self).
Definition set_pong (v : Z) (self : KOOKBotInstance) :=
  mkBot (keep_run self) (ws_url self) (connection self) v (last_sn self)
        (session self) (tasks self) (sent self) (closed self).
Definition set_last_sn (v : Z) (self : KOOKBotInstance) :=
  mkBot (keep_run self) (ws_url self) (connection self) (pong self) v
        (session self) (tasks self) (sent self) (closed self).
Definition set_session (v : option json) (self : KOOKBotInstance) :=
  mkBot (keep_run self) (ws_url self) (connection self) (pong self)
        (last_sn self) v (tasks self) (sent self) (closed self).
Definition set_tasks (v : list coro) (self : KOOKBotInstance) :=
  mkBot (keep_run self) (ws_url self) (connection self) (pong self)
        (last_sn self) (session self) v (sent self) (closed self).
Definition set_sent (v : list (sock * WSPayload)) (self : KOOKBotInstance) :=
  mkBot (keep_run self) (ws_url self) (connection self) (pong self)
        (last_sn self) (session self) (tasks self) v (closed self).
Definition set_closed (v : list sock) (self : KOOKBotInstance) :=
  mkBot (keep_run self) (ws_url self) (connection self) (pong self)
        (last_sn self) (session self) (tasks self) (sent self) v.

(** [KOOKBotInstance.__init__] *)
Definition __init__ : KOOKBotInstance :=
  mkBot true (JStr "") None 0 0 None [] [] [].

(** ** A monad for method bodies: the object is threaded through, an
    exception stops the body and keeps the object as it was left. *)

Definition M (A : Type) : Type := KOOKBotInstance → result A * KOOKBotInstance.

Definition ret {A} (a : A) : M A := λ self, (Ret a, self).
Definition raise {A} (e : exn) : M A := λ self, (Raise e, self).
Definition bind {A B} (m : M A) (k : A → M B) : M B :=
  λ self, match m self with
          | (Ret a, self') => k a self'
          | (Raise e, self') => (Raise e, self')
          end.
Definition get {A} (f : KOOKBotInstance → A) : M A := λ self, (Ret (f self), self).
Definition modify (f : KOOKBotInstance → KOOKBotInstance) : M unit :=
  λ self, (Ret tt, f self).
Definition lift {A} (r : result A) : M A := λ self, (r, self).
Definition when (c : bool) (m : M unit) : M unit := if c then m else ret tt.

Declare Scope py_scope.
Delimit Scope py_scope with py.
Notation "x <- m ;; k" := (bind m (λ x, k))
  (at level 100, m at next level, k at level 200, right associativity) : py_scope.
Notation "m ;; k" := (bind m (λ _, k))
  (at level 100, k at level 200, right associativity) : py_scope.
Open Scope py_scope.

(** [self.__still_alive] *)
Definition __still_alive (self : KOOKBotInstance) : bool :=
  keep_run self && bool_decide (is_Some (connection self)).

(** [close_connection]: [close()] on the socket if there is one, then
    forget it. *)
Definition close_connection : M unit :=
  c <- get connection ;;
  match c with
  | Some ws => modify (λ self, set_closed (closed self ++ [ws]) self)
  | None => ret tt
  end ;;
  modify (set_connection None).

(** [await self.connection.send(payload.to_json())]; with no socket the
    attribute lookup on [None] fails. *)
Definition send (payload : WSPayload) : M unit :=
  c <- get connection ;;
  match c with
  | Some ws => modify (λ self, set_sent (sent self ++ [(ws, payload)]) self)
  | None => raise AttributeError
  end.

Definition create_task (t : coro) : M unit :=
  modify (λ self, set_tasks (tasks self ++ [t]) self).

(** [payload.d[k]] *)
Definition d_get (payload : WSPayload) (k : string) : M json :=
  match d payload with
  | None => raise TypeError
  | Some fields => lift (getitem (JObj fields) k)
  end.

(** The body of the read loop of [__connect] from the decoded frame on
    (lines 70-103). *)
Definition on_payload (payload : WSPayload) : M unit :=
  match sn payload with
  | Some n => modify (set_last_sn n)
  | None => ret tt
  end ;;
  when (s payload =? 0)
    (create_task (Handler "event" (d payload))) ;;
  when (s payload =? 1)
    (code <- d_get payload "code" ;;
     when (negb (py_eq code (JInt 0)))
       (modify (set_ws_url (JStr "")) ;;
        modify (set_last_sn 0) ;;
        raise ManualCloseException) ;;
     last <- get last_sn ;;
     when (negb (last =? 0))
       (send (mkWSPayload 4 None (Some last) None)) ;;
     sid <- d_get payload "session_id" ;;
     modify (set_session (Some sid)) ;;
     create_task (HeartbeatInterval None)) ;;
  when (s payload =? 3)
    (modify (set_pong 1)) ;;
  when (s payload =? 5)
    (modify (set_ws_url (JStr "")) ;;
     modify (set_last_sn 0) ;;
     close_connection) ;;
  when (s payload =? 6)
    (ret tt) ;;
  match sn payload with
  | Some n => when (negb (n =? 0)) (modify (set_last_sn n))
  | None => ret tt
  end.

(** ** The two heartbeat coroutines

    Each function is the stretch of the coroutine that runs without
    yielding: from its start, or from the return of [asyncio.sleep(1)], up
    to the next [asyncio.sleep(1)] or to its end.  The result is the state
    the task is left in. *)

(** [heartbeat_interval] *)
Definition heartbeat_interval (pc : option Z) : M coro :=
  sec <- match pc with
         | None => ret 0
         | Some sec =>
             let sec := sec + 1 in
             if sec >=? 30 then
               last <- get last_sn ;;
               send (mkWSPayload 2 None (Some last) None) ;;
               create_task (WaitHeartbeat None) ;;
               ret 0
             else ret sec
         end ;;
  alive <- get __still_alive ;;
  ret (if alive then HeartbeatInterval (Some sec) else Finished).

(** [wait_heartbeat] *)
Definition wait_heartbeat (pc : option Z) : M coro :=
  sec <- match pc with
         | None => ret 0
         | Some sec =>
             let sec := sec + 1 in
             when (sec >=? 30) close_connection ;;
             ret sec
         end ;;
  p <- get pong ;;
  alive <- get __still_alive ;;
  if (p =? 0) && alive then ret (WaitHeartbeat (Some sec))
  else modify (set_pong 0) ;; ret Finished.

(** The event loop resumes task [i].  An exception that leaves a task
    ends that task only.  The [handler] callback is the caller's; it runs
    outside this object. *)
Definition settle (i : nat) (out : result coro * KOOKBotInstance) : KOOKBotInstance :=
  let t := match out.1 with Ret t => t | Raise e => Failed e end in
  set_tasks (<[i := t]> (tasks out.2)) out.2.

Definition resume (i : nat) (self : KOOKBotInstance) : option KOOKBotInstance :=
  match tasks self !! i with
  | Some (Handler _ _) => Some (settle i (Ret Finished, self))
  | Some (HeartbeatInterval pc) => Some (settle i (heartbeat_interval pc self))
  | Some (WaitHeartbeat pc) => Some (settle i (wait_heartbeat pc self))
  | Some Finished | Some (Failed _) | None => None
  end.

(** ** HTTP *)

(** What [http_requests.get] hands back: nothing, or a body that
    [json.loads] accepts or rejects. *)
Inductive http_body : Type :=
| Garbled
| Decoded (data : json).

(** [__check_response]; Python's [None] is [JNull]. *)
Definition __check_response (response_text : option http_body) : result json :=
  match response_text with
  | None => Ret JNull
  | Some Garbled => Raise ResponseException
  | Some (Decoded data) =>
      rbind (contains "code" data) (λ has_code,
        if has_code then
          rbind (getitem data "code") (λ code,
            if negb (py_eq code (JInt 0)) then Raise ResponseException
            else Ret data)
        else Ret data)
  end.

(** ** [connect] and [__connect]: the main coroutine *)

(** Where the main coroutine is suspended. *)
Inductive main_pc : Type :=
| AwaitMe                      (* get_request('/user/me') *)
| AwaitGateway                 (* get_request('/gateway/index') *)
| AwaitOpen                    (* entering get_websocket_connection *)
| AwaitRecv (websocket : sock) (* asyncio.sleep(0); websocket.recv() *)
| Backoff                      (* asyncio.sleep(10) *)
| Returned
| Escaped (e : exn).

Inductive recv_result : Type :=
| Frame (payload : WSPayload)
| Malformed   (* json.loads or WSPayload(...) raises *)
| Dropped.    (* recv() raises *)

(** What the event loop can deliver. *)
Inductive event : Type :=
| Http (response_text : option http_body)
| Opened (websocket : option sock)
| Recv (r : recv_result)
| Wake
| Resume (i : nat)
| Close.

Record System := mkSystem {
  main : main_pc;
  bot : KOOKBotInstance
}.

(** An exception raised in [__connect] outside the [async with] block:
    the [finally] clause runs, and nothing in [connect] catches it. *)
Definition escape (e : exn) (self : KOOKBotInstance) : System :=
  mkSystem (Escaped e) (close_connection self).2.

(** Modelled from the spec: [get_websocket_connection] is declared outside
    [src/].  Section 4.1 has every failure of a connection (network error,
    undecodable frame, manual invalidation) end that connection attempt
    and lead to the back-off sleep, so the context manager is taken to
    absorb what is raised while it is entered or inside its block.  Either
    way, and also when the read loop ends normally, control reaches the
    [finally] clause, [__connect] returns and [connect] sleeps. *)
Definition leave (self : KOOKBotInstance) : System :=
  mkSystem Backoff (close_connection self).2.

(** [while self.__still_alive:] up to [websocket.recv()]. *)
Definition read_loop (websocket : sock) (self : KOOKBotInstance) : System :=
  if __still_alive self then mkSystem (AwaitRecv websocket) self
  else leave self.

(** [__connect] from its start to its first [await]. *)
Definition enter__connect (self : KOOKBotInstance) : System :=
  if negb (truthy (ws_url self)) then mkSystem AwaitGateway self
  else mkSystem AwaitOpen self.

(** [while self.keep_run:] in [connect]. *)
Definition while_keep_run (self : KOOKBotInstance) : System :=
  if keep_run self then enter__connect self
  else mkSystem Returned self.

(** [connect] once [get_request('/user/me')] has answered. *)
Definition connect_me (response_text : option http_body) (self : KOOKBotInstance) : System :=
  match __check_response response_text with
  | Raise e => mkSystem (Escaped e) self
  | Ret me_req =>
      if truthy me_req then
        match rbind (rbind (getitem me_req "data") (λ data, getitem data "id"))
                (λ _, rbind (getitem me_req "data")
                        (λ data, getitem data "username")) with
        | Raise e => mkSystem (Escaped e) self
        | Ret _ => while_keep_run self
        end
      else while_keep_run self
  end.

(** Lines 53-57: the gateway address out of the answer of
    [get_request('/gateway/index')]. *)
Definition gateway_url (response_text : option http_body) : result json :=
  rbind (__check_response response_text) (λ resp,
    if negb (truthy resp) then Raise ManualCloseException
    else rbind (getitem resp "data") (λ data, getitem data "url")).

(** [__connect] once [get_request('/gateway/index')] has answered. *)
Definition connect_gateway (response_text : option http_body) (self : KOOKBotInstance) : System :=
  match gateway_url response_text with
  | Raise e => escape e self
  | Ret url => mkSystem AwaitOpen (set_ws_url url self)
  end.

(** [async with ... as websocket: self.connection = websocket]. *)
Definition connect_opened (websocket : option sock) (self : KOOKBotInstance) : System :=
  match websocket with
  | None => leave self
  | Some ws => read_loop ws (set_connection (Some ws) self)
  end.

(** One turn of the read loop once [recv()] has answered. *)
Definition connect_recv (websocket : sock) (r : recv_result) (self : KOOKBotInstance) : System :=
  match r with
  | Frame payload =>
      match on_payload payload self with
      | (Ret _, self') => read_loop websocket self'
      | (Raise _, self') => leave self'
      end
  | Malformed | Dropped => leave self
  end.

(** [close] *)
Definition close : M unit :=
  modify (set_keep_run false) ;;
  close_connection.

(** One step of the whole: the coroutine that the event is for runs up to
    its next [await].  [None] when the event is for nobody. *)
Definition step (st : System) (ev : event) : option System :=
  match ev, main st with
  | Http r, AwaitMe => Some (connect_me r (bot st))
  | Http r, AwaitGateway => Some (connect_gateway r (bot st))
  | Opened w, AwaitOpen => Some (connect_opened w (bot st))
  | Recv r, AwaitRecv ws => Some (connect_recv ws r (bot st))
  | Wake, Backoff => Some (while_keep_run (bot st))
  | Resume i, _ => mkSystem (main st) <$> resume i (bot st)
  | Close, _ => Some (mkSystem (main st) (close (bot st)).2)
  | _, _ => None
  end.

Fixpoint run (st : System) (evs : list event) : option System :=
  match evs with
  | [] => Some st
  | ev :: evs' =>
      match step st ev with
      | Some st' => run st' evs'
      | None => None
      end
  end.

(** [adapter.connect(...)] has been called on a fresh object. *)
Definition boot : System := mkSystem AwaitMe __init__.

(** ** The role-list cache ([record_role_list]) *)

(** A [dict] with arbitrary hashable keys, as [roles] is. *)
Definition hashable (v : json) : bool :=
  match v with
  | JArr _ | JObj _ => false
  | _ => true
  end.

Fixpoint setitem (k v : json) (l : list (json * json)) : list (json * json) :=
  match l with
  | [] => [(k, v)]
  | (k', v') :: l' =>
      if py_eq k' k then (k', v) :: l' else (k', v') :: setitem k v l'
  end.

(** [class RolePermissionCache]: two class-level dicts keyed by guild. *)
Record RolePermissionCache := mkCache {
  guild_role : gmap string (list (json * json));
  cache_create_time : gmap string Q
}.

(** [for item in ...: roles[item['role_id']] = item['permissions']] *)
Fixpoint collect_roles (items : list json) (roles : list (json * json))
  : result (list (json * json)) :=
  match items with
  | [] => Ret roles
  | item :: rest =>
      rbind (getitem item "permissions") (λ permissions,
        rbind (getitem item "role_id") (λ role_id,
          if hashable role_id
          then collect_roles rest (setitem role_id permissions roles)
          else Raise TypeError))
  end.

(** What one call meets outside: the clock at the freshness test, the
    answer to the request if one is made, the clock at the final store. *)
Record outside := mkOutside {
  clock_at_test : Q;
  response_text : option http_body;
  clock_at_store : Q
}.

(** [time.time() - t < 10] *)
Definition fresh_at (now t : Q) : bool :=
  if Qlt_le_dec (now - t) 10 then true else false.

(** [record_role_list].  Besides the outcome and the cache, the requests
    issued, as (path, guild_id). *)
Definition record_role_list (guild_id : string) (env : outside)
    (cache : RolePermissionCache)
  : result unit * RolePermissionCache * list (string * string) :=
  if match cache_create_time cache !! guild_id with
     | Some t => fresh_at (clock_at_test env) t
     | None => false
     end
  then (Ret tt, cache, [])
  else
    let requests := [("/guild-role/list"%string, guild_id)] in
    match __check_response (response_text env) with
    | Raise e => (Raise e, cache, requests)
    | Ret res =>
        if truthy res then
          match rbind (getitem res "data") (λ data,
                  rbind (getitem data "items") (λ items,
                    rbind (iter items) (λ l, collect_roles l []))) with
          | Raise e => (Raise e, cache, requests)
          | Ret roles =>
              (Ret tt,
               mkCache (<[guild_id := roles]> (guild_role cache))
                       (<[guild_id := clock_at_store env]> (cache_create_time cache)),
               requests)
          end
        else
          (Ret tt,
           mkCache (delete guild_id (guild_role cache))
                   (<[guild_id := clock_at_store env]> (cache_create_time cache)),
           requests)
    end.

(** ** Notions the statements below are about *)

(** A handshake frame (opcode 1) whose payload carries a non-zero [code]:
    the frame at which [on_payload] raises [ManualCloseException]. *)
Definition handshake_rejected (payload : WSPayload) : bool :=
  (s payload =? 1)
  && match d payload with
     | Some fields =>
         match assoc "code" fields with
         | Some code => negb (py_eq code (JInt 0))
         | None => false
         end
     | None => false
     end.

(** A handshake frame that succeeds and carries no [sn] of its own:
    [code] is 0 and a [session_id] is present. *)
Definition handshake_accepted (payload : WSPayload) : bool :=
  (s payload =? 1)
  && bool_decide (sn payload = None)
  && match d payload with
     | Some fields =>
         match assoc "code" fields, assoc "session_id" fields with
         | Some code, Some _ => py_eq code (JInt 0)
         | _, _ => false
         end
     | None => false
     end.

(** The two frames at which the session is invalidated: a rejected
    handshake, and a reconnect request (opcode 5) without [sn]. *)
Definition invalidating (payload : WSPayload) : bool :=
  handshake_rejected payload
  || ((s payload =? 5) && bool_decide (sn payload = None)).

(** The resume request and the heartbeat, as they are written. *)
Definition resume_request (n : Z) : WSPayload := mkWSPayload 4 None (Some n) None.
Definition heartbeat (n : Z) : WSPayload := mkWSPayload 2 None (Some n) None.

(** The acknowledgment is pending: [pong == 0]. *)
Definition ack_pending (self : KOOKBotInstance) : bool := pong self =? 0.



(** ** Sessions used as examples *)

Definition me_response : option http_body :=
  Some (Decoded (JObj [("code", JInt 0);
                       ("data", JObj [("id", JStr "1"); ("username", JStr "amiya")])])).
Definition gateway_response : option http_body :=
  Some (Decoded (JObj [("code", JInt 0);
                       ("data", JObj [("url", JStr "wss://gateway")])])).
Definition hello : WSPayload :=
  mkWSPayload 1 (Some [("code", JInt 0); ("session_id", JStr "abc")]) None None.

(** A handshake rejected with code 40003 that carries [sn = 7]. *)
Definition rejected_handshake_7 : WSPayload :=
  mkWSPayload 1 (Some [("code", JInt 40003)]) (Some 7) None.

(** Connect, complete the handshake, and let the heartbeat task run up to
    its 30th second, just before it sends. *)
Definition until_first_beat : list event :=
  [Http me_response; Http gateway_response; Opened (Some 1%nat);
   Recv (Frame hello)] ++ replicate 30 (Resume 0).

(** ... then the heartbeat is sent, the watchdog (task 1) starts, and the
    acknowledgment arrives. *)
Definition acknowledged_heartbeat : list event :=
  until_first_beat
  ++ [Resume 0; Resume 1; Recv (Frame (mkWSPayload 3 None None None))].

(** Connect, complete the handshake and receive an event with
    [sn = 42]. *)
Definition session_at_42 : list event :=
  [Http me_response; Http gateway_response; Opened (Some 1%nat);
   Recv (Frame hello);
   Recv (Frame (mkWSPayload 0 (Some []) (Some 42) None))].

(** The server asks for a reconnect; after the sleep the gateway is asked
    again, a second socket is opened and the handshake succeeds. *)
Definition invalidate_and_reconnect : list event :=
  [Recv (Frame (mkWSPayload 5 None None None)); Wake;
   Http gateway_response; Opened (Some 2%nat); Recv (Frame hello)].


(** The object after an accepted handshake: the resume request is
    written when [last_sn] is not 0, the session id is kept and the
    heartbeat task is created. *)
Definition greeted (sid : json) (ws : sock) (self : KOOKBotInstance) :=
  set_tasks (tasks self ++ [HeartbeatInterval None])
    (set_session (Some sid)
       (if last_sn self =? 0 then self
        else set_sent (sent self ++ [(ws, resume_request (last_sn self))]) self)).

(** How many more times a watchdog in the given state has to be resumed
    to reach its 30th second. *)
Definition polls_left (pc : option Z) : nat :=
  match pc with
  | None => 31
  | Some sec => Z.to_nat (30 - sec)
  end.

(** A cache that holds roles for guild "g", fetched at time 100, and a
    later call whose request is answered with an error envelope. *)
Definition stale_cache : RolePermissionCache :=
  mkCache {[ "g"%string := [(JInt 1, JInt 8)] ]} {[ "g"%string := 100%Q ]}.
Definition error_answer : outside :=
  mkOutside 200
    (Some (Decoded (JObj [("code", JInt 40000); ("message", JStr "denied")])))
    201.
Definition no_answer : outside := mkOutside 200 None 201.
Definition early_call : outside := mkOutside 105 None 106.

(** The frames the adapter writes: a heartbeat [WSPayload(2, sn=...)], or
    a resume request [WSPayload(4, sn=...)] with a non-zero [sn]. *)
Definition outgoing (p : WSPayload) : bool :=
  match d p, sn p, extra p with
  | None, Some n, None => (s p =? 2) || ((s p =? 4) && negb (n =? 0))
  | _, _, _ => false
  end.



(** ** The two heartbeat coroutines, await by await

    In [heartbeat_interval] and [wait_heartbeat] above, the [await] of
    [connection.send] and the one of [connection.close()] return before
    another coroutine runs.  Here each of them is a point at which the
    coroutine is suspended, like [asyncio.sleep(1)], and the object may be
    found changed when the coroutine goes on. *)

(** Where [heartbeat_interval] is suspended or has ended. *)
Inductive beat : Type :=
| BeatSleep (sec : Z)    (* in asyncio.sleep(1), line 111 *)
| BeatSend               (* in connection.send(...), line 115; sec is 0 *)
| BeatEnd
| BeatRaised (e : exn).

(** [while self.__still_alive:] up to [asyncio.sleep(1)]. *)
Definition beat_loop (sec : Z) : M beat :=
  alive <- get __still_alive ;;
  ret (if alive then BeatSleep sec else BeatEnd).

(** [heartbeat_interval] from its start to its first [await]. *)
Definition heartbeat_interval_start : M beat := beat_loop 0.

(** [heartbeat_interval] from the return of an [await] to the next one. *)
Definition heartbeat_interval_resume (pc : beat) : M beat :=
  match pc with
  | BeatSleep sec =>
      let sec := sec + 1 in
      if sec >=? 30 then
        last <- get last_sn ;;
        send (mkWSPayload 2 None (Some last) None) ;;
        ret BeatSend
      else beat_loop sec
  | BeatSend =>
      create_task (WaitHeartbeat None) ;;
      beat_loop 0
  | BeatEnd => ret BeatEnd
  | BeatRaised e => ret (BeatRaised e)
  end.

(** Where [wait_heartbeat] is suspended or has ended. *)
Inductive watch : Type :=
| WatchSleep (sec : Z)   (* in asyncio.sleep(1), line 122 *)
| WatchClose (sec : Z)   (* in connection.close(), line 130, called from line 125 *)
| WatchEnd.

(** [while self.pong == 0 and self.__still_alive:] up to
    [asyncio.sleep(1)], and [self.pong = 0] when the loop is left. *)
Definition watch_loop (sec : Z) : M watch :=
  p <- get pong ;;
  alive <- get __still_alive ;;
  if (p =? 0) && alive then ret (WatchSleep sec)
  else modify (set_pong 0) ;; ret WatchEnd.

(** [wait_heartbeat] from its start to its first [await]. *)
Definition wait_heartbeat_start : M watch := watch_loop 0.

(** [wait_heartbeat] from the return of an [await] to the next one.
    [close()] is called on the socket before the coroutine is suspended
    in it; [self.connection = None] runs when it goes on. *)
Definition wait_heartbeat_resume (pc : watch) : M watch :=
  match pc with
  | WatchSleep sec =>
      let sec := sec + 1 in
      if sec >=? 30 then
        c <- get connection ;;
        match c with
        | Some ws =>
            modify (λ self, set_closed (closed self ++ [ws]) self) ;;
            ret (WatchClose sec)
        | None =>
            modify (set_connection None) ;;
            watch_loop sec
        end
      else watch_loop sec
  | WatchClose sec =>
      modify (set_connection None) ;;
      watch_loop sec
  | WatchEnd => ret WatchEnd
  end.

(** A coroutine is resumed once for each element of [found], and finds
    the object in that state: between two of its steps the other
    coroutines may have done anything to it. *)
Definition beat_next (pc : beat) (self : KOOKBotInstance) : beat :=
  match (heartbeat_interval_resume pc self).1 with
  | Ret pc' => pc'
  | Raise e => BeatRaised e
  end.

Definition watch_next (pc : watch) (self : KOOKBotInstance) : watch :=
  match (wait_heartbeat_resume pc self).1 with
  | Ret pc' => pc'
  | Raise _ => WatchEnd
  end.

Definition beat_run (self0 : KOOKBotInstance) (found : list KOOKBotInstance) : beat :=
  foldl beat_next
        (match (heartbeat_interval_start self0).1 with
         | Ret pc => pc
         | Raise e => BeatRaised e
         end) found.

Definition watch_run (self0 : KOOKBotInstance) (found : list KOOKBotInstance) : watch :=
  foldl watch_next
        (match (wait_heartbeat_start self0).1 with
         | Ret pc => pc
         | Raise _ => WatchEnd
         end) found.

(** How the states of the two readings correspond. *)
Definition coro_of_beat (pc : beat) : coro :=
  match pc with
  | BeatSleep sec => HeartbeatInterval (Some sec)
  | BeatSend => HeartbeatInterval (Some 0)
  | BeatEnd => Finished
  | BeatRaised e => Failed e
  end.

Definition coro_of_watch (pc : watch) : coro :=
  match pc with
  | WatchSleep sec | WatchClose sec => WaitHeartbeat (Some sec)
  | WatchEnd => Finished
  end.

(** The coroutine goes on at once after [send] and [close()]: nobody
    runs in between. *)
Definition beat_at_once (pc : beat) : M beat :=
  pc' <- heartbeat_interval_resume pc ;;
  match pc' with
  | BeatSend => heartbeat_interval_resume BeatSend
  | _ => ret pc'
  end.

Definition watch_at_once (pc : watch) : M watch :=
  pc' <- wait_heartbeat_resume pc ;;
  match pc' with
  | WatchClose sec => wait_heartbeat_resume (WatchClose sec)
  | _ => ret pc'
  end.

(** The count a watchdog holds after [n] resumptions. *)
Definition counted (pc : watch) (n : nat) : Prop :=
  match pc with
  | WatchSleep sec => sec = Z.of_nat n ∧ (n ≤ 29)%nat
  | WatchClose sec => sec = 30 ∧ n = 30%nat
  | WatchEnd => True
  end.

End Kook.

(* ===================================================================== *)
(** * The handler registry ([handler/__init__.py]) *)
(* ===================================================================== *)

Module Handler.
Import Py.

(** Lists and factories are objects: they live in a store and are known
    by their address, so that two names for one list see each other's
    appends. *)
Definition loc := nat.
Definition fid := nat.

(** A coroutine function handed to a decorator is known by a number. *)
Definition callable := nat.

(** Stand-ins for the unions that [messageHandlerDefine] declares. *)
Definition KEYWORDS := list string.
Definition PREFIX := option (bool + list string).

(** Modelled from the spec: [GroupConfig] is declared in
    [handler/messageHandlerDefine.py], outside [src/].  Section 3 has it
    carry a group id and behaviour flags; as a string it is its group id. *)
Record GroupConfig := mkGroupConfig {
  cfg_group_id : string;
  cfg_check_prefix : bool;
  cfg_allow_direct : bool;
  cfg_direct_only : bool
}.

(** The [group_id] argument of [on_message]: [None], a string or a
    [GroupConfig]; [str(group_id)] is stored. *)
Inductive group_arg : Type :=
| GroupNone
| GroupName (name : string)
| GroupOf (config : GroupConfig).

Definition str (g : group_arg) : string :=
  match g with
  | GroupNone => "None"
  | GroupName name => name
  | GroupOf config => cfg_group_id config
  end.

(** Modelled from the spec: [MessageHandlerItem] is declared in
    [handler/messageHandlerDefine.py], outside [src/].  The fields are the
    keyword arguments [on_message] passes and the two it assigns
    afterwards.  Section 3 lists the keyword set and the custom verify
    function as alternative predicates of a descriptor; a descriptor that
    has just been constructed has neither. *)
Record MessageHandlerItem := mkItem {
  function : callable;
  item_group_config : fid;      (* the manager of the registering factory *)
  level : Z;
  group_id : string;
  direct_only : bool;
  allow_direct : option bool;
  check_prefix : PREFIX;
  item_prefix_keywords : loc;   (* the factory's list itself, not a copy *)
  keywords : option KEYWORDS;
  custom_verify : option callable
}.

(** What a list can hold. *)
Inductive entry : Type :=
| Keyword (word : string)
| Item (h : MessageHandlerItem)
| Callback (f : callable).

(** [BotHandlerFactory]: five list objects, the dict of the group
    configuration manager, and two dicts whose values are list objects.
    Exception classes are known by name. *)
Record BotHandlerFactory := mkFactory {
  prefix_keywords : loc;
  group_config : gmap string GroupConfig;
  event_handlers : list (string * loc);
  message_handlers : loc;
  exception_handlers : list (string * loc);
  after_reply_handlers : loc;
  before_reply_handlers : loc;
  message_handler_middleware : loc
}.

Record Store := mkStore {
  factories : gmap fid BotHandlerFactory;
  lists : gmap loc (list entry);
  next_loc : loc;
  next_fid : fid
}.

Definition empty_store : Store := mkStore ∅ ∅ 0%nat 0%nat.

(** The list at an address. *)
Definition deref (h : gmap loc (list entry)) (l : loc) : list entry :=
  default [] (h !! l).

(** [BotHandlerFactory.__init__]: a new object with seven fresh
    containers.  The new object's id is the old [next_fid]. *)
Definition new_factory (st : Store) : Store :=
  let l := next_loc st in
  let self :=
    mkFactory l ∅ [] (S l) [] (S (S l)) (S (S (S l))) (S (S (S (S l)))) in
  mkStore (<[next_fid st := self]> (factories st))
          (<[l := []]> (<[S l := []]> (<[S (S l) := []]>
             (<[S (S (S l)) := []]> (<[S (S (S (S l))) := []]> (lists st))))))
          (l + 5)%nat
          (S (next_fid st)).

(** [l.append(x)] *)
Definition append (l : loc) (x : entry) (h : gmap loc (list entry))
  : gmap loc (list entry) :=
  <[l := deref h l ++ [x]]> h.

(** [a += b] on two list objects: [a] grows in place by what [b] holds at
    that moment ([a] and [b] may be one object). *)
Definition extend (a b : loc) (h : gmap loc (list entry))
  : gmap loc (list entry) :=
  <[a := deref h a ++ deref h b]> h.

Definition with_lists (h : gmap loc (list entry)) (st : Store) : Store :=
  mkStore (factories st) h (next_loc st) (next_fid st).

(** The arguments of [on_message]. *)
Record on_message_args := mkArgs {
  arg_group_id : group_arg;
  arg_keywords : option KEYWORDS;
  arg_verify : option callable;
  arg_check_prefix : PREFIX;
  arg_allow_direct : option bool;
  arg_direct_only : bool;
  arg_level : Z
}.

(** [on_message(...)]'s defaults. *)
Definition default_args : on_message_args :=
  mkArgs GroupNone None None None None false 0.

(** The descriptor [register] builds: the constructor call, then the
    [if verify: ... else: ...]. *)
Definition register_item (self : fid) (factory : BotHandlerFactory)
    (a : on_message_args) (func : callable) : MessageHandlerItem :=
  let _handler :=
    mkItem func self (arg_level a) (str (arg_group_id a)) (arg_direct_only a)
           (arg_allow_direct a) (arg_check_prefix a) (prefix_keywords factory)
           None None in
  match arg_verify a with
  | Some verify =>
      mkItem (function _handler) (item_group_config _handler) (level _handler)
             (group_id _handler) (direct_only _handler) (allow_direct _handler)
             (check_prefix _handler) (item_prefix_keywords _handler)
             (keywords _handler) (Some verify)
  | None =>
      mkItem (function _handler) (item_group_config _handler) (level _handler)
             (group_id _handler) (direct_only _handler) (allow_direct _handler)
             (check_prefix _handler) (item_prefix_keywords _handler)
             (arg_keywords a) (custom_verify _handler)
  end.

(** [self.on_message(...)(func)] *)
Definition on_message (self : fid) (a : on_message_args) (func : callable)
    (st : Store) : Store :=
  match factories st !! self with
  | Some factory =>
      with_lists (append (message_handlers factory)
                         (Item (register_item self factory a func)) (lists st)) st
  | None => st
  end.

(** [self.before_bot_reply(handler)] and its two siblings. *)
Definition before_bot_reply (self : fid) (handler : callable) (st : Store) : Store :=
  match factories st !! self with
  | Some factory =>
      with_lists (append (before_reply_handlers factory) (Callback handler) (lists st)) st
  | None => st
  end.

Definition after_bot_reply (self : fid) (handler : callable) (st : Store) : Store :=
  match factories st !! self with
  | Some factory =>
      with_lists (append (after_reply_handlers factory) (Callback handler) (lists st)) st
  | None => st
  end.

Definition handler_middleware (self : fid) (handler : callable) (st : Store) : Store :=
  match factories st !! self with
  | Some factory =>
      with_lists (append (message_handler_middleware factory) (Callback handler) (lists st)) st
  | None => st
  end.

(** [if item not in d: d[item] = []] followed by [d[item].append(func)],
    on a dict [d] and the store's lists. *)
Definition register_under (func : callable)
    (acc : list (string * loc) * gmap loc (list entry) * loc) (item : string)
  : list (string * loc) * gmap loc (list entry) * loc :=
  let '(d, h, next) := acc in
  match assoc item d with
  | Some l => (d, append l (Callback func) h, next)
  | None => (d ++ [(item, next)], append next (Callback func) (<[next := []]> h), S next)
  end.

Definition set_event_handlers (d : list (string * loc)) (f : BotHandlerFactory) :=
  mkFactory (prefix_keywords f) (group_config f) d (message_handlers f)
            (exception_handlers f) (after_reply_handlers f)
            (before_reply_handlers f) (message_handler_middleware f).
Definition set_exception_handlers (d : list (string * loc)) (f : BotHandlerFactory) :=
  mkFactory (prefix_keywords f) (group_config f) (event_handlers f)
            (message_handlers f) d (after_reply_handlers f)
            (before_reply_handlers f) (message_handler_middleware f).
Definition set_group_config_dict (g : gmap string GroupConfig) (f : BotHandlerFactory) :=
  mkFactory (prefix_keywords f) g (event_handlers f) (message_handlers f)
            (exception_handlers f) (after_reply_handlers f)
            (before_reply_handlers f) (message_handler_middleware f).

(** [self.on_event(events)(func)]; a single name is a one-element list. *)
Definition on_event (self : fid) (events : list string) (func : callable)
    (st : Store) : Store :=
  match factories st !! self with
  | Some factory =>
      let '(d, h, next) :=
        foldl (register_under func)
              (event_handlers factory, lists st, next_loc st) events in
      mkStore (<[self := set_event_handlers d factory]> (factories st))
              h next (next_fid st)
  | None => st
  end.

(** [self.on_exception(exceptions)(func)] *)
Definition on_exception (self : fid) (exceptions : list string) (func : callable)
    (st : Store) : Store :=
  match factories st !! self with
  | Some factory =>
      let '(d, h, next) :=
        foldl (register_under func)
              (exception_handlers factory, lists st, next_loc st) exceptions in
      mkStore (<[self := set_exception_handlers d factory]> (factories st))
              h next (next_fid st)
  | None => st
  end.

(** [self.set_group_config(config)] *)
Definition set_group_config (self : fid) (config : GroupConfig) (st : Store) : Store :=
  match factories st !! self with
  | Some factory =>
      mkStore (<[self := set_group_config_dict
                           (<[cfg_group_id config := config]> (group_config factory))
                           factory]> (factories st))
              (lists st) (next_loc st) (next_fid st)
  | None => st
  end.

(** One turn of [for e in getattr(parent, keyname)]: [e] is the key and
    [lp] the list the parent holds under it.  The target's dict is [d]. *)
Definition merge_key (acc : list (string * loc) * gmap loc (list entry))
    (e : string * loc) : list (string * loc) * gmap loc (list entry) :=
  let '(d, h) := acc in
  match assoc e.1 d with
  | None => (d ++ [e], h)
  | Some lt => (d, extend lt e.2 h)
  end.

(** [BotInstance.combine_factory(target, parent)].

    The loop runs over the parent's dict as it is when the loop starts.
    That is what Python does here: when [target] and [parent] are two
    objects the parent's dict is never written, and when they are one
    object every key is already present, so only the lists grow. *)
Definition combine_factory (target parent : fid) (st : Store) : Store :=
  match factories st !! target, factories st !! parent with
  | Some t, Some p =>
      let h := lists st in
      let h := extend (prefix_keywords t) (prefix_keywords p) h in
      let h := extend (message_handlers t) (message_handlers p) h in
      let h := extend (after_reply_handlers t) (after_reply_handlers p) h in
      let h := extend (before_reply_handlers t) (before_reply_handlers p) h in
      let h := extend (message_handler_middleware t) (message_handler_middleware p) h in
      let config := group_config p ∪ group_config t in
      let '(events, h) := foldl merge_key (event_handlers t, h) (event_handlers p) in
      let '(exceptions, h) := foldl merge_key (exception_handlers t, h) (exception_handlers p) in
      mkStore (<[target := set_exception_handlers exceptions
                             (set_event_handlers events
                                (set_group_config_dict config t))]> (factories st))
              h (next_loc st) (next_fid st)
  | _, _ => st
  end.

(** ** Notions the statements below are about *)

(** What a list object is used for. *)
Inductive role : Type :=
| RPrefix
| RMessage
| RAfter
| RBefore
| RMiddleware
| REvent (name : string)
| RException (name : string).

(** The list a factory holds in a role, if any. *)
Definition list_of (r : role) (f : BotHandlerFactory) : option loc :=
  match r with
  | RPrefix => Some (prefix_keywords f)
  | RMessage => Some (message_handlers f)
  | RAfter => Some (after_reply_handlers f)
  | RBefore => Some (before_reply_handlers f)
  | RMiddleware => Some (message_handler_middleware f)
  | REvent name => assoc name (event_handlers f)
  | RException name => assoc name (exception_handlers f)
  end.

(** What a factory holds in a role; nothing under a key it does not
    have. *)
Definition content (st : Store) (self : fid) (r : role) : list entry :=
  match factories st !! self with
  | Some f =>
      match list_of r f with
      | Some l => deref (lists st) l
      | None => []
      end
  | None => []
  end.

(** The shape of a store that the methods of the class build: a dict has
    each key once, and a list object serves one role only, in whichever
    factories it is referenced (so two keys never share a list).  Addresses
    in use lie below the allocation counters. *)
Definition owns (ρ : loc → role) (f : BotHandlerFactory) : Prop :=
  (∀ r l, list_of r f = Some l → ρ l = r)
  ∧ NoDup (event_handlers f).*1
  ∧ NoDup (exception_handlers f).*1.

Definition wf (st : Store) : Prop :=
  ∃ ρ : loc → role,
    ∀ i f, factories st !! i = Some f →
           (i < next_fid st)%nat
           ∧ owns ρ f
           ∧ ∀ r l, list_of r f = Some l → (l < next_loc st)%nat.

(** Two factories of a store that share no list object. *)
Definition separate (st : Store) (a b : fid) : Prop :=
  a ≠ b
  ∧ ∀ fa fb, factories st !! a = Some fa → factories st !! b = Some fb →
             ∀ r r' l, list_of r fa = Some l → list_of r' fb ≠ Some l.

(** The stages of [combine_factory], named. *)

(** The lists after the five [+=] on the sequences. *)
Definition after_sequences (t p : BotHandlerFactory) (h : gmap loc (list entry)) :=
  extend (message_handler_middleware t) (message_handler_middleware p)
    (extend (before_reply_handlers t) (before_reply_handlers p)
       (extend (after_reply_handlers t) (after_reply_handlers p)
          (extend (message_handlers t) (message_handlers p)
             (extend (prefix_keywords t) (prefix_keywords p) h)))).

Definition merged_events (t p : BotHandlerFactory) (h : gmap loc (list entry)) :=
  foldl merge_key (event_handlers t, after_sequences t p h) (event_handlers p).

Definition merged_exceptions (t p : BotHandlerFactory) (h : gmap loc (list entry)) :=
  foldl merge_key (exception_handlers t, (merged_events t p h).2)
        (exception_handlers p).

Definition combined (t p : BotHandlerFactory) (h : gmap loc (list entry)) :=
  set_exception_handlers (merged_exceptions t p h).1
    (set_event_handlers (merged_events t p h).1
       (set_group_config_dict (group_config p ∪ group_config t) t)).

(** The calls that build registries. *)
Inductive call : Type :=
| New
| OnMessage (self : fid) (a : on_message_args) (func : callable)
| OnEvent (self : fid) (events : list string) (func : callable)
| OnException (self : fid) (exceptions : list string) (func : callable)
| BeforeBotReply (self : fid) (handler : callable)
| AfterBotReply (self : fid) (handler : callable)
| HandlerMiddleware (self : fid) (handler : callable)
| SetGroupConfig (self : fid) (config : GroupConfig)
| CombineFactory (target parent : fid).

Definition exec (st : Store) (c : call) : Store :=
  match c with
  | New => new_factory st
  | OnMessage self a func => on_message self a func st
  | OnEvent self events func => on_event self events func st
  | OnException self exceptions func => on_exception self exceptions func st
  | BeforeBotReply self handler => before_bot_reply self handler st
  | AfterBotReply self handler => after_bot_reply self handler st
  | HandlerMiddleware self handler => handler_middleware self handler st
  | SetGroupConfig self config => set_group_config self config st
  | CombineFactory target parent => combine_factory target parent st
  end.

(** A bot (factory 0) and a plugin (factory 1), each with a message
    handler and a handler for the event "ready"; the plugin also handles
    "join" and the exception "Exception". *)
Definition bot_and_plugin : Store :=
  foldl exec empty_store
    [New; New;
     OnMessage 0%nat default_args 10%nat;
     OnEvent 0%nat ["ready"%string] 11%nat;
     OnMessage 1%nat default_args 20%nat;
     OnEvent 1%nat ["ready"%string; "join"%string] 21%nat;
     OnException 1%nat ["Exception"%string] 22%nat].

(** A factory as [__init__] leaves it. *)
Definition fresh_factory : BotHandlerFactory :=
  mkFactory 0%nat ∅ [] 1%nat [] 2%nat 3%nat 4%nat.

(** A predicate of a descriptor is active when it is set. *)
Definition keywords_active (h : MessageHandlerItem) : bool :=
  if keywords h is Some _ then true else false.
Definition verify_active (h : MessageHandlerItem) : bool :=
  if custom_verify h is Some _ then true else false.
Definition exactly_one_active (h : MessageHandlerItem) : Prop :=
  xorb (keywords_active h) (verify_active h) = true.

(** A second plugin (factory 2) beside the bot and the first one, with a
    message handler and a handler for "ready". *)
Definition bot_and_two_plugins : Store :=
  foldl exec bot_and_plugin
    [New;
     OnMessage 2%nat default_args 30%nat;
     OnEvent 2%nat ["ready"%string] 31%nat].

(** What registering [func] under the names [names] adds under the key
    [k]: [func] once for each time [k] is named. *)
Definition times (func : callable) (names : list string) (k : string) : list entry :=
  replicate (count_occ String.string_dec names k) (Callback func).

(** ** The module that [load_plugin] imports (lines 163-174)

    Strings are sequences of characters; [os.path] is [posixpath]. *)

Import Stdlib.Strings.Ascii.

(** [c in chars] *)
Fixpoint in_chars (chars : string) (c : ascii) : bool :=
  match chars with
  | EmptyString => false
  | String c' rest => Ascii.eqb c c' || in_chars rest c
  end.

(** [s.lstrip(chars)], [s.rstrip(chars)] and [s.strip(chars)]: [chars]
    is a set of characters, each of which is removed from the end(s) of
    [s] for as long as one is found there. *)
Fixpoint lstrip (chars s : string) : string :=
  match s with
  | EmptyString => EmptyString
  | String c rest => if in_chars chars c then lstrip chars rest else s
  end.

Fixpoint rstrip (chars s : string) : string :=
  match s with
  | EmptyString => EmptyString
  | String c rest =>
      match rstrip chars rest with
      | EmptyString => if in_chars chars c then EmptyString else String c EmptyString
      | kept => String c kept
      end
  end.

Definition strip (chars s : string) : string := rstrip chars (lstrip chars s).

(** [s.endswith(suffix)] *)
Fixpoint endswith (s suffix : string) : bool :=
  String.eqb s suffix
  || match s with
     | EmptyString => false
     | String _ rest => endswith rest suffix
     end.

(** ['/' in s] *)
Fixpoint has_slash (s : string) : bool :=
  match s with
  | EmptyString => false
  | String c rest => Ascii.eqb c "/"%char || has_slash rest
  end.

(** [os.path.basename(s)], which is [s.split('/')[-1]]: what follows the
    last '/'. *)
Fixpoint basename (s : string) : string :=
  match s with
  | EmptyString => EmptyString
  | String c rest =>
      if has_slash rest then basename rest
      else if Ascii.eqb c "/"%char then rest else s
  end.

(** [s.replace('\\', '/')] *)
Fixpoint replace_backslash (s : string) : string :=
  match s with
  | EmptyString => EmptyString
  | String c rest =>
      String (if Ascii.eqb c "\"%char then "/"%char else c) (replace_backslash rest)
  end.

(** What [load_plugin] asks the import machinery for. *)
Inductive module_source : Type :=
| ImportModule (name : string)   (* importlib.import_module(name) *)
| ZipImporter (path : string).   (* zipimport.zipimporter(path).load_module('__init__') *)

(** The [if]/[elif] chain of [load_plugin]; [isdir] is the answer of
    [os.path.isdir(path)], and [None] is the [else: return None]. *)
Definition load_plugin_module (isdir : bool) (path : string) : option module_source :=
  if isdir then Some (ImportModule (basename (replace_backslash path)))
  else if endswith path ".py" then Some (ImportModule (strip ".py" (basename path)))
  else if endswith path ".zip" then Some (ZipImporter path)
  else None.

(** The first, and the last, character of [s] is one of [chars]. *)
Definition starts_in (chars s : string) : bool :=
  match s with
  | EmptyString => false
  | String c _ => in_chars chars c
  end.

Fixpoint ends_in (chars s : string) : bool :=
  match s with
  | EmptyString => false
  | String c EmptyString => in_chars chars c
  | String _ rest => ends_in chars rest
  end.

(** A call other than [combine_factory]. *)
Definition registration (c : call) : bool :=
  match c with
  | CombineFactory _ _ => false
  | _ => true
  end.

End Handler.

(* ===================================================================== *)
(** * The Tencent adapter ([adapters/tencent/package.py]) *)
(* ===================================================================== *)

Module Tencent.
Import Py.
Open Scope res_scope.

(** Modelled from the spec: [Message] and [Event] are declared in
    [amiyabot/builtin/message.py], outside [src/].  Section 3 gives the
    canonical message its identity, content and flag fields; the fields
    below are those and the ones [get_info] assigns.  A new [Message] has
    empty sequences and cleared flags.  An [Event] wraps the event name and
    the raw payload. *)
Record Message := mkMessage {
  message_id : json;
  user_id : json;
  guild_id : json;
  src_guild_id : json;
  channel_id : json;
  nickname : json;
  avatar : json;
  is_direct : json;
  is_admin : bool;
  is_at : bool;
  image : list string;
  face : list string;
  at_target : list json;
  text : string
}.

Record Event := mkEvent {
  event_name : string;
  event_data : json
}.

Definition new_Message : Message :=
  mkMessage JNull JNull JNull JNull JNull JNull JNull (JBool false)
            false false [] [] [] "".

(** What [package_tencent_message] returns: a [Message], an [Event] or
    [None]. *)
Inductive packaged : Type :=
| Msg (data : Message)
| Evt (e : Event)
| Nothing.

(** [instance]: the three requests the function awaits, each with the
    answer the platform gives. *)
Record TencentAPI := mkAPI {
  get_me : result json;
  get_channel : json → result json;
  get_message : json → json → result json
}.

Definition ADMIN : list string := ["2"; "4"; "5"].

Definition message_created : list string :=
  ["MESSAGE_CREATE"; "AT_MESSAGE_CREATE"; "DIRECT_MESSAGE_CREATE"].

(** [k in l] for a list of strings. *)
Definition in_list (k : string) (l : list string) : bool :=
  existsb (String.eqb k) l.

(** [get_info] *)
Definition get_info (obj : Message) (message : json) : result Message :=
  author <- getitem message "author" ;;
  message_id <- getitem message "id" ;;
  user_id <- getitem author "id" ;;
  guild_id <- getitem message "guild_id" ;;
  has_src <- contains "src_guild_id" message ;;
  src_guild_id <- (if has_src : bool then getitem message "src_guild_id"
                   else getitem message "guild_id") ;;
  channel_id <- getitem message "channel_id" ;;
  nickname <- getitem author "username" ;;
  has_avatar <- contains "avatar" author ;;
  avatar <- (if has_avatar : bool then getitem author "avatar" else Ret JNull) ;;
  Ret (mkMessage message_id user_id guild_id src_guild_id channel_id nickname
                 avatar (is_direct obj) (is_admin obj) (is_at obj) (image obj)
                 (face obj) (at_target obj) (text obj)).

Definition set_is_direct (v : json) (m : Message) :=
  mkMessage (message_id m) (user_id m) (guild_id m) (src_guild_id m)
            (channel_id m) (nickname m) (avatar m) v (is_admin m) (is_at m)
            (image m) (face m) (at_target m) (text m).
Definition set_is_admin (v : bool) (m : Message) :=
  mkMessage (message_id m) (user_id m) (guild_id m) (src_guild_id m)
            (channel_id m) (nickname m) (avatar m) (is_direct m) v (is_at m)
            (image m) (face m) (at_target m) (text m).
Definition set_is_at (v : bool) (m : Message) :=
  mkMessage (message_id m) (user_id m) (guild_id m) (src_guild_id m)
            (channel_id m) (nickname m) (avatar m) (is_direct m) (is_admin m) v
            (image m) (face m) (at_target m) (text m).
Definition set_image (v : list string) (m : Message) :=
  mkMessage (message_id m) (user_id m) (guild_id m) (src_guild_id m)
            (channel_id m) (nickname m) (avatar m) (is_direct m) (is_admin m)
            (is_at m) v (face m) (at_target m) (text m).
Definition set_face (v : list string) (m : Message) :=
  mkMessage (message_id m) (user_id m) (guild_id m) (src_guild_id m)
            (channel_id m) (nickname m) (avatar m) (is_direct m) (is_admin m)
            (is_at m) (image m) v (at_target m) (text m).
Definition set_at_target (v : list json) (m : Message) :=
  mkMessage (message_id m) (user_id m) (guild_id m) (src_guild_id m)
            (channel_id m) (nickname m) (avatar m) (is_direct m) (is_admin m)
            (is_at m) (image m) (face m) v (text m).

Section Package.

(** The text helpers are the platform-specific field extraction that the
    specification leaves outside: [text_convert] from [adapters/common],
    and the string operations [str.format], [str.replace], [re.findall]
    and [str.strip] on the message text. *)
Variable text_convert : Message → string → json → Message.
Variable format_mention : json → string.        (* '<@!{id}>'.format(id=...) *)
Variable remove_all : string → string → string. (* text.replace(old, '') *)
Variable findall_emoji : string → list string.  (* re.findall(r'<emoji:(\d+)>', text) *)
Variable strip : string → string.               (* text.strip() *)

(** ['http://' + item['url']] for every attachment. *)
Fixpoint add_attachments (items : list json) (data : Message) : result Message :=
  match items with
  | [] => Ret data
  | item :: rest =>
      url <- getitem item "url" ;;
      match url with
      | JStr u => add_attachments rest (set_image (image data ++ ["http://" +:+ u]) data)
      | _ => Raise TypeError
      end
  end.

(** The loop over [message['mentions']]; [text] is rebound on the way. *)
Fixpoint strip_mentions (bot : json) (users : list json) (text : json)
    (data : Message) : result (json * Message) :=
  match users with
  | [] => Ret (text, data)
  | user :: rest =>
      match text with
      | JStr body =>
          id <- getitem user "id" ;;
          let text := JStr (remove_all body (format_mention id)) in
          is_me <- (if truthy bot then
                      uid <- getitem user "id" ;;
                      bid <- getitem bot "id" ;;
                      Ret (py_eq uid bid)
                    else Ret false) ;;
          if is_me : bool then strip_mentions bot rest text (set_is_at true data)
          else
            user_bot <- getitem user "bot" ;;
            if truthy user_bot then strip_mentions bot rest text data
            else
              uid <- getitem user "id" ;;
              strip_mentions bot rest text
                (set_at_target (at_target data ++ [uid]) data)
      | _ => Raise AttributeError
      end
  end.

(** [if 'content' in message: ...] *)
Definition read_content (bot : json) (message : json) (data : Message)
  : result Message :=
  has_content <- contains "content" message ;;
  if has_content : bool then
    text <- getitem message "content" ;;
    has_mentions <- contains "mentions" message ;;
    mentions <- (if has_mentions : bool then getitem message "mentions"
                 else Ret JNull) ;;
    td <- (if truthy mentions then
             users <- iter mentions ;;
             strip_mentions bot users text data
           else Ret (text, data)) ;;
    match td.1 with
    | JStr body =>
        let data := set_face (face td.2 ++ findall_emoji body) td.2 in
        content <- getitem message "content" ;;
        Ret (text_convert data (strip body) content)
    | _ => Raise TypeError
    end
  else Ret data.

(** [if 'member' in message: ...] *)
Definition read_member (message : json) (data : Message) : result Message :=
  has_member <- contains "member" message ;;
  if has_member : bool then
    member <- getitem message "member" ;;
    has_roles <- contains "roles" member ;;
    if has_roles : bool then
      member <- getitem message "member" ;;
      roles <- getitem member "roles" ;;
      ns <- iter roles ;;
      if negb (Nat.eqb (length (filter (λ n, existsb (py_eq n) (map JStr ADMIN)) ns)) 0)
      then Ret (set_is_admin true data)
      else Ret data
    else Ret data
  else Ret data.

(** [if 'attachments' in message: ...] *)
Definition read_attachments (message : json) (data : Message) : result Message :=
  has_attachments <- contains "attachments" message ;;
  if has_attachments : bool then
    attachments <- getitem message "attachments" ;;
    items <- iter attachments ;;
    add_attachments items data
  else Ret data.

(** The test on line 14:
    ['bot' in message['author'] and message['author']['bot'] and not is_reference]. *)
Definition suppressed (message : json) (is_reference : bool) : result bool :=
  author <- getitem message "author" ;;
  has_bot <- contains "bot" author ;;
  if has_bot : bool then
    author <- getitem message "author" ;;
    flag <- getitem author "bot" ;;
    Ret (truthy flag && negb is_reference)
  else Ret false.

(** Lines 17-65: what is done with a message that is not suppressed.
    [recur] is the nested call on the quoted message (line 61). *)
Definition packaging (recur : json → result packaged) (instance : TencentAPI)
    (message : json) : result packaged :=
  data <- get_info new_Message message ;;
  has_direct <- contains "direct_message" message ;;
  direct <- (if has_direct : bool then getitem message "direct_message"
             else Ret (JBool false)) ;;
  let data := set_is_direct direct data in
  bot <- get_me instance ;;
  channel <- (if negb (truthy (is_direct data))
              then get_channel instance (channel_id data)
              else Ret (JBool true)) ;;
  if negb (truthy channel) then Ret Nothing
  else
    data <- read_member message data ;;
    data <- read_attachments message data ;;
    data <- read_content bot message data ;;
    has_reference <- contains "message_reference" message ;;
    if has_reference : bool then
      channel_id <- getitem message "channel_id" ;;
      ref <- getitem message "message_reference" ;;
      ref_id <- getitem ref "message_id" ;;
      reference <- get_message instance channel_id ref_id ;;
      if truthy reference then
        quoted <- getitem reference "message" ;;
        reference_data <- recur quoted ;;
        match reference_data with
        | Msg quoted_data =>
            Ret (Msg (set_image (image data ++ image quoted_data) data))
        | Evt _ => Raise AttributeError
        | Nothing => Ret (Msg data)
        end
      else Ret (Msg data)
    else Ret (Msg data).

(** [package_tencent_message].  [depth] is how many nested calls the
    interpreter still allows; a chain of quotations longer than that ends
    in [RecursionError].  (The nested call is made with the same event
    name, so it never returns an [Event].) *)
Fixpoint package_tencent_message (depth : nat) (instance : TencentAPI)
    (event : string) (message : json) (is_reference : bool) : result packaged :=
  if in_list event message_created then
    stop <- suppressed message is_reference ;;
    if stop : bool then Ret Nothing
    else
      packaging
        (λ quoted,
           match depth with
           | O => Raise RecursionError
           | S depth' =>
               package_tencent_message depth' instance event quoted true
           end)
        instance message
  else Ret (Evt (mkEvent event message)).

(** The nested call, as [packaging] is handed it. *)
Definition nested (depth : nat) (instance : TencentAPI) (event : string)
    (quoted : json) : result packaged :=
  match depth with
  | O => Raise RecursionError
  | S depth' => package_tencent_message depth' instance event quoted true
  end.

End Package.


(** ** Payloads used as examples *)

(** A message written by a bot account in a direct conversation. *)
Definition bot_message : json :=
  JObj [("id", JStr "m1");
        ("author", JObj [("id", JStr "u1"); ("username", JStr "helper");
                         ("bot", JBool true)]);
        ("guild_id", JStr "g1"); ("channel_id", JStr "c1");
        ("direct_message", JBool true)].

(** A platform on which every request succeeds. *)
Definition friendly : TencentAPI :=
  mkAPI (Ret (JObj [("id", JStr "me")]))
        (λ _, Ret (JObj [("id", JStr "c1")]))
        (λ _ _, Ret JNull).

(** ** Notions and payloads for the properties of the parts *)

(** A role that is one of the strings of [ADMIN]. *)
Definition admin_role (n : json) : bool :=
  match n with
  | JStr r => in_list r ADMIN
  | _ => false
  end.

(** The payload without its ['message_reference'] entry. *)
Definition without_reference (message : json) : json :=
  match message with
  | JObj fields =>
      JObj (filter (λ kv, negb (String.eqb kv.1 "message_reference")) fields)
  | _ => message
  end.

(** A member with an administrator role posts a picture, mentions the
    bot and a user, and quotes an earlier message. *)
Definition photo_message : json :=
  JObj [("id", JStr "m2");
        ("author", JObj [("id", JStr "u2"); ("username", JStr "doctor")]);
        ("guild_id", JStr "g1"); ("channel_id", JStr "c1");
        ("member", JObj [("roles", JArr [JStr "11"; JStr "4"])]);
        ("attachments", JArr [JObj [("url", JStr "cdn/a.png")]]);
        ("content", JStr "look");
        ("mentions", JArr [JObj [("id", JStr "me"); ("bot", JBool true)];
                           JObj [("id", JStr "u3"); ("bot", JBool false)]]);
        ("message_reference", JObj [("message_id", JStr "m1")])].

(** The quoted message, written by a bot account, with a picture. *)
Definition quoted_message : json :=
  JObj [("id", JStr "m1");
        ("author", JObj [("id", JStr "u1"); ("username", JStr "helper");
                         ("bot", JBool true)]);
        ("guild_id", JStr "g1"); ("channel_id", JStr "c1");
        ("attachments", JArr [JObj [("url", JStr "cdn/b.png")]])].

(** A platform that knows the quoted message. *)
Definition quoting : TencentAPI :=
  mkAPI (Ret (JObj [("id", JStr "me")]))
        (λ _, Ret (JObj [("id", JStr "c1")]))
        (λ _ _, Ret (JObj [("message", quoted_message)])).

(** A platform that does not return the channel. *)
Definition no_channel : TencentAPI :=
  mkAPI (Ret (JObj [("id", JStr "me")])) (λ _, Ret JNull) (λ _ _, Ret JNull).

(** A mentioned account is the bot itself: [bot and user['id'] == bot['id']]. *)
Definition mentions_self (bot user : json) : bool :=
  truthy bot
  && match getitem user "id", getitem bot "id" with
     | Ret uid, Ret bid => py_eq uid bid
     | _, _ => false
     end.

(** A mentioned account is marked as a bot: [user['bot']] is truthy. *)
Definition bot_account (user : json) : bool :=
  match getitem user "bot" with
  | Ret flag => truthy flag
  | Raise _ => false
  end.

(** The ids of the mentioned accounts that are neither the bot itself nor
    marked as bots, in the order of the payload. *)
Definition targets (bot : json) (users : list json) : list json :=
  omap (λ user,
          if mentions_self bot user || bot_account user then None
          else match getitem user "id" with
               | Ret uid => Some uid
               | Raise _ => None
               end) users.

End Tencent.

(* ===================================================================== *)
(** * The gateway session: sequence numbers, resume, heartbeat, role cache *)
(* ===================================================================== *)

Module KookProofs.
Import Py Kook.

Ltac unfold_M :=
  cbv [on_payload heartbeat_interval wait_heartbeat close d_get
       close_connection send create_task bind ret raise get modify lift when];
  simpl.

Ltac by_opcode op :=
  destruct (Z.eqb_spec op 0) as [->|?];
  [| destruct (Z.eqb_spec op 1) as [->|?];
     [| destruct (Z.eqb_spec op 3) as [->|?];
        [| destruct (Z.eqb_spec op 5) as [->|?];
           [| destruct (Z.eqb_spec op 6) as [->|?] ]]]];
  simpl.

Ltac crunch :=
  repeat (case_match; simpl in *; simplify_eq); simpl in *.

(** What one frame can do to the object. *)
Lemma on_payload_effect (payload : WSPayload) (self : KOOKBotInstance) :
  let self' := (on_payload payload self).2 in
  keep_run self' = keep_run self
  ∧ pong self' = (if s payload =? 3 then 1 else pong self)
  ∧ (connection self' = connection self ∨ connection self' = None)
  ∧ (∃ new, tasks self' = tasks self ++ new)
  ∧ (sent self' = sent self
     ∨ ∃ ws n, sent self' = sent self ++ [(ws, resume_request n)]).
Proof.
  destruct payload as [op dd sn0 ex]. unfold_M. by_opcode op.
  all: crunch.
  all: repeat split; eauto using app_nil_r.
  all: try (by eexists []; rewrite app_nil_r).
  all: try (by eexists [_]).
  all: try (by eexists [_;_]).
Qed.

Lemma on_payload_keep_run payload self :
  keep_run (on_payload payload self).2 = keep_run self.
Proof. apply on_payload_effect. Qed.


(** [close_connection] *)
Lemma close_connection_effect self :
  let self' := (close_connection self).2 in
  connection self' = None
  ∧ keep_run self' = keep_run self
  ∧ pong self' = pong self
  ∧ last_sn self' = last_sn self
  ∧ ws_url self' = ws_url self
  ∧ tasks self' = tasks self
  ∧ sent self' = sent self
  ∧ closed self' = closed self ++ (if connection self is Some ws then [ws] else []).
Proof. unfold_M. destruct (connection self); simpl; by rewrite ?app_nil_r. Qed.





Lemma heartbeat_interval_effect pc self :
  let out := heartbeat_interval pc self in
  keep_run out.2 = keep_run self
  ∧ pong out.2 = pong self
  ∧ connection out.2 = connection self
  ∧ last_sn out.2 = last_sn self
  ∧ ws_url out.2 = ws_url self
  ∧ closed out.2 = closed self
  ∧ (∃ new, tasks out.2 = tasks self ++ new)
  ∧ (sent out.2 = sent self
     ∨ ∃ ws, connection self = Some ws
             ∧ sent out.2 = sent self ++ [(ws, heartbeat (last_sn self))]).
Proof.
  unfold_M. destruct pc as [sec|]; simpl.
  - destruct (sec + 1 >=? 30); simpl.
    + destruct (connection self) eqn:Hc; simpl.
      * repeat split; eauto.
      * repeat split; eauto. by exists []; rewrite app_nil_r.
    + repeat split; eauto. by exists []; rewrite app_nil_r.
  - repeat split; eauto. by exists []; rewrite app_nil_r.
Qed.

Lemma wait_heartbeat_effect pc self :
  let out := wait_heartbeat pc self in
  keep_run out.2 = keep_run self
  ∧ (connection out.2 = connection self ∨ connection out.2 = None)
  ∧ last_sn out.2 = last_sn self
  ∧ ws_url out.2 = ws_url self
  ∧ tasks out.2 = tasks self
  ∧ sent out.2 = sent self
  ∧ (pong out.2 = pong self ∨ (pong out.2 = 0 ∧ out.1 = Ret Finished)).
Proof.
  unfold_M. destruct pc as [sec|]; simpl.
  - destruct (sec + 1 >=? 30); simpl.
    + destruct (connection self) eqn:Hc; simpl; rewrite ?andb_false_r; simpl;
        repeat split; eauto.
      all: destruct (_ && _); simpl; eauto.
    + destruct (_ && _); simpl; repeat split; eauto.
  - destruct (_ && _); simpl; repeat split; eauto.
Qed.

Lemma resume_effect i self self' :
  resume i self = Some self' →
  keep_run self' = keep_run self
  ∧ (connection self' = connection self ∨ connection self' = None)
  ∧ last_sn self' = last_sn self
  ∧ ws_url self' = ws_url self.
Proof.
  unfold resume. intros H.
  destruct (tasks self !! i) as [[ | pc | pc | | ]|]; simplify_eq; simpl.
  - eauto.
  - destruct (heartbeat_interval_effect pc self) as (?&?&?&?&?&?). unfold settle. simpl.
    repeat split; eauto.
  - destruct (wait_heartbeat_effect pc self) as (?&?&?&?&?). unfold settle. simpl.
    repeat split; eauto.
Qed.





(** Which steps write [pong] and which write to a socket. *)
Lemma step_pong_sent st ev st' :
  step st ev = Some st' →
  match ev with
  | Recv (Frame payload) =>
      pong (bot st') = (if s payload =? 3 then 1 else pong (bot st))
      ∧ (sent (bot st') = sent (bot st)
         ∨ ∃ ws n, sent (bot st') = sent (bot st) ++ [(ws, resume_request n)])
  | Resume i =>
      (∃ pc, tasks (bot st) !! i = Some (WaitHeartbeat pc)
             ∧ sent (bot st') = sent (bot st)
             ∧ (pong (bot st') = pong (bot st)
                ∨ (pong (bot st') = 0 ∧ tasks (bot st') !! i = Some Finished)))
      ∨ (pong (bot st') = pong (bot st)
         ∧ (sent (bot st') = sent (bot st)
            ∨ ∃ ws n, sent (bot st') = sent (bot st) ++ [(ws, heartbeat n)]))
  | _ => pong (bot st') = pong (bot st) ∧ sent (bot st') = sent (bot st)
  end.
Proof.
  intros Hstep. destruct st as [pc self].
  assert (∀ self', pong (close_connection self').2 = pong self'
                   ∧ sent (close_connection self').2 = sent self') as Hcl.
  { intros self'. destruct (close_connection_effect self') as (_&_&?&_&_&_&?&_). done. }
  destruct ev as [r|w|r| |i|]; simpl in Hstep.
  - destruct pc; simplify_eq.
    + unfold connect_me, while_keep_run, enter__connect. by repeat case_match.
    + unfold connect_gateway, escape. repeat case_match; simpl; try done; apply Hcl.
  - destruct pc; simplify_eq. unfold connect_opened, read_loop, leave.
    repeat case_match; simpl; try done; apply Hcl.
  - destruct pc; simplify_eq. unfold connect_recv, read_loop, leave.
    destruct r as [payload| |]; simpl; try apply Hcl.
    destruct (on_payload_effect payload self) as (_ & Hp & _ & _ & Hs).
    destruct (on_payload payload self) as [[?|?] self'] eqn:E; simpl in *.
    + destruct (__still_alive self'); simpl; [done|]. by destruct (Hcl self') as [-> ->].
    + by destruct (Hcl self') as [-> ->].
  - destruct pc; simplify_eq.
    unfold while_keep_run, enter__connect. by repeat case_match.
  - destruct (resume i self) as [self'|] eqn:E; simpl in Hstep; simplify_eq.
    simpl. unfold resume in E.
    destruct (tasks self !! i) as [[ | pc' | pc' | | ]|] eqn:Hi; simplify_eq;
      unfold settle; simpl.
    + right. eauto.
    + right. destruct (heartbeat_interval_effect pc' self) as (_&?&_&_&_&_&_&[?|(ws&_&?)]);
        eauto.
    + left. exists pc'. split; [done|].
      destruct (wait_heartbeat_effect pc' self) as (_&_&_&_&Ht&?&Hp).
      split; [done|]. destruct Hp as [?|[? Hfin]]; [by left|right].
      split; [done|]. rewrite Hfin. apply list_lookup_insert_eq.
      rewrite Ht. by eapply lookup_lt_Some.
  - simplify_eq. simpl. unfold_M. by destruct (connection self).
Qed.

(* ------------------------------------------------------------------- *)
(** ** C1 *)

(** C1, as stated, fails: a rejected handshake that carries [sn = 7]
    leaves [last_sn] at 0, not at 7. *)
Lemma last_sn_not_overwritten_by_rejected_handshake :
  sn rejected_handshake_7 = Some 7
  ∧ last_sn (on_payload rejected_handshake_7 __init__).2 ≠ 7.
Proof. split; [reflexivity|]. vm_compute. discriminate. Qed.

(** C1 (amended): after a frame whose [sn] is not null has been
    processed, whether the processing returned or raised, [last_sn] is that
    frame's [sn], whatever the opcode; the one exception is a rejected
    handshake (opcode 1 with a non-zero code), after which [last_sn] is
    0.  This holds at the end of the loop body and still holds when the
    read loop has gone on to its next [recv()] or has left the
    connection. *)
Theorem last_sn_after_payload (self : KOOKBotInstance) (payload : WSPayload)
    (n : Z) (ws : sock) :
  sn payload = Some n →
  last_sn (on_payload payload self).2
  = (if handshake_rejected payload then 0 else n)
  ∧ last_sn (bot (connect_recv ws (Frame payload) self))
    = (if handshake_rejected payload then 0 else n).
Proof.
  intros Hsn.
  assert (last_sn (on_payload payload self).2
          = if handshake_rejected payload then 0 else n) as H.
  { unfold handshake_rejected.
    destruct payload as [op dd sn0 ex]; simpl in *; subst sn0.
    unfold_M. by_opcode op.
    all: crunch; try done; lia. }
  split; [done|].
  assert (∀ b, last_sn (close_connection b).2 = last_sn b) as Hcl.
  { intros b. apply close_connection_effect. }
  unfold connect_recv, read_loop, leave.
  destruct (on_payload payload self) as [[[]|e] self']; cbn [fst snd] in H.
  - destruct (__still_alive self'); cbn [bot]; by rewrite ?Hcl.
  - cbn [bot]. by rewrite Hcl.
Qed.

Lemma last_sn_after_payload_witness :
  last_sn (on_payload (mkWSPayload 0 (Some []) (Some 42) None) __init__).2 = 42
  ∧ last_sn (bot (connect_recv 1%nat
                    (Frame (mkWSPayload 0 (Some []) (Some 42) None)) __init__))
    = 42.
Proof.
  apply (last_sn_after_payload __init__ (mkWSPayload 0 (Some []) (Some 42) None)
           42 1%nat).
  reflexivity.
Defined.

(* ------------------------------------------------------------------- *)
(** ** C5 *)

(** C5, as stated, fails: in the ordinary acknowledged heartbeat the flag
    goes from "not pending" back to "pending" when the watchdog ends, a
    step in which nothing is sent. *)
Lemma ack_pending_raised_by_watchdog_exit :
  ∃ st st',
    run boot acknowledged_heartbeat = Some st
    ∧ step st (Resume 1) = Some st'
    ∧ ack_pending (bot st) = false
    ∧ ack_pending (bot st') = true
    ∧ sent (bot st') = sent (bot st).
Proof. do 2 eexists. vm_compute. repeat split. Qed.

(** C5 (amended): [pong] is written in two places only.  The flag goes
    from "not pending" to "pending" ([pong] back to 0) only in the step in
    which a [wait_heartbeat] task ends, and that step sends nothing; it
    goes from "pending" to "not pending" only when the read loop receives
    an acknowledgment frame (opcode 3); a step that sends a heartbeat
    leaves [pong] as it is. *)
Theorem ack_pending_transitions (st st' : System) (ev : event) :
  step st ev = Some st' →
  (ack_pending (bot st) = false → ack_pending (bot st') = true →
     ∃ i pc, ev = Resume i
             ∧ tasks (bot st) !! i = Some (WaitHeartbeat pc)
             ∧ tasks (bot st') !! i = Some Finished
             ∧ sent (bot st') = sent (bot st))
  ∧ (ack_pending (bot st) = true → ack_pending (bot st') = false →
       ∃ payload, ev = Recv (Frame payload) ∧ s payload = 3)
  ∧ (∀ ws n, sent (bot st') = sent (bot st) ++ [(ws, heartbeat n)] →
       pong (bot st') = pong (bot st)).
Proof.
  intros Hstep. pose proof (step_pong_sent _ _ _ Hstep) as H.
  unfold ack_pending.
  assert (∀ (l : list (sock * WSPayload)) x, l = l ++ [x] → False) as Hnil.
  { intros l x Hl. apply (f_equal length) in Hl. rewrite length_app in Hl.
    simpl in Hl. lia. }
  assert (pong (bot st') = pong (bot st) ∧ sent (bot st') = sent (bot st) →
          ((pong (bot st) =? 0) = false → (pong (bot st') =? 0) = true →
             ∃ i pc, ev = Resume i
                     ∧ tasks (bot st) !! i = Some (WaitHeartbeat pc)
                     ∧ tasks (bot st') !! i = Some Finished
                     ∧ sent (bot st') = sent (bot st))
          ∧ ((pong (bot st) =? 0) = true → (pong (bot st') =? 0) = false →
               ∃ payload, ev = Recv (Frame payload) ∧ s payload = 3)
          ∧ (∀ ws n, sent (bot st') = sent (bot st) ++ [(ws, heartbeat n)] →
               pong (bot st') = pong (bot st))) as Hquiet.
  { intros [Hp Hs]. rewrite Hp. split; [|split].
    - intros H0 H1. congruence.
    - intros H0 H1. congruence.
    - intros ws n Hn. rewrite Hs in Hn. by apply Hnil in Hn. }
  destruct ev as [r|w|r| |i|]; try by apply Hquiet.
  - destruct r as [payload| |]; try by apply Hquiet.
    destruct H as [Hp Hs]. rewrite Hp.
    destruct (Z.eqb_spec (s payload) 3) as [E|E]; (split; [|split]).
    + intros; lia.
    + intros. by exists payload.
    + intros ws n Hn. destruct Hs as [Hs|(ws'&n'&Hs)]; rewrite Hs in Hn.
      * by apply Hnil in Hn.
      * apply app_inj_tail in Hn as [_ Hn]. discriminate.
    + intros; congruence.
    + intros; congruence.
    + done.
  - destruct H as [(pc&Hi&Hs&Hp)|[Hp Hs]].
    + split; [|split].
      * intros H0 H1. destruct Hp as [Hp|[Hp Hfin]].
        -- rewrite Hp in H1. congruence.
        -- by exists i, pc.
      * intros H0 H1. destruct Hp as [Hp|[Hp Hfin]].
        -- rewrite Hp in H1. congruence.
        -- rewrite Hp in H1. done.
      * intros ws n Hn. rewrite Hs in Hn. by apply Hnil in Hn.
    + rewrite Hp. split; [|split]; intros; congruence.
Qed.

Lemma ack_pending_transitions_witness :
  ∃ payload, Recv (Frame (mkWSPayload 3 None None None)) = Recv (Frame payload)
             ∧ s payload = 3.
Proof.
  refine (proj1 (proj2 (ack_pending_transitions
            (mkSystem (AwaitRecv 1%nat) (set_connection (Some 1%nat) __init__))
            _ (Recv (Frame (mkWSPayload 3 None None None))) _)) _ _);
    reflexivity.
Defined.

(* ------------------------------------------------------------------- *)
(** ** C2 *)

Lemma on_payload_accepted payload self ws :
  handshake_accepted payload = true →
  connection self = Some ws →
  ∃ sid, on_payload payload self = (Ret tt, greeted sid ws self).
Proof.
  unfold handshake_accepted. intros H Hc.
  destruct payload as [op dd sn0 ex]; simpl in *.
  apply andb_prop in H as [H Hd]. apply andb_prop in H as [Hop Hsn].
  apply Z.eqb_eq in Hop as ->. apply bool_decide_eq_true in Hsn as ->.
  destruct dd as [fields|]; [|done].
  destruct (assoc "code" fields) as [code|] eqn:Hcode; [|done].
  destruct (assoc "session_id" fields) as [sid|] eqn:Hsid; [|done].
  exists sid. unfold greeted. unfold_M. rewrite Hcode, Hsid, Hd. simpl.
  destruct (last_sn self =? 0) eqn:E; simpl; [done|].
  rewrite Hc. simpl. by destruct self.
Qed.

Lemma still_alive_attach ws self :
  __still_alive (set_connection (Some ws) self) = keep_run self.
Proof. unfold __still_alive. cbn. apply andb_true_r. Qed.

Lemma still_alive_greeted sid ws self :
  __still_alive (greeted sid ws self) = __still_alive self.
Proof. unfold greeted, __still_alive. by destruct (last_sn self =? 0). Qed.

Lemma sent_greeted sid ws self :
  sent (greeted sid ws self)
  = if last_sn self =? 0 then sent self
    else sent self ++ [(ws, resume_request (last_sn self))].
Proof. unfold greeted. by destruct (last_sn self =? 0). Qed.

Lemma last_sn_greeted sid ws self :
  last_sn (greeted sid ws self) = last_sn self.
Proof. unfold greeted. by destruct (last_sn self =? 0). Qed.

Lemma on_payload_invalidating payload self :
  invalidating payload = true →
  let out := on_payload payload self in
  last_sn out.2 = 0
  ∧ ws_url out.2 = JStr ""
  ∧ sent out.2 = sent self
  ∧ (out.1 = Raise ManualCloseException ∨ connection out.2 = None).
Proof.
  unfold invalidating, handshake_rejected. intros H.
  destruct payload as [op dd sn0 ex]; simpl in *.
  apply orb_prop in H as [H|H].
  - apply andb_prop in H as [Hop Hd]. apply Z.eqb_eq in Hop as ->.
    destruct dd as [fields|]; [|done].
    destruct (assoc "code" fields) as [code|] eqn:Hcode; [|done].
    unfold_M. rewrite Hcode. simpl. rewrite Hd. simpl.
    destruct sn0; simpl; eauto 10.
  - apply andb_prop in H as [Hop Hsn].
    apply Z.eqb_eq in Hop as ->. apply bool_decide_eq_true in Hsn as ->.
    unfold_M. destruct (connection self); simpl; eauto 10.
Qed.

(** C2, as stated, fails: with [last_sn = 42] held when the server asks
    for a reconnect, the connection is re-established and the handshake
    succeeds, and no resume request is written at all; [last_sn] is 0. *)
Lemma no_resume_after_invalidation :
  ∃ st st',
    run boot session_at_42 = Some st
    ∧ last_sn (bot st) = 42
    ∧ run st invalidate_and_reconnect = Some st'
    ∧ main st' = AwaitRecv 2%nat
    ∧ sent (bot st') = []
    ∧ last_sn (bot st') = 0.
Proof. do 2 eexists. vm_compute. repeat split. Qed.

(** C2 (amended): when the previous connection was lost without being
    invalidated ([recv] failed or the frame could not be decoded) while a
    non-zero [last_sn] was held, then after the sleep, on the new socket,
    a successful handshake that carries no [sn] is answered with exactly
    one frame, the resume request (opcode 4) carrying the held value.
    When the previous connection ended in an invalidation (a rejected
    handshake, or a reconnect request without [sn]), [last_sn] is reset to
    0 and the next successful handshake is answered with no frame. *)
Theorem resume_request_after_reconnect :
  (∀ (st : System) (ws ws' : sock) (r : recv_result) (greeting : WSPayload),
     main st = AwaitRecv ws →
     keep_run (bot st) = true →
     truthy (ws_url (bot st)) = true →
     last_sn (bot st) ≠ 0 →
     r = Dropped ∨ r = Malformed →
     handshake_accepted greeting = true →
     ∃ st',
       run st [Recv r; Wake; Opened (Some ws'); Recv (Frame greeting)] = Some st'
       ∧ main st' = AwaitRecv ws'
       ∧ sent (bot st')
         = sent (bot st) ++ [(ws', resume_request (last_sn (bot st)))])
  ∧ (∀ (st : System) (ws ws' : sock) (payload greeting : WSPayload)
       (answer : option http_body) (url : json),
       main st = AwaitRecv ws →
       keep_run (bot st) = true →
       invalidating payload = true →
       gateway_url answer = Ret url →
       handshake_accepted greeting = true →
       ∃ st1 st',
         step st (Recv (Frame payload)) = Some st1
         ∧ main st1 = Backoff
         ∧ last_sn (bot st1) = 0
         ∧ run st1 [Wake; Http answer; Opened (Some ws'); Recv (Frame greeting)]
           = Some st'
         ∧ main st' = AwaitRecv ws'
         ∧ sent (bot st') = sent (bot st)
         ∧ last_sn (bot st') = 0).
Proof.
  split.
  - intros [pc self] ws ws' r greeting Hpc Hrun Hurl Hsn Hr Hok.
    cbn [main bot] in *. subst pc.
    assert (step (mkSystem (AwaitRecv ws) self) (Recv r) = Some (leave self)) as E1.
    { by destruct Hr as [-> | ->]. }
    unfold leave in E1.
    destruct (close_connection_effect self) as (Hc&Hk&_&Hl&Hu&_&Hs&_).
    cbn zeta in *. set (self1 := (close_connection self).2) in *. clearbody self1.
    assert (step (mkSystem Backoff self1) Wake = Some (mkSystem AwaitOpen self1)) as E2.
    { cbn [step main bot]. unfold while_keep_run, enter__connect.
      by rewrite Hk, Hrun, Hu, Hurl. }
    set (self2 := set_connection (Some ws') self1).
    assert (step (mkSystem AwaitOpen self1) (Opened (Some ws'))
            = Some (mkSystem (AwaitRecv ws') self2)) as E3.
    { cbn [step main bot connect_opened]. unfold read_loop.
      by rewrite still_alive_attach, Hk, Hrun. }
    destruct (on_payload_accepted greeting self2 ws' Hok eq_refl) as [sid E4].
    eexists. split.
    { cbn [run]. rewrite E1. cbn [run]. rewrite E2. cbn [run]. rewrite E3.
      cbn [run step main bot connect_recv]. rewrite E4.
      unfold read_loop. rewrite still_alive_greeted. subst self2.
      rewrite still_alive_attach, Hk, Hrun. reflexivity. }
    cbn [main bot]. split; [done|]. rewrite sent_greeted. subst self2.
    cbn. rewrite Hl, Hs. apply Z.eqb_neq in Hsn. by rewrite Hsn.
  - intros [pc self] ws ws' payload greeting answer url Hpc Hrun Hinv Hgw Hok.
    cbn [main bot] in *. subst pc.
    destruct (on_payload_invalidating payload self Hinv) as (Hl&Hu&Hs&Hout).
    cbn zeta in *.
    pose proof (on_payload_keep_run payload self) as Hk.
    assert (∃ self1, connect_recv ws (Frame payload) self = leave self1
                     ∧ last_sn self1 = 0 ∧ ws_url self1 = JStr ""
                     ∧ sent self1 = sent self ∧ keep_run self1 = true)
      as (self1 & E1 & Hl1 & Hu1 & Hs1 & Hk1).
    { unfold connect_recv. destruct (on_payload payload self) as [[[]|e] self1];
        cbn [fst snd] in *.
      - destruct Hout as [?|Hc]; [done|]. unfold read_loop, __still_alive.
        rewrite Hc. rewrite andb_false_r. exists self1. by rewrite Hk.
      - exists self1. by rewrite Hk. }
    unfold leave in E1.
    destruct (close_connection_effect self1) as (Hc&Hk2&_&Hl2&Hu2&_&Hs2&_).
    cbn zeta in *. set (self1' := (close_connection self1).2) in *. clearbody self1'.
    assert (step (mkSystem Backoff self1') Wake
            = Some (mkSystem AwaitGateway self1')) as E2.
    { cbn [step main bot]. unfold while_keep_run, enter__connect.
      by rewrite Hk2, Hk1, Hu2, Hu1. }
    set (self2 := set_ws_url url self1').
    assert (step (mkSystem AwaitGateway self1') (Http answer)
            = Some (mkSystem AwaitOpen self2)) as E3.
    { cbn [step main bot]. unfold connect_gateway. by rewrite Hgw. }
    set (self3 := set_connection (Some ws') self2).
    assert (step (mkSystem AwaitOpen self2) (Opened (Some ws'))
            = Some (mkSystem (AwaitRecv ws') self3)) as E4.
    { cbn [step main bot connect_opened]. unfold read_loop.
      rewrite still_alive_attach. subst self2. cbn. by rewrite Hk2, Hk1. }
    destruct (on_payload_accepted greeting self3 ws' Hok eq_refl) as [sid E5].
    exists (mkSystem Backoff self1'). eexists.
    split; [by rewrite <- E1|].
    split; [done|]. split; [cbn; congruence|]. split.
    { cbn [run]. rewrite E2. cbn [run]. rewrite E3. cbn [run]. rewrite E4.
      cbn [run step main bot connect_recv]. rewrite E5.
      unfold read_loop. rewrite still_alive_greeted. subst self3.
      rewrite still_alive_attach. subst self2. cbn. rewrite Hk2, Hk1. reflexivity. }
    cbn [main bot]. split; [done|]. rewrite sent_greeted, last_sn_greeted.
    subst self3 self2. cbn. rewrite Hl2, Hl1, Hs2, Hs1. done.
Qed.

Lemma resume_request_after_reconnect_witness :
  (∃ st',
     run (mkSystem (AwaitRecv 1%nat)
            (set_last_sn 42 (set_ws_url (JStr "wss://gateway")
               (set_connection (Some 1%nat) __init__))))
         [Recv Dropped; Wake; Opened (Some 2%nat); Recv (Frame hello)] = Some st'
     ∧ main st' = AwaitRecv 2%nat
     ∧ sent (bot st') = [(2%nat, resume_request 42)])
  ∧ (∃ st1 st',
       step (mkSystem (AwaitRecv 1%nat)
               (set_last_sn 42 (set_connection (Some 1%nat) __init__)))
            (Recv (Frame rejected_handshake_7)) = Some st1
       ∧ main st1 = Backoff
       ∧ last_sn (bot st1) = 0
       ∧ run st1 [Wake; Http gateway_response; Opened (Some 2%nat);
                  Recv (Frame hello)] = Some st'
       ∧ main st' = AwaitRecv 2%nat
       ∧ sent (bot st') = []
       ∧ last_sn (bot st') = 0).
Proof.
  split.
  - apply (proj1 resume_request_after_reconnect
             (mkSystem (AwaitRecv 1%nat)
                (set_last_sn 42 (set_ws_url (JStr "wss://gateway")
                   (set_connection (Some 1%nat) __init__))))
             1%nat 2%nat Dropped hello);
      first [reflexivity | discriminate | by left].
  - apply (proj2 resume_request_after_reconnect
             (mkSystem (AwaitRecv 1%nat)
                (set_last_sn 42 (set_connection (Some 1%nat) __init__)))
             1%nat 2%nat rejected_handshake_7 hello gateway_response
             (JStr "wss://gateway")); reflexivity.
Defined.

(* ------------------------------------------------------------------- *)
(** ** C4 *)







(* ------------------------------------------------------------------- *)
(** ** C8 *)

(** C8, as stated, fails in its last part: when the refetch is answered
    with an error envelope (a non-zero [code]), [__check_response] raises,
    the call ends there, and the stale roles of the guild are still in the
    cache. *)
Lemma stale_roles_kept_when_refetch_raises :
  record_role_list "g" error_answer stale_cache
  = (Raise ResponseException, stale_cache, [("/guild-role/list"%string, "g"%string)])
  ∧ guild_role stale_cache !! "g"%string = Some [(JInt 1, JInt 8)].
Proof. split; reflexivity. Qed.

(** C8 (amended): a call within 10 seconds of the recorded fetch time of
    the guild issues no request and leaves the cache as it is; a call for
    a guild with no recorded fetch, or 10 seconds or more after it, issues
    exactly one request.  If that request is answered by nothing usable (a
    falsy result), the guild's roles are deleted from the cache and the
    fetch time is recorded; if it raises (undecodable body, error
    envelope), the exception leaves the call and the cache is left as it
    was. *)
Theorem role_cache_refresh (guild_id : string) (env : outside)
    (cache : RolePermissionCache) :
  let out := record_role_list guild_id env cache in
  (∀ t, cache_create_time cache !! guild_id = Some t →
        (clock_at_test env - t < 10)%Q →
        out = (Ret tt, cache, []))
  ∧ (cache_create_time cache !! guild_id = None
     ∨ (∃ t, cache_create_time cache !! guild_id = Some t
             ∧ (10 <= clock_at_test env - t)%Q) →
     out.2 = [("/guild-role/list"%string, guild_id)]
     ∧ (∀ res, __check_response (response_text env) = Ret res →
               truthy res = false →
               out.1.1 = Ret tt
               ∧ guild_role out.1.2 !! guild_id = None
               ∧ cache_create_time out.1.2 !! guild_id = Some (clock_at_store env))
     ∧ (∀ e, __check_response (response_text env) = Raise e →
             out.1.1 = Raise e ∧ out.1.2 = cache)).
Proof.
  unfold record_role_list, fresh_at. split.
  - intros t Ht Hlt. rewrite Ht. destruct (Qlt_le_dec _ _) as [?|Hle]; [done|].
    exfalso. by eapply Qlt_not_le.
  - intros Hexp.
    assert (match cache_create_time cache !! guild_id with
            | Some t => if Qlt_le_dec (clock_at_test env - t) 10 then true else false
            | None => false
            end = false) as ->.
    { destruct Hexp as [->|(t & -> & Hle)]; [done|].
      destruct (Qlt_le_dec _ _) as [Hlt|?]; [|done].
      exfalso. by eapply Qlt_not_le. }
    destruct (__check_response (response_text env)) as [res|e].
    + destruct (truthy res) eqn:Hres.
      * destruct (rbind _ _); simpl; (split; [done|]); split; intros; congruence.
      * simpl. split; [done|]. split; [|intros; congruence].
        intros _ _ _. split; [done|].
        split; [apply lookup_delete_eq|apply lookup_insert_eq].
    + simpl. split; [done|]. split; intros; [congruence|]. by simplify_eq.
Qed.

Lemma role_cache_refresh_witness :
  record_role_list "g" early_call stale_cache = (Ret tt, stale_cache, [])
  ∧ (record_role_list "g" no_answer stale_cache).1.1 = Ret tt
  ∧ guild_role (record_role_list "g" no_answer stale_cache).1.2 !! "g"%string = None
  ∧ (record_role_list "g" error_answer stale_cache).1.2 = stale_cache.
Proof.
  split; [|split; [|split]].
  - apply (proj1 (role_cache_refresh "g" early_call stale_cache) 100%Q);
      reflexivity.
  - refine (proj1 (proj1 (proj2 (proj2 (role_cache_refresh "g" no_answer stale_cache)
              (or_intror (ex_intro _ 100%Q (conj eq_refl _)))))
              JNull eq_refl eq_refl)).
    by vm_compute.
  - refine (proj1 (proj2 (proj1 (proj2 (proj2 (role_cache_refresh "g" no_answer stale_cache)
              (or_intror (ex_intro _ 100%Q (conj eq_refl _)))))
              JNull eq_refl eq_refl))).
    by vm_compute.
  - refine (proj2 (proj2 (proj2 (proj2 (role_cache_refresh "g" error_answer stale_cache)
              (or_intror (ex_intro _ 100%Q (conj eq_refl _)))))
              ResponseException eq_refl)).
    by vm_compute.
Defined.

End KookProofs.

(* ===================================================================== *)
(** * The handler registry: composition and registration *)
(* ===================================================================== *)

Module HandlerProofs.
Import Py Handler.

(** ** Dicts as association lists *)

Lemma assoc_cons {A} (k k' : string) (v : A) l :
  assoc k ((k', v) :: l) = if String.eqb k k' then Some v else assoc k l.
Proof. done. Qed.

Lemma assoc_app {A} (k : string) (l1 l2 : list (string * A)) :
  assoc k (l1 ++ l2) = match assoc k l1 with Some v => Some v | None => assoc k l2 end.
Proof.
  induction l1 as [|[k' v] l1 IH]; [done|]. simpl.
  by destruct (String.eqb k k').
Qed.

Lemma assoc_None_keys {A} (k : string) (l : list (string * A)) :
  assoc k l = None ↔ k ∉ l.*1.
Proof.
  induction l as [|[k' v] l IH]; simpl.
  - split; [intros _; apply not_elem_of_nil|done].
  - destruct (String.eqb_spec k k') as [->|Hne].
    + split; [done|]. intros H. exfalso. apply H. left.
    + rewrite IH, not_elem_of_cons. tauto.
Qed.

(** ** Lists in the store *)

Lemma deref_insert h l x : deref (<[l := x]> h) l = x.
Proof. unfold deref. by rewrite lookup_insert_eq. Qed.

Lemma deref_insert_ne h l l' x : l ≠ l' → deref (<[l := x]> h) l' = deref h l'.
Proof. intros H. unfold deref. by rewrite lookup_insert_ne. Qed.

Lemma extend_same a b h : deref (extend a b h) a = deref h a ++ deref h b.
Proof. apply deref_insert. Qed.

Lemma extend_other a b h l : l ≠ a → deref (extend a b h) l = deref h l.
Proof. intros H. by apply deref_insert_ne. Qed.

(** ** The loop over the parent's dict *)

Section merge.
Context (ρ : loc → role) (mk : string → role) (mk_inj : Inj (=) (=) mk).

Lemma merge_spec pd : ∀ td h,
  NoDup pd.*1 →
  NoDup td.*1 →
  (∀ k l, assoc k td = Some l → ρ l = mk k) →
  (∀ k l, assoc k pd = Some l → ρ l = mk k) →
  let out := foldl merge_key (td, h) pd in
  (∀ k, assoc k out.1 = match assoc k td with
                        | Some l => Some l
                        | None => assoc k pd
                        end)
  ∧ NoDup out.1.*1
  ∧ (∀ k lt lp, assoc k td = Some lt → assoc k pd = Some lp →
                deref out.2 lt = deref h lt ++ deref h lp)
  ∧ (∀ l, (∀ k, assoc k td = Some l → assoc k pd = None) →
          deref out.2 l = deref h l).
Proof.
  induction pd as [|[k0 lp0] pd IH]; intros td h Hpd Htd Hρt Hρp.
  { cbn. split; [|split; [done|split]].
    - intros k. by destruct (assoc k td).
    - intros k lt lp _ H. simpl in H. discriminate.
    - intros l _. reflexivity. }
  apply NoDup_cons in Hpd as [Hk0 Hpd]. simpl in Hk0.
  apply assoc_None_keys in Hk0.
  assert (∀ k l, assoc k pd = Some l → ρ l = mk k) as Hρp'.
  { intros k l Hl. apply Hρp. rewrite assoc_cons.
    destruct (String.eqb_spec k k0) as [->|]; [congruence|done]. }
  assert (ρ lp0 = mk k0) as Hρ0.
  { apply Hρp. rewrite assoc_cons. by rewrite String.eqb_refl. }
  cbn [foldl].
  replace (merge_key (td, h) (k0, lp0))
    with (match assoc k0 td with
          | None => (td ++ [(k0, lp0)], h)
          | Some lt => (td, extend lt lp0 h)
          end) by done.
  destruct (assoc k0 td) as [lt0|] eqn:Hk0t.
  - (* the key is present: the target's list grows *)
    specialize (IH td (extend lt0 lp0 h) Hpd Htd Hρt Hρp').
    destruct IH as (Hd & Hnd & Ha & Hb). cbn zeta.
    assert (ρ lt0 = mk k0) as Hρlt0 by by apply Hρt.
    split; [|split; [exact Hnd|split]].
    + intros k. rewrite Hd, assoc_cons.
      destruct (assoc k td) eqn:E; [done|].
      destruct (String.eqb_spec k k0) as [->|]; [congruence|done].
    + intros k lt lp Hlt Hlp. rewrite assoc_cons in Hlp.
      destruct (String.eqb_spec k k0) as [->|Hne].
      * simplify_eq. rewrite Hb; [apply extend_same|].
        intros k Hk. apply Hρt in Hk. rewrite Hρlt0 in Hk.
        apply mk_inj in Hk as <-. done.
      * rewrite (Ha k lt lp Hlt Hlp).
        assert (ρ lt = mk k) by by apply Hρt.
        assert (ρ lp = mk k) by by apply Hρp'.
        assert (mk k ≠ mk k0) by (intros ?%mk_inj; done).
        rewrite !extend_other; [done|congruence..].
    + intros l Hl. rewrite Hb.
      * apply extend_other. intros ->. specialize (Hl k0 Hk0t).
        rewrite assoc_cons, String.eqb_refl in Hl. done.
      * intros k Hk. specialize (Hl k Hk). rewrite assoc_cons in Hl.
        by destruct (String.eqb k k0).
  - (* the key is absent: the target takes the parent's list itself *)
    assert (NoDup (td ++ [(k0, lp0)]).*1) as Htd'.
    { rewrite fmap_app. apply NoDup_app. split; [done|]. split.
      - intros k Hk Hk'. apply list_elem_of_singleton in Hk' as ->.
        by apply assoc_None_keys in Hk0t.
      - apply NoDup_singleton. }
    assert (∀ k l, assoc k (td ++ [(k0, lp0)]) = Some l → ρ l = mk k) as Hρt'.
    { intros k l. rewrite assoc_app. destruct (assoc k td) eqn:E.
      - intros; simplify_eq. by apply Hρt.
      - simpl. destruct (String.eqb_spec k k0) as [->|]; [|done].
        intros; by simplify_eq. }
    specialize (IH (td ++ [(k0, lp0)]) h Hpd Htd' Hρt' Hρp').
    destruct IH as (Hd & Hnd & Ha & Hb). cbn zeta.
    split; [|split; [exact Hnd|split]].
    + intros k. rewrite Hd, assoc_app, assoc_cons.
      destruct (assoc k td) eqn:E; [done|]. simpl.
      destruct (String.eqb_spec k k0) as [->|]; done.
    + intros k lt lp Hlt Hlp. rewrite assoc_cons in Hlp.
      destruct (String.eqb_spec k k0) as [->|Hne]; [congruence|].
      apply Ha with k; [|done]. by rewrite assoc_app, Hlt.
    + intros l Hl. apply Hb. intros k. rewrite assoc_app.
      destruct (assoc k td) eqn:E.
      * intros; simplify_eq. specialize (Hl k E). rewrite assoc_cons in Hl.
        by destruct (String.eqb k k0).
      * simpl. destruct (String.eqb_spec k k0) as [->|]; [|done]. done.
Qed.

End merge.

(** ** [combine_factory] *)

Lemma combine_factory_unfold st target parent t p :
  factories st !! target = Some t →
  factories st !! parent = Some p →
  combine_factory target parent st
  = mkStore (<[target := combined t p (lists st)]> (factories st))
            (merged_exceptions t p (lists st)).2 (next_loc st) (next_fid st).
Proof.
  intros Ht Hp. unfold combine_factory. rewrite Ht, Hp.
  unfold combined, merged_exceptions, merged_events, after_sequences.
  destruct (foldl merge_key (event_handlers t, _) _) as [events h1].
  cbn [fst snd].
  by destruct (foldl merge_key (exception_handlers t, _) _) as [exceptions h2].
Qed.

Local Instance REvent_inj : Inj (=) (=) REvent.
Proof. by intros ?? [= ->]. Qed.
Local Instance RException_inj : Inj (=) (=) RException.
Proof. by intros ?? [= ->]. Qed.

Ltac by_role :=
  let H := fresh in
  intros H; first [rewrite H in * | rewrite <- H in *]; congruence.

Section combine.
Context (ρ : loc → role) (t p : BotHandlerFactory) (h : gmap loc (list entry)).
Context (Ht : owns ρ t) (Hp : owns ρ p).

Lemma after_sequences_spec :
  (∀ r lt lp, (r = RPrefix ∨ r = RMessage ∨ r = RAfter ∨ r = RBefore ∨ r = RMiddleware) →
              list_of r t = Some lt → list_of r p = Some lp →
              deref (after_sequences t p h) lt = deref h lt ++ deref h lp)
  ∧ (∀ l, l ≠ prefix_keywords t → l ≠ message_handlers t →
          l ≠ after_reply_handlers t → l ≠ before_reply_handlers t →
          l ≠ message_handler_middleware t →
          deref (after_sequences t p h) l = deref h l).
Proof.
  destruct Ht as (Hρt & _ & _), Hp as (Hρp & _ & _).
  pose proof (Hρt RPrefix _ eq_refl). pose proof (Hρt RMessage _ eq_refl).
  pose proof (Hρt RAfter _ eq_refl). pose proof (Hρt RBefore _ eq_refl).
  pose proof (Hρt RMiddleware _ eq_refl).
  pose proof (Hρp RPrefix _ eq_refl). pose proof (Hρp RMessage _ eq_refl).
  pose proof (Hρp RAfter _ eq_refl). pose proof (Hρp RBefore _ eq_refl).
  pose proof (Hρp RMiddleware _ eq_refl).
  simpl in *. unfold after_sequences. split.
  - intros r lt lp Hr Hlt Hlp.
    destruct Hr as [-> | [-> | [-> | [-> | ->]]]]; simpl in *; simplify_eq.
    + rewrite !extend_other by by_role. apply extend_same.
    + rewrite !extend_other by by_role. rewrite extend_same.
      by rewrite !extend_other by by_role.
    + rewrite !extend_other by by_role. rewrite extend_same.
      by rewrite !extend_other by by_role.
    + rewrite !extend_other by by_role. rewrite extend_same.
      by rewrite !extend_other by by_role.
    + rewrite extend_same. by rewrite !extend_other by by_role.
  - intros l ? ? ? ? ?. by rewrite !extend_other by done.
Qed.

Lemma combine_spec :
  (∀ r, list_of r (combined t p h)
        = match list_of r t with
          | Some l => Some l
          | None => list_of r p
          end)
  ∧ NoDup (event_handlers (combined t p h)).*1
  ∧ NoDup (exception_handlers (combined t p h)).*1
  ∧ (∀ r lt, list_of r t = Some lt →
             deref (merged_exceptions t p h).2 lt
             = deref h lt ++ match list_of r p with
                             | Some lp => deref h lp
                             | None => []
                             end)
  ∧ (∀ l, (∀ r, list_of r t ≠ Some l) →
          deref (merged_exceptions t p h).2 l = deref h l).
Proof.
  destruct after_sequences_spec as (Hseq & Hrest').
  destruct Ht as (Hρt & Hnt & Hnt'), Hp as (Hρp & Hnp & Hnp').
  assert (∀ l k, ρ l = REvent k ∨ ρ l = RException k →
                 deref (after_sequences t p h) l = deref h l) as Hrest.
  { intros l k Hl. apply Hrest'; intros ->.
    - rewrite (Hρt RPrefix _ eq_refl) in Hl. by destruct Hl.
    - rewrite (Hρt RMessage _ eq_refl) in Hl. by destruct Hl.
    - rewrite (Hρt RAfter _ eq_refl) in Hl. by destruct Hl.
    - rewrite (Hρt RBefore _ eq_refl) in Hl. by destruct Hl.
    - rewrite (Hρt RMiddleware _ eq_refl) in Hl. by destruct Hl. }
  destruct (merge_spec ρ REvent _ (event_handlers p) (event_handlers t)
              (after_sequences t p h) Hnp Hnt
              (λ k l, Hρt (REvent k) l) (λ k l, Hρp (REvent k) l))
    as (Hd1 & Hn1 & Ha1 & Hb1).
  destruct (merge_spec ρ RException _ (exception_handlers p) (exception_handlers t)
              (merged_events t p h).2 Hnp' Hnt'
              (λ k l, Hρt (RException k) l) (λ k l, Hρp (RException k) l))
    as (Hd2 & Hn2 & Ha2 & Hb2).
  fold (merged_events t p h) in Hd1, Hn1, Ha1, Hb1.
  fold (merged_exceptions t p h) in Hd2, Hn2, Ha2, Hb2.
  (* a list that is no event list is not touched by the first loop, and
     one that is no exception list not by the second *)
  assert (∀ l, (∀ k, ρ l ≠ REvent k) →
               deref (merged_events t p h).2 l = deref (after_sequences t p h) l)
    as Hskip1.
  { intros l Hl. apply Hb1. intros k Hk. apply (Hρt (REvent k)) in Hk.
    by destruct (Hl k). }
  assert (∀ l, (∀ k, ρ l ≠ RException k) →
               deref (merged_exceptions t p h).2 l = deref (merged_events t p h).2 l)
    as Hskip2.
  { intros l Hl. apply Hb2. intros k Hk. apply (Hρt (RException k)) in Hk.
    by destruct (Hl k). }
  split; [|split; [done|split; [done|split]]].
  - intros [| | | | |k|k]; try done; simpl; [apply Hd1|apply Hd2].
  - intros r lt Hlt. pose proof (Hρt r lt Hlt) as Hr.
    destruct r as [| | | | |k|k].
    1-5: rewrite Hskip2, Hskip1 by (intros ?; congruence);
      match goal with
      | H : list_of ?r t = Some _ |- _ => by apply (Hseq r); auto 10
      end.
    + rewrite Hskip2 by (intros ?; congruence). simpl in *.
      destruct (assoc k (event_handlers p)) as [lp|] eqn:Hlp.
      * rewrite (Ha1 k lt lp Hlt Hlp).
        pose proof (Hρp (REvent k) lp Hlp).
        by rewrite !(Hrest _ k) by auto.
      * rewrite Hb1.
        -- by rewrite (Hrest _ k), app_nil_r by auto.
        -- intros k' Hk'. apply (Hρt (REvent k')) in Hk'.
           rewrite Hr in Hk'. by simplify_eq.
    + simpl in *.
      destruct (assoc k (exception_handlers p)) as [lp|] eqn:Hlp.
      * rewrite (Ha2 k lt lp Hlt Hlp).
        pose proof (Hρp (RException k) lp Hlp).
        rewrite !Hskip1 by (intros ?; congruence).
        by rewrite !(Hrest _ k) by auto.
      * rewrite Hb2.
        -- rewrite Hskip1 by (intros ?; congruence).
           by rewrite (Hrest _ k), app_nil_r by auto.
        -- intros k' Hk'. apply (Hρt (RException k')) in Hk'.
           rewrite Hr in Hk'. by simplify_eq.
  - intros l Hl. rewrite Hb2, Hb1.
    + apply Hrest'; intros ->.
      * by apply (Hl RPrefix).
      * by apply (Hl RMessage).
      * by apply (Hl RAfter).
      * by apply (Hl RBefore).
      * by apply (Hl RMiddleware).
    + intros k Hk. by destruct (Hl (REvent k)).
    + intros k Hk. by destruct (Hl (RException k)).
Qed.

End combine.

(** [combine_factory] appends, role by role. *)
Lemma combine_law st target parent t p :
  wf st →
  factories st !! target = Some t →
  factories st !! parent = Some p →
  ∀ r, content (combine_factory target parent st) target r
       = content st target r ++ content st parent r.
Proof.
  intros (ρ & Hwf) Ht Hp r.
  destruct (Hwf _ _ Ht) as (_ & Hot & _), (Hwf _ _ Hp) as (_ & Hop & _).
  destruct (combine_spec ρ t p (lists st) Hot Hop) as (Hl & _ & _ & Hin & Hout).
  rewrite (combine_factory_unfold _ _ _ _ _ Ht Hp).
  unfold content. cbn [factories lists]. rewrite lookup_insert_eq, Ht, Hp, Hl.
  destruct (list_of r t) as [lt|] eqn:Hlt.
  - by apply Hin.
  - destruct (list_of r p) as [lp|] eqn:Hlp; [|done].
    apply Hout. intros r' Hr'.
    destruct Hot as (Hρt & _), Hop as (Hρp & _).
    pose proof (Hρt _ _ Hr'). pose proof (Hρp _ _ Hlp). congruence.
Qed.

(** [combine_factory] writes to the target's lists only. *)
Lemma combine_frame st target parent t p l :
  wf st →
  factories st !! target = Some t →
  factories st !! parent = Some p →
  (∀ r, list_of r t ≠ Some l) →
  deref (lists (combine_factory target parent st)) l = deref (lists st) l.
Proof.
  intros (ρ & Hwf) Ht Hp Hl.
  destruct (Hwf _ _ Ht) as (_ & Hot & _), (Hwf _ _ Hp) as (_ & Hop & _).
  destruct (combine_spec ρ t p (lists st) Hot Hop) as (_ & _ & _ & _ & Hout).
  rewrite (combine_factory_unfold _ _ _ _ _ Ht Hp). by apply Hout.
Qed.

Lemma combine_wf st target parent :
  wf st → wf (combine_factory target parent st).
Proof.
  intros Hwf.
  destruct (factories st !! target) as [t|] eqn:Ht;
    [|by unfold combine_factory; rewrite Ht].
  destruct (factories st !! parent) as [p|] eqn:Hp;
    [|by unfold combine_factory; rewrite Ht, Hp].
  rewrite (combine_factory_unfold _ _ _ _ _ Ht Hp).
  destruct Hwf as (ρ & Hwf). exists ρ. intros i f. cbn.
  destruct (Hwf _ _ Ht) as (Hit & Hot & Hbt), (Hwf _ _ Hp) as (_ & Hop & Hbp).
  destruct (combine_spec ρ t p (lists st) Hot Hop) as (Hl & Hn1 & Hn2 & _).
  destruct (decide (target = i)) as [->|Hne].
  - rewrite lookup_insert_eq. intros [= <-]. split; [done|].
    destruct Hot as (Hρt & _), Hop as (Hρp & _).
    split; [split; [|done]|].
    + intros r l. rewrite Hl. destruct (list_of r t) eqn:E; intros; simplify_eq; eauto.
    + intros r l. rewrite Hl. destruct (list_of r t) eqn:E; intros; simplify_eq; eauto.
  - rewrite lookup_insert_ne by done. apply Hwf.
Qed.

(** ** Every store that the methods build is well formed *)

Lemma wf_with_lists h st : wf st → wf (with_lists h st).
Proof. done. Qed.

Lemma wf_new_factory st : wf st → wf (new_factory st).
Proof.
  intros (ρ & Hwf). set (n := next_loc st).
  exists (λ l, if decide (l = n) then RPrefix
               else if decide (l = S n) then RMessage
               else if decide (l = S (S n)) then RAfter
               else if decide (l = S (S (S n))) then RBefore
               else if decide (l = S (S (S (S n)))) then RMiddleware
               else ρ l).
  intros i f. unfold new_factory. cbn. fold n.
  destruct (decide (next_fid st = i)) as [<-|Hne].
  - rewrite lookup_insert_eq. intros [= <-]. split; [lia|]. split.
    + split; [|split; apply NoDup_nil_2].
      intros [| | | | |k|k] l [= <-]; repeat case_decide; done || lia.
    + intros [| | | | |k|k] l [= <-]; lia.
  - rewrite lookup_insert_ne by done. intros Hf.
    destruct (Hwf _ _ Hf) as (Hi & (Hρ & Hn1 & Hn2) & Hb).
    split; [lia|]. split; [split; [|done]|].
    + intros r l Hl. specialize (Hb _ _ Hl). fold n in Hb.
      repeat case_decide; try lia. by apply Hρ.
    + intros r l Hl. specialize (Hb _ _ Hl). fold n in Hb. lia.
Qed.

Lemma wf_set_group_config self config st : wf st → wf (set_group_config self config st).
Proof.
  intros (ρ & Hwf). unfold set_group_config.
  destruct (factories st !! self) as [f|] eqn:Hf; [|by exists ρ].
  exists ρ. intros i f'. cbn.
  destruct (decide (self = i)) as [->|Hne].
  - rewrite lookup_insert_eq. intros [= <-]. apply (Hwf _ _ Hf).
  - rewrite lookup_insert_ne by done. apply Hwf.
Qed.

(** Registering under a list of names: new keys get new lists. *)
Lemma register_under_spec (mk : string → role) func names : ∀ d h next ρ,
  NoDup d.*1 →
  (∀ k l, assoc k d = Some l → ρ l = mk k ∧ (l < next)%nat) →
  let out := foldl (register_under func) (d, h, next) names in
  ∃ ρ', (∀ l, (l < next)%nat → ρ' l = ρ l)
        ∧ (next ≤ out.2)%nat
        ∧ NoDup out.1.1.*1
        ∧ (∀ k l, assoc k out.1.1 = Some l → ρ' l = mk k ∧ (l < out.2)%nat).
Proof.
  induction names as [|name names IH]; intros d h next ρ Hnd Hd.
  { exists ρ. cbn. eauto. }
  cbn [foldl].
  replace (register_under func (d, h, next) name)
    with (match assoc name d with
          | Some l => (d, append l (Callback func) h, next)
          | None => (d ++ [(name, next)],
                     append next (Callback func) (<[next := []]> h), S next)
          end) by done.
  destruct (assoc name d) as [l0|] eqn:Hname.
  - apply IH; done.
  - set (ρ1 := λ l, if decide (l = next) then mk name else ρ l).
    destruct (IH (d ++ [(name, next)])
                (append next (Callback func) (<[next := []]> h)) (S next) ρ1)
      as (ρ' & Hagree & Hle & Hnd' & Hd').
    + rewrite fmap_app. apply NoDup_app. split; [done|]. split.
      * intros k Hk Hk'. apply list_elem_of_singleton in Hk' as ->.
        by apply assoc_None_keys in Hname.
      * apply NoDup_singleton.
    + intros k l. rewrite assoc_app. destruct (assoc k d) as [l'|] eqn:E.
      * intros [= <-]. destruct (Hd _ _ E) as [? ?]. unfold ρ1.
        case_decide; [lia|]. split; [done|lia].
      * simpl. destruct (String.eqb_spec k name) as [->|]; [|done].
        intros [= <-]. unfold ρ1. case_decide; [|done]. split; [done|lia].
    + exists ρ'. cbn zeta in *. split; [|split; [lia|done]].
      intros l Hl. rewrite Hagree by lia. unfold ρ1. case_decide; [lia|done].
Qed.

Lemma wf_on_event self events func st : wf st → wf (on_event self events func st).
Proof.
  intros (ρ & Hwf). unfold on_event.
  destruct (factories st !! self) as [f|] eqn:Hf; [|by exists ρ].
  destruct (Hwf _ _ Hf) as (Hi & (Hρ & Hn1 & Hn2) & Hb).
  destruct (register_under_spec REvent func events (event_handlers f) (lists st)
              (next_loc st) ρ Hn1) as (ρ' & Hagree & Hle & Hnd & Hd).
  { intros k l Hl. split; [by apply (Hρ (REvent k))|by apply (Hb (REvent k))]. }
  cbn zeta in *.
  destruct (foldl _ _ events) as [[d h] next]. cbn [fst snd] in *.
  exists ρ'. intros i f'. cbn.
  destruct (decide (self = i)) as [->|Hne].
  - rewrite lookup_insert_eq. intros [= <-]. split; [done|].
    split; [split; [|done]|].
    + intros r l Hl.
      assert ((∃ k, r = REvent k ∧ assoc k d = Some l) ∨ list_of r f = Some l)
        as [(k & -> & Hk)|Hold] by (destruct r; cbn in Hl; eauto).
      * by apply (Hd k l).
      * rewrite Hagree; [by apply Hρ|by eapply Hb].
    + intros r l Hl.
      assert ((∃ k, r = REvent k ∧ assoc k d = Some l) ∨ list_of r f = Some l)
        as [(k & -> & Hk)|Hold] by (destruct r; cbn in Hl; eauto).
      * by apply (Hd k l).
      * eapply Nat.lt_le_trans; [by eapply Hb|done].
  - rewrite lookup_insert_ne by done. intros Hf'.
    destruct (Hwf _ _ Hf') as (Hi' & (Hρ' & Hn1' & Hn2') & Hb').
    split; [done|]. split; [split; [|done]|].
    + intros r l Hl. rewrite Hagree; [by apply Hρ'|by eapply Hb'].
    + intros r l Hl. eapply Nat.lt_le_trans; [by eapply Hb'|done].
Qed.

Lemma wf_on_exception self exceptions func st :
  wf st → wf (on_exception self exceptions func st).
Proof.
  intros (ρ & Hwf). unfold on_exception.
  destruct (factories st !! self) as [f|] eqn:Hf; [|by exists ρ].
  destruct (Hwf _ _ Hf) as (Hi & (Hρ & Hn1 & Hn2) & Hb).
  destruct (register_under_spec RException func exceptions (exception_handlers f)
              (lists st) (next_loc st) ρ Hn2) as (ρ' & Hagree & Hle & Hnd & Hd).
  { intros k l Hl. split; [by apply (Hρ (RException k))|by apply (Hb (RException k))]. }
  cbn zeta in *.
  destruct (foldl _ _ exceptions) as [[d h] next]. cbn [fst snd] in *.
  exists ρ'. intros i f'. cbn.
  destruct (decide (self = i)) as [->|Hne].
  - rewrite lookup_insert_eq. intros [= <-]. split; [done|].
    split; [split; [|done]|].
    + intros r l Hl.
      assert ((∃ k, r = RException k ∧ assoc k d = Some l) ∨ list_of r f = Some l)
        as [(k & -> & Hk)|Hold] by (destruct r; cbn in Hl; eauto).
      * by apply (Hd k l).
      * rewrite Hagree; [by apply Hρ|by eapply Hb].
    + intros r l Hl.
      assert ((∃ k, r = RException k ∧ assoc k d = Some l) ∨ list_of r f = Some l)
        as [(k & -> & Hk)|Hold] by (destruct r; cbn in Hl; eauto).
      * by apply (Hd k l).
      * eapply Nat.lt_le_trans; [by eapply Hb|done].
  - rewrite lookup_insert_ne by done. intros Hf'.
    destruct (Hwf _ _ Hf') as (Hi' & (Hρ' & Hn1' & Hn2') & Hb').
    split; [done|]. split; [split; [|done]|].
    + intros r l Hl. rewrite Hagree; [by apply Hρ'|by eapply Hb'].
    + intros r l Hl. eapply Nat.lt_le_trans; [by eapply Hb'|done].
Qed.

Lemma wf_exec st c : wf st → wf (exec st c).
Proof.
  intros Hwf. destruct c; cbn.
  - by apply wf_new_factory.
  - unfold on_message. destruct (factories st !! self); [|done]. by apply wf_with_lists.
  - by apply wf_on_event.
  - by apply wf_on_exception.
  - unfold before_bot_reply. destruct (factories st !! self); [|done].
    by apply wf_with_lists.
  - unfold after_bot_reply. destruct (factories st !! self); [|done].
    by apply wf_with_lists.
  - unfold handler_middleware. destruct (factories st !! self); [|done].
    by apply wf_with_lists.
  - by apply wf_set_group_config.
  - by apply combine_wf.
Qed.

Lemma wf_empty : wf empty_store.
Proof. exists (λ _, RPrefix). intros i f. cbn. by rewrite lookup_empty. Qed.

(** Whatever sequence of calls built the store, it is well formed. *)
Lemma wf_built (calls : list call) : wf (foldl exec empty_store calls).
Proof.
  assert (∀ st, wf st → wf (foldl exec st calls)) as H.
  { induction calls as [|c calls IH]; intros st Hst; [done|].
    cbn. apply IH. by apply wf_exec. }
  apply H, wf_empty.
Qed.

(* ------------------------------------------------------------------- *)
(** ** C3 *)

(** C3: combining a source registry into a target registry keeps every
    event handler and every exception handler.  For each key, what the
    target holds afterwards is what it held before followed by what the
    source held (nothing for an absent key), so the length is the sum of
    the two lengths. *)
Theorem combine_factory_keeps_handlers (st : Store) (target parent : fid)
    (name : string) :
  wf st →
  is_Some (factories st !! target) →
  is_Some (factories st !! parent) →
  let st' := combine_factory target parent st in
  (content st' target (REvent name)
   = content st target (REvent name) ++ content st parent (REvent name)
   ∧ length (content st' target (REvent name))
     = (length (content st target (REvent name))
        + length (content st parent (REvent name)))%nat)
  ∧ (content st' target (RException name)
     = content st target (RException name) ++ content st parent (RException name)
     ∧ length (content st' target (RException name))
       = (length (content st target (RException name))
          + length (content st parent (RException name)))%nat).
Proof.
  intros Hwf [t Ht] [p Hp]. cbn zeta.
  rewrite !(combine_law st target parent t p Hwf Ht Hp).
  by rewrite !length_app.
Qed.

Lemma combine_factory_keeps_handlers_witness :
  length (content (combine_factory 0%nat 1%nat bot_and_plugin) 0%nat (REvent "ready"))
  = (length (content bot_and_plugin 0%nat (REvent "ready"))
     + length (content bot_and_plugin 1%nat (REvent "ready")))%nat.
Proof.
  refine (proj2 (proj1 (combine_factory_keeps_handlers bot_and_plugin 0%nat 1%nat
                          "ready" _ _ _))).
  - apply wf_built.
  - vm_compute. eauto.
  - vm_compute. eauto.
Defined.

(* ------------------------------------------------------------------- *)
(** ** C6 *)

(** C6: combining the same source into the same target a second time
    appends the source's entries a second time, in every sequence and
    under every key: the target then holds its own entries followed by the
    source's entries twice.  Nothing is deduplicated, so the second
    combination leaves the target as the first left it only where the
    source holds nothing. *)
Theorem combine_factory_twice (st : Store) (target parent : fid) (r : role) :
  wf st →
  separate st target parent →
  is_Some (factories st !! target) →
  is_Some (factories st !! parent) →
  let once := combine_factory target parent st in
  let twice := combine_factory target parent once in
  content twice target r
  = content st target r ++ content st parent r ++ content st parent r
  ∧ (content twice target r = content once target r ↔ content st parent r = []).
Proof.
  intros Hwf (Hne & Hsep) [t Ht] [p Hp]. cbn zeta.
  pose proof (combine_law st target parent t p Hwf Ht Hp) as Hlaw.
  pose proof (combine_wf st target parent Hwf) as Hwf1.
  assert (factories (combine_factory target parent st) !! parent = Some p) as Hp1.
  { rewrite (combine_factory_unfold _ _ _ _ _ Ht Hp). cbn.
    by rewrite lookup_insert_ne. }
  assert (factories (combine_factory target parent st) !! target
          = Some (combined t p (lists st))) as Ht1.
  { rewrite (combine_factory_unfold _ _ _ _ _ Ht Hp). cbn.
    by rewrite lookup_insert_eq. }
  assert (content (combine_factory target parent st) parent r
          = content st parent r) as Hsame.
  { unfold content. rewrite Hp1, Hp. destruct (list_of r p) as [lp|] eqn:Hlp; [|done].
    apply (combine_frame st target parent t p lp Hwf Ht Hp).
    intros r' Hr'. by apply (Hsep t p Ht Hp r' r lp). }
  rewrite (combine_law _ target parent _ p Hwf1 Ht1 Hp1 r), Hsame, Hlaw.
  split; [by rewrite <- app_assoc|].
  split.
  - intros H. apply (f_equal length) in H. rewrite !length_app in H.
    apply length_zero_iff_nil. lia.
  - intros ->. by rewrite !app_nil_r.
Qed.

Lemma combine_factory_twice_witness :
  content (combine_factory 0%nat 1%nat (combine_factory 0%nat 1%nat bot_and_plugin)) 0%nat
          (REvent "ready")
  = content bot_and_plugin 0%nat (REvent "ready")
    ++ content bot_and_plugin 1%nat (REvent "ready")
    ++ content bot_and_plugin 1%nat (REvent "ready").
Proof.
  refine (proj1 (combine_factory_twice bot_and_plugin 0%nat 1%nat (REvent "ready")
                   _ _ _ _)).
  - apply wf_built.
  - split; [done|]. intros fa fb Ha Hb. vm_compute in Ha, Hb. simplify_eq.
    intros [| | | | |k|k] [| | | | |k'|k'] l; cbn;
      repeat (case_match; simplify_eq); try done; intros; by simplify_eq.
  - vm_compute. eauto.
  - vm_compute. eauto.
Defined.

(* ------------------------------------------------------------------- *)
(** ** C9 *)

(** C9, as stated, fails: registered with neither [keywords] nor
    [verify], the descriptor has no active predicate at all. *)
Lemma no_predicate_without_keywords_and_verify :
  keywords_active (register_item 0%nat fresh_factory default_args 7%nat) = false
  ∧ verify_active (register_item 0%nat fresh_factory default_args 7%nat) = false
  ∧ ¬ exactly_one_active (register_item 0%nat fresh_factory default_args 7%nat).
Proof. repeat split. unfold exactly_one_active. cbn. discriminate. Qed.

(** C9 (amended): [register] assigns one of the two fields and leaves the
    other empty: [custom_verify] when [verify] is supplied (the keywords
    are then not used), and otherwise [keywords], to whatever was
    supplied.  So the two predicates are never both active, and exactly
    one is active if and only if at least one of [keywords] and [verify]
    was supplied. *)
Theorem on_message_predicates (self : fid) (factory : BotHandlerFactory)
    (a : on_message_args) (func : callable) :
  let h := register_item self factory a func in
  custom_verify h = arg_verify a
  ∧ keywords h = (if arg_verify a is Some _ then None else arg_keywords a)
  ∧ (keywords_active h && verify_active h = false)
  ∧ (exactly_one_active h ↔ is_Some (arg_verify a) ∨ is_Some (arg_keywords a)).
Proof.
  unfold exactly_one_active, keywords_active, verify_active, register_item.
  destruct a as [g kw v cp ad d lv]; cbn.
  destruct v as [v|], kw as [kw|]; cbn; repeat split; eauto;
    try discriminate; intros [[? [=]]|[? [=]]].
Qed.

End HandlerProofs.

(* ===================================================================== *)
(** * The Tencent adapter: suppression and event wrapping *)
(* ===================================================================== *)

Module TencentProofs.
Import Py Tencent.

Section package.
Context (text_convert : Message → string → json → Message)
        (format_mention : json → string)
        (remove_all : string → string → string)
        (findall_emoji : string → list string)
        (strip : string → string).

Abbreviation package := (package_tencent_message text_convert format_mention
                       remove_all findall_emoji strip).
Abbreviation body := (packaging text_convert format_mention remove_all
                    findall_emoji strip).

(** One unfolding of the function. *)
Lemma package_unfold depth instance event message is_reference :
  package depth instance event message is_reference
  = if in_list event message_created then
      rbind (suppressed message is_reference) (λ stop : bool,
        if stop then Ret Nothing
        else body (nested text_convert format_mention remove_all findall_emoji
                     strip depth instance event) instance message)
    else Ret (Evt (mkEvent event message)).
Proof. by destruct depth. Qed.

(** The test on the author, when the author is marked as a bot. *)
Lemma suppressed_bot message author flag is_reference :
  getitem message "author" = Ret author →
  contains "bot" author = Ret true →
  getitem author "bot" = Ret flag →
  truthy flag = true →
  suppressed message is_reference = Ret (negb is_reference).
Proof.
  intros Ha Hc Hb Ht. unfold suppressed. rewrite Ha. cbn. rewrite Hc. cbn.
  rewrite Hb. cbn. by rewrite Ht.
Qed.

(** C7: for a message-creation event whose author carries a truthy [bot]
    entry, the call returns [None] unless it is the nested call made for a
    quoted message ([is_reference]); in that case the message goes through
    the very packaging that any other message goes through. *)
Theorem bot_messages_suppressed (depth : nat) (instance : TencentAPI)
    (event : string) (message author flag : json) :
  in_list event message_created = true →
  getitem message "author" = Ret author →
  contains "bot" author = Ret true →
  getitem author "bot" = Ret flag →
  truthy flag = true →
  package depth instance event message false = Ret Nothing
  ∧ package depth instance event message true
    = body (nested text_convert format_mention remove_all findall_emoji strip
              depth instance event) instance message.
Proof.
  intros He Ha Hc Hb Ht. rewrite !package_unfold, He.
  rewrite !(suppressed_bot message author flag _ Ha Hc Hb Ht). done.
Qed.

(** C10: for an event name outside the message-creation set the call
    returns the [Event] that wraps the name and the raw payload, whatever
    the payload is; so [None] is returned for message-creation events
    only. *)
Theorem other_events_wrapped (depth : nat) (instance : TencentAPI)
    (event : string) (message : json) (is_reference : bool) :
  (in_list event message_created = false →
   package depth instance event message is_reference
   = Ret (Evt (mkEvent event message)))
  ∧ (package depth instance event message is_reference = Ret Nothing →
     in_list event message_created = true).
Proof.
  rewrite package_unfold. destruct (in_list event message_created); split; done.
Qed.

End package.

Lemma bot_messages_suppressed_witness :
  package_tencent_message (λ m _ _, m) (λ _, ""%string) (λ body _, body)
    (λ _, []) (λ body, body) 0 friendly "MESSAGE_CREATE" bot_message false
  = Ret Nothing
  ∧ ∃ data,
      package_tencent_message (λ m _ _, m) (λ _, ""%string) (λ body _, body)
        (λ _, []) (λ body, body) 0 friendly "MESSAGE_CREATE" bot_message true
      = Ret (Msg data).
Proof.
  destruct (bot_messages_suppressed (λ m _ _, m) (λ _, ""%string) (λ body _, body)
              (λ _, []) (λ body, body) 0 friendly "MESSAGE_CREATE" bot_message
              (JObj [("id", JStr "u1"); ("username", JStr "helper");
                     ("bot", JBool true)])
              (JBool true) eq_refl eq_refl eq_refl eq_refl eq_refl) as [H1 H2].
  split; [exact H1|]. rewrite H2. eexists. vm_compute. reflexivity.
Defined.

Lemma other_events_wrapped_witness :
  package_tencent_message (λ m _ _, m) (λ _, ""%string) (λ body _, body)
    (λ _, []) (λ body, body) 0 friendly "GUILD_CREATE" (JInt 5) false
  = Ret (Evt (mkEvent "GUILD_CREATE" (JInt 5))).
Proof.
  apply (proj1 (other_events_wrapped (λ m _ _, m) (λ _, ""%string) (λ body _, body)
                  (λ _, []) (λ body, body) 0 friendly "GUILD_CREATE" (JInt 5) false)).
  reflexivity.
Defined.

End TencentProofs.

(* ===================================================================== *)
(** * More about the KOOK adapter *)
(* ===================================================================== *)

Module KookMore.
Import Py Kook KookProofs.

(** ** After [keep_run] is cleared *)






(** ** A failed gateway lookup *)

Lemma escaped_step e st ev st' :
  main st = Escaped e → step st ev = Some st' → main st' = Escaped e.
Proof.
  intros Hm Hstep. destruct st as [pc self]. cbn [main] in Hm. subst pc.
  destruct ev as [r|w|r| |i|]; cbn in Hstep; simplify_eq; try done.
  by destruct (resume i self); cbn in Hstep; simplify_eq.
Qed.

Lemma escaped_run e evs : ∀ st st',
  main st = Escaped e → run st evs = Some st' → main st' = Escaped e.
Proof.
  induction evs as [|ev evs IH]; intros st st' Hm Hrun; cbn [run] in Hrun.
  - by simplify_eq.
  - destruct (step st ev) as [st1|] eqn:Hstep; [|done].
    eapply IH; [|done]. by eapply escaped_step.
Qed.

(** X2: when the gateway address cannot be obtained (no answer, an
    undecodable or error answer, or an answer without [data.url]), the
    exception is raised outside the [async with] block: it leaves
    [__connect] and [connect], and from then on no event brings the main
    coroutine back; there is no retry. *)
Theorem gateway_failure_ends_connect (st : System) (answer : option http_body)
    (e : exn) :
  main st = AwaitGateway →
  gateway_url answer = Raise e →
  ∃ st1,
    step st (Http answer) = Some st1
    ∧ main st1 = Escaped e
    ∧ connection (bot st1) = None
    ∧ ∀ evs st2, run st1 evs = Some st2 → main st2 = Escaped e.
Proof.
  intros Hm Hg. destruct st as [pc self]. cbn [main] in Hm. subst pc.
  eexists. split; [reflexivity|]. cbn [step main bot].
  unfold connect_gateway. rewrite Hg. unfold escape.
  split; [done|]. split; [apply close_connection_effect|].
  intros evs st2. by apply escaped_run.
Qed.

Lemma gateway_failure_ends_connect_witness :
  ∃ st1,
    step (mkSystem AwaitGateway __init__) (Http None) = Some st1
    ∧ main st1 = Escaped ManualCloseException
    ∧ connection (bot st1) = None
    ∧ ∀ evs st2, run st1 evs = Some st2 → main st2 = Escaped ManualCloseException.
Proof.
  apply (gateway_failure_ends_connect (mkSystem AwaitGateway __init__) None
           ManualCloseException); reflexivity.
Defined.

(** ** The watchdog *)

(** X3: a watchdog that is resumed before its 30th second and finds the
    acknowledgment flag set ends there: it leaves the socket alone and
    clears the flag for the next heartbeat.  At its 30th second it closes
    the socket without looking at the flag, so an acknowledgment that
    arrived during the last second does not keep the connection. *)
Theorem watchdog_outcomes (j : nat) (pc : option Z) (self : KOOKBotInstance) :
  tasks self !! j = Some (WaitHeartbeat pc) →
  (pong self ≠ 0 → (2 ≤ polls_left pc)%nat →
   ∃ self', resume j self = Some self'
            ∧ tasks self' !! j = Some Finished
            ∧ pong self' = 0
            ∧ connection self' = connection self
            ∧ closed self' = closed self)
  ∧ (∀ ws, pc = Some 29 → connection self = Some ws →
     ∃ self', resume j self = Some self'
              ∧ tasks self' !! j = Some Finished
              ∧ pong self' = 0
              ∧ connection self' = None
              ∧ closed self' = closed self ++ [ws]).
Proof.
  intros Hj. assert (j < length (tasks self))%nat as Hlt by by eapply lookup_lt_Some.
  split.
  - intros Hp Hn. unfold resume. rewrite Hj. unfold settle.
    apply Z.eqb_neq in Hp.
    destruct pc as [sec|]; unfold_M.
    + cbn in Hn. destruct (Z.geb_spec (sec + 1) 30); [lia|]. cbn.
      rewrite Hp. cbn. eexists. split; [done|]. cbn.
      split; [by apply list_lookup_insert_eq|done].
    + rewrite Hp. cbn. eexists. split; [done|]. cbn.
      split; [by apply list_lookup_insert_eq|done].
  - intros ws -> Hc. unfold resume. rewrite Hj. unfold settle. unfold_M.
    rewrite Hc. cbn. unfold __still_alive. cbn. rewrite !andb_false_r. cbn.
    eexists. split; [done|]. cbn.
    split; [by apply list_lookup_insert_eq|done].
Qed.

Lemma watchdog_outcomes_witness :
  (∃ self', resume 0 (mkBot true (JStr "u") (Some 1%nat) 1 0 None
                        [WaitHeartbeat (Some 3)] [] []) = Some self'
            ∧ tasks self' !! 0%nat = Some Finished
            ∧ pong self' = 0
            ∧ connection self' = Some 1%nat
            ∧ closed self' = [])
  ∧ (∃ self', resume 0 (mkBot true (JStr "u") (Some 1%nat) 1 0 None
                          [WaitHeartbeat (Some 29)] [] []) = Some self'
              ∧ tasks self' !! 0%nat = Some Finished
              ∧ pong self' = 0
              ∧ connection self' = None
              ∧ closed self' = [1%nat]).
Proof.
  split.
  - apply (proj1 (watchdog_outcomes 0 (Some 3)
                    (mkBot true (JStr "u") (Some 1%nat) 1 0 None
                       [WaitHeartbeat (Some 3)] [] []) eq_refl));
      [discriminate|cbn; lia].
  - apply (proj2 (watchdog_outcomes 0 (Some 29)
                    (mkBot true (JStr "u") (Some 1%nat) 1 0 None
                       [WaitHeartbeat (Some 29)] [] []) eq_refl) 1%nat);
      reflexivity.
Defined.

(** ** The heartbeat coroutines, await by await *)

(** The two readings of the coroutines agree when nobody runs while
    [send] or [close()] is awaited. *)
Lemma heartbeat_interval_at_once sec self :
  heartbeat_interval None self
  = (match (heartbeat_interval_start self).1 with
     | Ret pc => Ret (coro_of_beat pc)
     | Raise e => Raise e
     end, (heartbeat_interval_start self).2)
  ∧ heartbeat_interval (Some sec) self
    = (match (beat_at_once (BeatSleep sec) self).1 with
       | Ret pc => Ret (coro_of_beat pc)
       | Raise e => Raise e
       end, (beat_at_once (BeatSleep sec) self).2).
Proof.
  split.
  - unfold heartbeat_interval_start, beat_loop. unfold_M. by destruct (__still_alive _).
  - unfold beat_at_once, heartbeat_interval_resume, beat_loop. unfold_M.
    destruct (sec + 1 >=? 30); cbn.
    + destruct (connection self); cbn; [|done]. by destruct (__still_alive _).
    + by destruct (__still_alive _).
Qed.

Lemma wait_heartbeat_at_once sec self :
  wait_heartbeat None self
  = (match (wait_heartbeat_start self).1 with
     | Ret pc => Ret (coro_of_watch pc)
     | Raise e => Raise e
     end, (wait_heartbeat_start self).2)
  ∧ wait_heartbeat (Some sec) self
    = (match (watch_at_once (WatchSleep sec) self).1 with
       | Ret pc => Ret (coro_of_watch pc)
       | Raise e => Raise e
       end, (watch_at_once (WatchSleep sec) self).2).
Proof.
  split.
  - unfold wait_heartbeat_start, watch_loop. unfold_M. by destruct (_ =? _), (__still_alive _).
  - unfold watch_at_once, wait_heartbeat_resume, watch_loop. unfold_M.
    destruct (sec + 1 >=? 30); cbn.
    + destruct (connection self); cbn; by destruct (_ =? _), (__still_alive _).
    + by destruct (_ =? _), (__still_alive _).
Qed.

Lemma watch_loop_cases sec self :
  (watch_loop sec self).1 = Ret (WatchSleep sec)
  ∨ (watch_loop sec self).1 = Ret WatchEnd.
Proof. unfold watch_loop. unfold_M. destruct (_ && _); eauto. Qed.

Lemma watch_loop_without_socket sec self :
  connection self = None → (watch_loop sec self).1 = Ret WatchEnd.
Proof.
  intros Hc. unfold watch_loop, __still_alive. unfold_M. rewrite Hc. cbn.
  by rewrite !andb_false_r.
Qed.

Lemma watch_next_counted pc n self :
  counted pc n → counted (watch_next pc self) (S n).
Proof.
  intros Hpc. unfold watch_next. destruct pc as [sec|sec|]; cbn in Hpc.
  - destruct Hpc as [-> Hn]. unfold wait_heartbeat_resume.
    destruct (Z.geb_spec (Z.of_nat n + 1) 30) as [Hge|Hlt].
    + destruct (connection self) as [ws|] eqn:Hc.
      * unfold_M. rewrite Hc. cbn. lia.
      * assert ((modify (set_connection None) ;; watch_loop (Z.of_nat n + 1)) self
                = watch_loop (Z.of_nat n + 1) (set_connection None self)) as Heq by done.
        unfold bind at 1, get at 1. rewrite Hc, Heq.
        by rewrite watch_loop_without_socket.
    + destruct (watch_loop_cases (Z.of_nat n + 1) self) as [-> | ->]; cbn; [lia|done].
  - unfold wait_heartbeat_resume.
    assert ((modify (set_connection None) ;; watch_loop sec) self
            = watch_loop sec (set_connection None self)) as -> by done.
    by rewrite watch_loop_without_socket.
  - done.
Qed.

Lemma watch_run_counted found : ∀ pc n,
  counted pc n → counted (foldl watch_next pc found) (n + length found).
Proof.
  induction found as [|self found IH]; intros pc n Hpc; cbn [foldl length].
  - by rewrite Nat.add_0_r.
  - rewrite Nat.add_succ_r. apply (IH _ (S n)). by apply watch_next_counted.
Qed.

Lemma beat_loop_cases sec self :
  (beat_loop sec self).1 = Ret (BeatSleep sec)
  ∨ (beat_loop sec self).1 = Ret BeatEnd.
Proof. unfold beat_loop. unfold_M. destruct (__still_alive _); eauto. Qed.

Lemma beat_next_bounded pc self :
  (∀ sec, pc = BeatSleep sec → 0 ≤ sec ≤ 29) →
  ∀ sec, beat_next pc self = BeatSleep sec → 0 ≤ sec ≤ 29.
Proof.
  intros Hpc sec'. unfold beat_next. destruct pc as [sec| | |e].
  - specialize (Hpc sec eq_refl). unfold heartbeat_interval_resume.
    destruct (Z.geb_spec (sec + 1) 30) as [Hge|Hlt].
    + unfold_M. destruct (connection self); cbn; discriminate.
    + destruct (beat_loop_cases (sec + 1) self) as [-> | ->]; intros [=]. lia.
  - unfold heartbeat_interval_resume.
    assert ((create_task (WaitHeartbeat None) ;; beat_loop 0) self
            = beat_loop 0 (set_tasks (tasks self ++ [WaitHeartbeat None]) self))
      as -> by done.
    destruct (beat_loop_cases 0 (set_tasks (tasks self ++ [WaitHeartbeat None]) self))
      as [-> | ->]; intros [=]. lia.
  - discriminate.
  - discriminate.
Qed.

(** X4: with every [await] a point where the other coroutines may run
    and leave the object in any state, a watchdog suspended in
    [asyncio.sleep(1)] holds the number of times it was resumed, at most
    29; it is suspended in [connection.close()] only at its 30th
    resumption, and the next one ends it: after 31 resumptions every
    watchdog has ended.  A heartbeat task suspended in [asyncio.sleep(1)]
    holds a count between 0 and 29. *)
Theorem heartbeat_counters_bounded
    (self0 : KOOKBotInstance) (found : list KOOKBotInstance) :
  counted (watch_run self0 found) (length found)
  ∧ ((31 ≤ length found)%nat → watch_run self0 found = WatchEnd)
  ∧ (∀ sec, beat_run self0 found = BeatSleep sec → 0 ≤ sec ≤ 29).
Proof.
  assert (Hw : counted (watch_run self0 found) (length found)).
  { unfold watch_run. apply (watch_run_counted found _ 0%nat).
    unfold wait_heartbeat_start.
    destruct (watch_loop_cases 0 self0) as [-> | ->]; cbn; [split; [done|lia]|done]. }
  split; [done|]. split.
  - intros Hlen. destruct (watch_run self0 found); cbn in Hw; [lia|lia|done].
  - unfold beat_run.
    assert (Hgen : ∀ pc, (∀ sec, pc = BeatSleep sec → 0 ≤ sec ≤ 29) →
              ∀ sec, foldl beat_next pc found = BeatSleep sec → 0 ≤ sec ≤ 29).
    { clear. induction found as [|self found IH]; intros pc Hpc; cbn [foldl].
      - done.
      - apply IH. by apply beat_next_bounded. }
    apply Hgen. intros sec. unfold heartbeat_interval_start.
    destruct (beat_loop_cases 0 self0) as [-> | ->]; intros [=]. lia.
Qed.

Lemma heartbeat_counters_bounded_witness :
  watch_run (mkBot true (JStr "u") (Some 1%nat) 0 0 None [] [] [])
    (replicate 31 (mkBot true (JStr "u") (Some 1%nat) 0 0 None [] [] []))
  = WatchEnd.
Proof.
  apply (heartbeat_counters_bounded
           (mkBot true (JStr "u") (Some 1%nat) 0 0 None [] [] [])
           (replicate 31 (mkBot true (JStr "u") (Some 1%nat) 0 0 None [] [] []))).
  vm_compute. lia.
Defined.

(** ** What is written to the socket *)

Lemma on_payload_sent payload self :
  ∃ new, sent (on_payload payload self).2 = sent self ++ new
         ∧ ∀ ws p, (ws, p) ∈ new → connection self = Some ws ∧ outgoing p = true.
Proof.
  destruct payload as [op dd sn0 ex]. unfold_M. by_opcode op.
  all: crunch.
  all: try (by exists []; rewrite app_nil_r; split; [done|intros ?? ?%elem_of_nil]).
  all: try (eexists [_]; split; [done|];
               intros ?? [= -> ->]%list_elem_of_singleton; split; [done|];
               unfold outgoing; cbn;
               match goal with H : negb (?n =? 0) = true |- _ => by rewrite H end).
Qed.

Lemma resume_sent i self self' :
  resume i self = Some self' →
  ∃ new, sent self' = sent self ++ new
         ∧ ∀ ws p, (ws, p) ∈ new → connection self = Some ws ∧ outgoing p = true.
Proof.
  unfold resume. intros H.
  destruct (tasks self !! i) as [[ | pc | pc | | ]|]; simplify_eq; unfold settle; cbn.
  - exists []. rewrite app_nil_r. split; [done|intros ?? ?%elem_of_nil; done].
  - destruct (heartbeat_interval_effect pc self)
      as (_&_&_&_&_&_&_&[->|(ws & Hws & ->)]).
    + exists []. rewrite app_nil_r. split; [done|intros ?? ?%elem_of_nil; done].
    + eexists [_]. split; [done|].
      by intros ?? [= -> ->]%list_elem_of_singleton.
  - destruct (wait_heartbeat_effect pc self) as (_&_&_&_&_&->&_).
    exists []. rewrite app_nil_r. split; [done|intros ?? ?%elem_of_nil; done].
Qed.

Lemma step_sent st ev st' :
  step st ev = Some st' →
  (∃ new, sent (bot st') = sent (bot st) ++ new
          ∧ ∀ ws p, (ws, p) ∈ new →
              connection (bot st) = Some ws ∧ outgoing p = true)
  ∧ (∀ ws, connection (bot st') = Some ws →
           connection (bot st) = Some ws ∨ ev = Opened (Some ws)).
Proof.
  intros Hstep. destruct st as [pc self].
  assert (Hnil : ∀ b : KOOKBotInstance, sent b = sent self →
            ∃ new, sent b = sent self ++ new
              ∧ ∀ ws p, (ws, p) ∈ new → connection self = Some ws ∧ outgoing p = true).
  { intros b ->. exists []. rewrite app_nil_r. split; [done|intros ?? ?%elem_of_nil; done]. }
  assert (Hleave : ∀ b, sent (bot (leave b)) = sent b
                        ∧ connection (bot (leave b)) = None).
  { intros b. unfold leave. cbn [bot].
    by destruct (close_connection_effect b) as (?&_&_&_&_&_&?&_). }
  assert (Hloop : ∀ ws b, sent (bot (read_loop ws b)) = sent b
                    ∧ (connection (bot (read_loop ws b)) = connection b
                       ∨ connection (bot (read_loop ws b)) = None)).
  { intros ws b. unfold read_loop. destruct (__still_alive b); [by split; [|left]|].
    destruct (Hleave b). by split; [|right]. }
  assert (Hwhile : ∀ b, bot (while_keep_run b) = b).
  { intros b. unfold while_keep_run, enter__connect.
    by destruct (keep_run b), (negb (truthy (ws_url b))). }
  destruct ev as [r|w|r| |i| ]; unfold step in Hstep; cbn [main bot] in *.
  - destruct pc; simplify_eq.
    + assert (bot (connect_me r self) = self) as ->.
      { unfold connect_me. destruct (__check_response r) as [me|e]; [|done].
        destruct (truthy me); [|by apply Hwhile].
        destruct (rbind _ _); [by apply Hwhile|done]. }
      split; [by apply Hnil|by left].
    + unfold connect_gateway, escape. destruct (gateway_url r); cbn [bot].
      * split; [by apply Hnil|by left].
      * destruct (close_connection_effect self) as (Hc&_&_&_&_&_&Hs&_).
        split; [by apply Hnil|]. intros ws. by rewrite Hc.
  - destruct pc; simplify_eq. unfold connect_opened. destruct w as [ws|].
    + destruct (Hloop ws (set_connection (Some ws) self)) as [Hs [Hc|Hc]];
        (split; [by apply Hnil|]); rewrite Hc; cbn; [|done].
      intros ? [= <-]. by right.
    + destruct (Hleave self) as [Hs Hc]. split; [by apply Hnil|]. by rewrite Hc.
  - destruct pc; simplify_eq. unfold connect_recv.
    destruct r as [payload| |].
    2,3: destruct (Hleave self) as [Hs Hc]; (split; [by apply Hnil|]); by rewrite Hc.
    destruct (on_payload_sent payload self) as (new & Hnew & Hgood).
    destruct (on_payload_effect payload self) as (_ & _ & Hconn & _).
    destruct (on_payload payload self) as [[?|?] self'] eqn:Hon; cbn in Hnew, Hconn.
    + destruct (Hloop websocket self') as [Hs Hc]. split.
      * exists new. by rewrite Hs.
      * intros ws Hws. left. destruct Hc as [Hc|Hc]; rewrite Hc in Hws; [|done].
        destruct Hconn as [Hconn|Hconn]; rewrite Hconn in Hws; done.
    + destruct (Hleave self') as [Hs Hc]. split.
      * exists new. by rewrite Hs.
      * by rewrite Hc.
  - destruct pc; simplify_eq. rewrite Hwhile. split; [by apply Hnil|by left].
  - destruct (resume i self) as [self'|] eqn:Hres; simpl in Hstep; simplify_eq.
    cbn [bot]. split; [exact (resume_sent _ _ _ Hres)|].
    destruct (resume_effect _ _ _ Hres) as (_ & [Hc|Hc] & _); rewrite Hc; [by left|done].
  - simplify_eq. cbn [bot]. unfold close. unfold_M.
    destruct (connection self); cbn; (split; [by apply Hnil|done]).
Qed.

Lemma run_sent (P : sock → Prop) evs : ∀ st0 st,
  run st0 evs = Some st →
  (∀ ws, connection (bot st0) = Some ws → P ws) →
  (∀ ws p, (ws, p) ∈ sent (bot st0) → P ws ∧ outgoing p = true) →
  (∀ ws, Opened (Some ws) ∈ evs → P ws) →
  ∀ ws p, (ws, p) ∈ sent (bot st) → P ws ∧ outgoing p = true.
Proof.
  induction evs as [|ev evs IH]; intros st0 st Hrun Hconn Hsent Hopen; cbn in Hrun.
  - by simplify_eq.
  - destruct (step st0 ev) as [st1|] eqn:Hstep; [|done].
    destruct (step_sent _ _ _ Hstep) as [(new & Hnew & Hgood) Hc].
    eapply (IH st1 st Hrun).
    + intros ws Hws. destruct (Hc ws Hws) as [?| ->]; [by apply Hconn|].
      apply Hopen. by left.
    + intros ws p. rewrite Hnew. intros [?|Hin]%elem_of_app; [by apply Hsent|].
      destruct (Hgood ws p Hin). split; [by apply Hconn|done].
    + intros ws Hws. apply Hopen. by right.
Qed.

(** X5: whatever happens after [connect] is called, every frame the
    adapter has written went to a socket that [get_websocket_connection]
    handed out before, and is either a heartbeat (opcode 2) or a resume
    request (opcode 4) with a non-zero [sn]; both carry an [sn] and no
    data. *)
Theorem only_heartbeats_and_resumes
    (evs : list event) (st : System) (ws : sock) (p : WSPayload) :
  run boot evs = Some st →
  (ws, p) ∈ sent (bot st) →
  Opened (Some ws) ∈ evs ∧ outgoing p = true.
Proof.
  intros Hrun Hin.
  apply (run_sent (λ ws, Opened (Some ws) ∈ evs) evs boot st Hrun); try done.
  cbn. by intros ?? ?%elem_of_nil.
Qed.

Lemma only_heartbeats_and_resumes_witness :
  Opened (Some 1%nat) ∈ acknowledged_heartbeat ∧ outgoing (heartbeat 0) = true.
Proof.
  apply (only_heartbeats_and_resumes acknowledged_heartbeat
           (default boot (run boot acknowledged_heartbeat)) 1%nat (heartbeat 0)).
  - vm_compute. reflexivity.
  - vm_compute. apply list_elem_of_here.
Defined.

(** ** The role cache *)

Lemma record_role_list_cases guild_id env cache :
  let out := record_role_list guild_id env cache in
  (out.1.2 = cache)
  ∨ (∃ roles, out.1.1 = Ret tt ∧ out.2 ≠ []
       ∧ out.1.2 = mkCache (<[guild_id := roles]> (guild_role cache))
                     (<[guild_id := clock_at_store env]> (cache_create_time cache)))
  ∨ (out.1.1 = Ret tt ∧ out.2 ≠ []
       ∧ out.1.2 = mkCache (delete guild_id (guild_role cache))
                     (<[guild_id := clock_at_store env]> (cache_create_time cache))).
Proof.
  unfold record_role_list. cbn zeta.
  destruct (match cache_create_time cache !! guild_id with
            | Some t => fresh_at (clock_at_test env) t | None => false end);
    [by left|].
  destruct (__check_response (response_text env)) as [res|e]; [|by left].
  destruct (truthy res).
  - destruct (rbind _ _) as [roles|e]; [|by left].
    right; left. by exists roles.
  - right; right. done.
Qed.

(** X6: [record_role_list] for one guild leaves what the cache holds for
    every other guild, roles and age, as it was, whatever the call
    meets. *)
Theorem record_role_list_other_guilds
    (guild_id other : string) (env : outside) (cache : RolePermissionCache) :
  other ≠ guild_id →
  let cache' := (record_role_list guild_id env cache).1.2 in
  guild_role cache' !! other = guild_role cache !! other
  ∧ cache_create_time cache' !! other = cache_create_time cache !! other.
Proof.
  intros Hne. cbn zeta.
  destruct (record_role_list_cases guild_id env cache)
    as [-> | [(roles & _ & _ & ->) | (_ & _ & ->)]]; cbn.
  - done.
  - by rewrite !lookup_insert_ne.
  - by rewrite lookup_delete_ne, lookup_insert_ne.
Qed.

Lemma record_role_list_other_guilds_witness :
  let cache' := (record_role_list "h" no_answer stale_cache).1.2 in
  guild_role cache' !! "g"%string = guild_role stale_cache !! "g"%string
  ∧ cache_create_time cache' !! "g"%string = cache_create_time stale_cache !! "g"%string.
Proof.
  apply (record_role_list_other_guilds "h" "g" no_answer stale_cache).
  done.
Defined.

(** X7: once a call of [record_role_list] has asked the server and
    returned, a second call for the same guild made less than ten seconds
    after the first one stored its time asks nothing and changes nothing;
    this holds as well when the first answer was empty and the roles were
    dropped. *)
Theorem record_role_list_throttle
    (guild_id : string) (env env2 : outside) (cache cache' : RolePermissionCache)
    (requests : list (string * string)) :
  record_role_list guild_id env cache = (Ret tt, cache', requests) →
  requests ≠ [] →
  (clock_at_test env2 - clock_at_store env < 10)%Q →
  record_role_list guild_id env2 cache' = (Ret tt, cache', []).
Proof.
  intros Hcall Hreq Hsoon.
  assert (Hage : cache_create_time cache' !! guild_id = Some (clock_at_store env)).
  { revert Hcall. unfold record_role_list. cbn zeta.
    destruct (match cache_create_time cache !! guild_id with
              | Some t => fresh_at (clock_at_test env) t | None => false end).
    { intros; simplify_eq. }
    destruct (__check_response (response_text env)) as [res|e]; [|done].
    destruct (truthy res).
    - destruct (rbind _ _) as [roles|e]; [|done].
      intros; simplify_eq. cbn. by rewrite lookup_insert_eq.
    - intros; simplify_eq. cbn. by rewrite lookup_insert_eq. }
  unfold record_role_list. rewrite Hage. unfold fresh_at.
  destruct (Qlt_le_dec _ _) as [_|Hle]; [done|].
  exfalso. eapply Qlt_not_le; eassumption.
Qed.

Lemma record_role_list_throttle_witness :
  record_role_list "g" (mkOutside 205 (Some Garbled) 206)
    (record_role_list "g" no_answer stale_cache).1.2
  = (Ret tt, (record_role_list "g" no_answer stale_cache).1.2, []).
Proof.
  apply (record_role_list_throttle "g" no_answer (mkOutside 205 (Some Garbled) 206)
           stale_cache _ [("/guild-role/list"%string, "g"%string)]).
  - vm_compute. reflexivity.
  - done.
  - vm_compute. reflexivity.
Defined.

(** ** HTTP answers *)

(** X8: what [__check_response] returns is [None] for no answer, and
    otherwise the decoded body itself, which then carries no [code] other
    than 0: a body with a [code] that does not compare equal to the
    number 0 (a string such as '0' included) is never handed to the
    caller. *)
Theorem check_response_no_error_code (response_text : option http_body)
    (data : json) :
  __check_response response_text = Ret data →
  match response_text with
  | None => data = JNull
  | Some answer =>
      answer = Decoded data
      ∧ ∀ code, getitem data "code" = Ret code → py_eq code (JInt 0) = true
  end.
Proof.
  unfold __check_response. destruct response_text as [[|body]|].
  - discriminate.
  - destruct (contains "code" body) as [[|]|] eqn:Hc; cbn [rbind]; [| |discriminate].
    + destruct (getitem body "code") as [code|] eqn:Hg; cbn [rbind]; [|discriminate].
      destruct (py_eq code (JInt 0)) eqn:He; cbn [negb]; [|discriminate].
      intros [= <-]. split; [done|]. intros c Hcode. congruence.
    + intros [= <-]. split; [done|]. intros c Hcode.
      destruct body; try discriminate. cbn in Hc, Hcode.
      destruct (assoc "code" fields); discriminate.
  - by intros [= <-].
Qed.

Lemma check_response_no_error_code_witness :
  py_eq (JInt 0) (JInt 0) = true.
Proof.
  apply (proj2 (check_response_no_error_code gateway_response
                  (JObj [("code", JInt 0);
                         ("data", JObj [("url", JStr "wss://gateway")])])
                  eq_refl) (JInt 0)).
  reflexivity.
Defined.

End KookMore.

(* ===================================================================== *)
(** * More about the handler registry *)
(* ===================================================================== *)

Module HandlerMore.
Import Py Handler HandlerProofs.

Lemma content_at st i f r :
  factories st !! i = Some f →
  content st i r = match list_of r f with
                   | Some l => deref (lists st) l
                   | None => []
                   end.
Proof. intros H. unfold content. by rewrite H. Qed.

Lemma combine_target st target parent t p :
  factories st !! target = Some t →
  factories st !! parent = Some p →
  factories (combine_factory target parent st) !! target
  = Some (combined t p (lists st)).
Proof.
  intros Ht Hp. rewrite (combine_factory_unfold _ _ _ _ _ Ht Hp). cbn.
  by rewrite lookup_insert_eq.
Qed.

Lemma combine_other st target parent i :
  i ≠ target →
  factories (combine_factory target parent st) !! i = factories st !! i.
Proof.
  intros Hne.
  destruct (factories st !! target) as [t|] eqn:Ht;
    [|by unfold combine_factory; rewrite Ht].
  destruct (factories st !! parent) as [p|] eqn:Hp;
    [|by unfold combine_factory; rewrite Ht, Hp].
  rewrite (combine_factory_unfold _ _ _ _ _ Ht Hp). cbn.
  by rewrite lookup_insert_ne.
Qed.

Lemma combine_list_of st target parent t p r :
  wf st →
  factories st !! target = Some t →
  factories st !! parent = Some p →
  list_of r (combined t p (lists st))
  = match list_of r t with
    | Some l => Some l
    | None => list_of r p
    end.
Proof.
  intros (ρ & Hwf) Ht Hp.
  destruct (Hwf _ _ Ht) as (_ & Hot & _), (Hwf _ _ Hp) as (_ & Hop & _).
  by destruct (combine_spec ρ t p (lists st) Hot Hop) as (Hl & _).
Qed.

(** A list that serves one role in one factory serves the same role
    wherever else it is referenced. *)
Lemma wf_role st i j fi fj r r' l :
  wf st →
  factories st !! i = Some fi → factories st !! j = Some fj →
  list_of r fi = Some l → list_of r' fj = Some l → r = r'.
Proof.
  intros (ρ & Hwf) Hi Hj Hl Hl'.
  destruct (Hwf _ _ Hi) as (_ & (Hρi & _) & _), (Hwf _ _ Hj) as (_ & (Hρj & _) & _).
  rewrite <- (Hρi _ _ Hl). by apply Hρj.
Qed.

Lemma combine_content_others st target parent other r :
  wf st →
  separate st target other →
  content (combine_factory target parent st) other r = content st other r.
Proof.
  intros Hwf (Hne & Hsep).
  destruct (factories st !! target) as [t|] eqn:Ht;
    [|by unfold combine_factory; rewrite Ht].
  destruct (factories st !! parent) as [p|] eqn:Hp;
    [|by unfold combine_factory; rewrite Ht, Hp].
  unfold content. rewrite combine_other by done.
  destruct (factories st !! other) as [fo|] eqn:Ho; [|done].
  destruct (list_of r fo) as [l|] eqn:Hl; [|done].
  apply (combine_frame st target parent t p l Hwf Ht Hp).
  intros r' Hr'. by apply (Hsep t fo eq_refl eq_refl r' r l).
Qed.

Lemma separate_bot_and_plugin : separate bot_and_plugin 0%nat 1%nat.
Proof.
  split; [done|]. intros fa fb Ha Hb. vm_compute in Ha, Hb. simplify_eq.
  intros [| | | | |k|k] [| | | | |k'|k'] l; cbn;
    repeat (case_match; simplify_eq); try done; intros; by simplify_eq.
Qed.

(** ** [combine_factory] and the factories around it *)

(** X9: [combine_factory] changes nothing in a factory that shares no
    list with the target; in particular the parent keeps what it holds,
    in every role. *)
Theorem combine_factory_leaves_others
    (st : Store) (target parent other : fid) (r : role) :
  wf st →
  separate st target other →
  content (combine_factory target parent st) other r = content st other r
  ∧ group_config <$> (factories (combine_factory target parent st) !! other)
    = group_config <$> (factories st !! other).
Proof.
  intros Hwf Hsep. split; [by apply combine_content_others|].
  destruct Hsep as [Hne _]. rewrite combine_other; [done|by apply not_eq_sym].
Qed.

Lemma combine_factory_leaves_others_witness :
  content (combine_factory 0%nat 1%nat bot_and_plugin) 1%nat (REvent "join")
  = content bot_and_plugin 1%nat (REvent "join").
Proof.
  refine (proj1 (combine_factory_leaves_others bot_and_plugin 0%nat 1%nat 1%nat
                   (REvent "join") _ _)).
  - apply wf_built.
  - apply separate_bot_and_plugin.
Defined.

(** X10: combining a factory with itself doubles what it holds in every
    role: each [+=] appends the list to itself. *)
Theorem combine_factory_with_itself (st : Store) (self : fid) (r : role) :
  wf st →
  content (combine_factory self self st) self r
  = content st self r ++ content st self r.
Proof.
  intros Hwf. destruct (factories st !! self) as [f|] eqn:Hf.
  - by apply (combine_law st self self f f).
  - unfold combine_factory. rewrite Hf. unfold content. by rewrite Hf.
Qed.

Lemma combine_factory_with_itself_witness :
  content (combine_factory 1%nat 1%nat bot_and_plugin) 1%nat (REvent "ready")
  = content bot_and_plugin 1%nat (REvent "ready")
    ++ content bot_and_plugin 1%nat (REvent "ready").
Proof.
  apply (combine_factory_with_itself bot_and_plugin 1%nat (REvent "ready")).
  apply wf_built.
Defined.

(** X11: two factories combined into one target one after the other
    leave it with its own entries first, then the first factory's, then
    the second's, in every role. *)
Theorem combine_factory_in_load_order
    (st : Store) (target first second : fid) (r : role) :
  wf st →
  separate st target second →
  is_Some (factories st !! target) →
  is_Some (factories st !! first) →
  is_Some (factories st !! second) →
  content (combine_factory target second (combine_factory target first st)) target r
  = content st target r ++ content st first r ++ content st second r.
Proof.
  intros Hwf Hsep [t Ht] [p Hp] [q Hq].
  pose proof (combine_wf st target first Hwf) as Hwf1.
  pose proof (combine_target st target first t p Ht Hp) as Ht1.
  assert (factories (combine_factory target first st) !! second = Some q) as Hq1.
  { rewrite combine_other; [done|]. destruct Hsep as [Hne _]. by apply not_eq_sym. }
  rewrite (combine_law _ target second _ q Hwf1 Ht1 Hq1 r).
  rewrite (combine_law st target first t p Hwf Ht Hp r).
  rewrite (combine_content_others st target first second r Hwf Hsep).
  by rewrite <- app_assoc.
Qed.

Lemma wf_bot_and_two_plugins : wf bot_and_two_plugins.
Proof.
  unfold bot_and_two_plugins, bot_and_plugin. rewrite <- foldl_app. apply wf_built.
Qed.

Lemma combine_factory_in_load_order_witness :
  content (combine_factory 0%nat 2%nat (combine_factory 0%nat 1%nat bot_and_two_plugins))
          0%nat (REvent "ready")
  = content bot_and_two_plugins 0%nat (REvent "ready")
    ++ content bot_and_two_plugins 1%nat (REvent "ready")
    ++ content bot_and_two_plugins 2%nat (REvent "ready").
Proof.
  apply (combine_factory_in_load_order bot_and_two_plugins 0%nat 1%nat 2%nat
           (REvent "ready")).
  - apply wf_bot_and_two_plugins.
  - split; [done|]. intros fa fb Ha Hb. vm_compute in Ha, Hb. simplify_eq.
    intros [| | | | |k|k] [| | | | |k'|k'] l; cbn;
      repeat (case_match; simplify_eq); try done; intros; by simplify_eq.
  - vm_compute. eauto.
  - vm_compute. eauto.
  - vm_compute. eauto.
Defined.

(** ** Registration by name: [on_event] and [on_exception] *)

(** The loop of [on_event] and [on_exception] over the names. *)
Ltac nlia := unfold loc in *; lia.

Lemma register_under_content func names : ∀ (d : list (string * loc)) h (next : loc),
  (∀ k l, assoc k d = Some l → (l < next)%nat) →
  (∀ k k' l, assoc k d = Some l → assoc k' d = Some l → k = k') →
  let out := foldl (register_under func) (d, h, next) names in
  (next ≤ out.2)%nat
  ∧ (∀ k l, assoc k d = Some l →
       assoc k out.1.1 = Some l
       ∧ deref out.1.2 l
         = deref h l ++ replicate (count_occ String.string_dec names k) (Callback func))
  ∧ (∀ k, assoc k d = None →
       match assoc k out.1.1 with
       | Some l => (next ≤ l < out.2)%nat ∧ k ∈ names
                   ∧ deref out.1.2 l
                     = replicate (count_occ String.string_dec names k) (Callback func)
       | None => k ∉ names
       end)
  ∧ (∀ l, (l < next)%nat → (∀ k, assoc k d ≠ Some l) →
          deref out.1.2 l = deref h l).
Proof.
  induction names as [|name names IH]; intros d h next Hb Hinj.
  { cbn. split; [done|]. split; [|split; [|done]].
    - intros k l Hk. by rewrite app_nil_r.
    - intros k Hk. cbn. rewrite Hk. by intros ?%elem_of_nil. }
  cbn [foldl].
  replace (register_under func (d, h, next) name)
    with (match assoc name d with
          | Some l => (d, append l (Callback func) h, next)
          | None => (d ++ [(name, next)],
                     append next (Callback func) (<[next := []]> h), (S next : loc))
          end) by done.
  destruct (assoc name d) as [l0|] eqn:Hname.
  - destruct (IH d (append l0 (Callback func) h) next Hb Hinj)
      as (Hle & Hold & Hnew & Hframe).
    cbn zeta in *. split; [done|]. split; [|split].
    + intros k l Hk. destruct (Hold k l Hk) as [-> ->]. split; [done|].
      unfold append. destruct (String.string_dec name k) as [->|Hne].
      * assert (l = l0) as -> by congruence.
        rewrite deref_insert, count_occ_cons_eq by done.
        by rewrite <- app_assoc.
      * rewrite count_occ_cons_neq by done.
        rewrite deref_insert_ne; [done|]. intros ->. apply Hne.
        by apply (Hinj name k l).
    + intros k Hk. specialize (Hnew k Hk).
      assert (name ≠ k) as Hne by congruence.
      rewrite count_occ_cons_neq by done.
      destruct (assoc k (foldl _ _ _).1.1) as [l|].
      * destruct Hnew as (? & ? & ?). split; [done|]. split; [by right|done].
      * intros [->|?]%elem_of_cons; done.
    + intros l Hl Hfree. rewrite (Hframe l Hl Hfree). unfold append.
      apply deref_insert_ne. intros ->. by apply (Hfree name).
  - destruct (IH (d ++ [(name, next)])
                (append next (Callback func) (<[next := []]> h)) (S next))
      as (Hle & Hold & Hnew & Hframe).
    { intros k l. rewrite assoc_app. destruct (assoc k d) as [l'|] eqn:E.
      - intros [= <-]. specialize (Hb _ _ E). nlia.
      - cbn. destruct (String.eqb k name); [|done]. intros [= <-]. nlia. }
    { intros k k' l. rewrite !assoc_app.
      destruct (assoc k d) as [l1|] eqn:E1, (assoc k' d) as [l2|] eqn:E2; cbn.
      - intros [= <-] [= <-]. by apply (Hinj k k' l2).
      - destruct (String.eqb_spec k' name); [|done].
        intros [= <-] [= ?]. specialize (Hb _ _ E1). nlia.
      - destruct (String.eqb_spec k name); [|done].
        intros [= ?] [= <-]. specialize (Hb _ _ E2). nlia.
      - destruct (String.eqb_spec k name), (String.eqb_spec k' name); try done.
        congruence. }
    assert (Hfresh : ∀ l, (l < next)%nat →
              deref (append next (Callback func) (<[next := []]> h)) l = deref h l).
    { intros l Hl. unfold append.
      rewrite !deref_insert_ne by nlia. done. }
    cbn zeta in *. split; [nlia|]. split; [|split].
    + intros k l Hk.
      assert (name ≠ k) as Hne by congruence.
      destruct (Hold k l) as [-> ->].
      { by rewrite assoc_app, Hk. }
      split; [done|]. rewrite count_occ_cons_neq by done.
      by rewrite Hfresh by by eapply Hb.
    + intros k Hk. destruct (String.string_dec name k) as [<-|Hne].
      * destruct (Hold name next) as [-> ->].
        { rewrite assoc_app, Hname. cbn. by rewrite String.eqb_refl. }
        split; [nlia|]. split; [by left|].
        rewrite count_occ_cons_eq by done. unfold append.
        by rewrite !deref_insert.
      * rewrite count_occ_cons_neq by done.
        specialize (Hnew k). rewrite assoc_app, Hk in Hnew. cbn in Hnew.
        destruct (String.eqb_spec k name) as [?|_]; [congruence|].
        specialize (Hnew eq_refl).
        destruct (assoc k (foldl _ _ _).1.1) as [l|].
        -- destruct Hnew as (? & ? & ?). split; [nlia|]. split; [by right|done].
        -- intros [->|?]%elem_of_cons; done.
    + intros l Hl Hfree. rewrite Hframe; [by apply Hfresh|nlia|].
      intros k. rewrite assoc_app. destruct (assoc k d) eqn:E.
      * intros [= <-]. by apply (Hfree k).
      * cbn. destruct (String.eqb k name); [|done]. intros [= <-]. nlia.
Qed.

Lemma times_absent func names k : k ∉ names → times func names k = [].
Proof.
  intros Hk. unfold times. rewrite (proj1 (count_occ_not_In _ _ _)); [done|].
  by rewrite <- list_elem_of_In.
Qed.

Section by_name.
Context (mk : string → role) (mk_inj : Inj (=) (=) mk).
Context (dict_of : BotHandlerFactory → list (string * loc)).
Context (Hdict : ∀ f k, list_of (mk k) f = assoc k (dict_of f)).

Lemma register_under_store st f names func :
  wf st → (∃ i, factories st !! i = Some f) →
  let out := foldl (register_under func) (dict_of f, lists st, next_loc st) names in
  (∀ k l, assoc k (dict_of f) = Some l →
     assoc k out.1.1 = Some l
     ∧ deref out.1.2 l = deref (lists st) l ++ times func names k)
  ∧ (∀ k, assoc k (dict_of f) = None →
       match assoc k out.1.1 with
       | Some l => deref out.1.2 l = times func names k
       | None => times func names k = []
       end)
  ∧ (∀ l, (l < next_loc st)%nat → (∀ k, assoc k (dict_of f) ≠ Some l) →
          deref out.1.2 l = deref (lists st) l).
Proof.
  intros (ρ & Hwf) (i & Hf). destruct (Hwf _ _ Hf) as (_ & (Hρ & _) & Hb).
  destruct (register_under_content func names (dict_of f) (lists st) (next_loc st))
    as (_ & Hold & Hnew & Hframe).
  { intros k l Hk. apply (Hb (mk k)). by rewrite Hdict. }
  { intros k k' l Hk Hk'. apply mk_inj.
    rewrite <- (Hρ (mk k) l), <- (Hρ (mk k') l); by rewrite ?Hdict. }
  cbn zeta in *. split; [done|]. split; [|done].
  intros k Hk. specialize (Hnew k Hk).
  destruct (assoc k (foldl _ _ _).1.1) as [l|].
  - by destruct Hnew as (_ & _ & ?).
  - by apply times_absent.
Qed.

End by_name.

Lemma on_event_spec st self f events func :
  wf st → factories st !! self = Some f →
  let st' := on_event self events func st in
  ∃ d', factories st' = <[self := set_event_handlers d' f]> (factories st)
    ∧ (∀ k l, assoc k (event_handlers f) = Some l →
         assoc k d' = Some l
         ∧ deref (lists st') l = deref (lists st) l ++ times func events k)
    ∧ (∀ k, assoc k (event_handlers f) = None →
         match assoc k d' with
         | Some l => deref (lists st') l = times func events k
         | None => times func events k = []
         end)
    ∧ (∀ l, (l < next_loc st)%nat → (∀ k, assoc k (event_handlers f) ≠ Some l) →
            deref (lists st') l = deref (lists st) l).
Proof.
  intros Hwf Hf.
  pose proof (register_under_store REvent REvent_inj event_handlers (λ _ _, eq_refl)
                st f events func Hwf (ex_intro _ self Hf)) as H.
  cbn zeta in *. unfold on_event. rewrite Hf.
  destruct (foldl _ _ events) as [[d h] next]. cbn [fst snd] in H.
  exists d. cbn [factories lists]. done.
Qed.

Lemma on_exception_spec st self f exceptions func :
  wf st → factories st !! self = Some f →
  let st' := on_exception self exceptions func st in
  ∃ d', factories st' = <[self := set_exception_handlers d' f]> (factories st)
    ∧ (∀ k l, assoc k (exception_handlers f) = Some l →
         assoc k d' = Some l
         ∧ deref (lists st') l = deref (lists st) l ++ times func exceptions k)
    ∧ (∀ k, assoc k (exception_handlers f) = None →
         match assoc k d' with
         | Some l => deref (lists st') l = times func exceptions k
         | None => times func exceptions k = []
         end)
    ∧ (∀ l, (l < next_loc st)%nat → (∀ k, assoc k (exception_handlers f) ≠ Some l) →
            deref (lists st') l = deref (lists st) l).
Proof.
  intros Hwf Hf.
  pose proof (register_under_store RException RException_inj exception_handlers (λ _ _, eq_refl)
                st f exceptions func Hwf (ex_intro _ self Hf)) as H.
  cbn zeta in *. unfold on_exception. rewrite Hf.
  destruct (foldl _ _ exceptions) as [[d h] next]. cbn [fst snd] in H.
  exists d. cbn [factories lists]. done.
Qed.


Lemma wf_bound st i fi r l :
  wf st → factories st !! i = Some fi → list_of r fi = Some l →
  (l < next_loc st)%nat.
Proof. intros (ρ & Hwf) Hi Hl. destruct (Hwf _ _ Hi) as (_ & _ & Hb). by eapply Hb. Qed.

(** Registration under names leaves alone every list that is held, by
    any factory, in a role other than one of the names. *)
Lemma on_event_frame st self f events func i fi r l :
  wf st → factories st !! self = Some f →
  factories st !! i = Some fi → list_of r fi = Some l →
  (∀ k, k ∈ events → r ≠ REvent k) →
  deref (lists (on_event self events func st)) l = deref (lists st) l.
Proof.
  intros Hwf Hf Hi Hl Hr.
  destruct (on_event_spec st self f events func Hwf Hf) as (d' & _ & Hold & _ & Hframe).
  pose proof (wf_bound _ _ _ _ _ Hwf Hi Hl) as Hb.
  assert (Hrole : ∀ k, assoc k (event_handlers f) = Some l → r = REvent k).
  { intros k Hk. by apply (wf_role st i self fi f r (REvent k) l). }
  destruct r as [| | | | |k|k].
  1-5,7: apply Hframe; [done|]; intros k' Hk'; by specialize (Hrole k' Hk').
  destruct (assoc k (event_handlers f)) as [l'|] eqn:Hk.
  - destruct (decide (l' = l)) as [->|Hne].
    + destruct (Hold k l Hk) as [_ ->]. rewrite times_absent; [by rewrite app_nil_r|].
      intros Hin. by apply (Hr k Hin).
    + apply Hframe; [done|]. intros k' Hk'. specialize (Hrole k' Hk'). simplify_eq.
  - apply Hframe; [done|]. intros k' Hk'. specialize (Hrole k' Hk'). simplify_eq.
Qed.

(** X12: [on_event(events)(func)] adds [func] at the end of the
    factory's list for each name, once for each time the name occurs in
    [events], creating the list where the name was not known; what any
    factory of the store holds in any other role stays as it was. *)
Theorem on_event_registers
    (st : Store) (self : fid) (events : list string) (func : callable) :
  wf st →
  is_Some (factories st !! self) →
  let st' := on_event self events func st in
  (∀ k, content st' self (REvent k)
        = content st self (REvent k) ++ times func events k)
  ∧ (∀ i r, (∀ k, k ∈ events → r ≠ REvent k) →
            content st' i r = content st i r).
Proof.
  intros Hwf [f Hf]. cbn zeta.
  destruct (on_event_spec st self f events func Hwf Hf) as (d' & Hfac & Hold & Hnew & _).
  assert (Hself : ∀ k, content (on_event self events func st) self (REvent k)
                       = content st self (REvent k) ++ times func events k).
  { intros k. unfold content. rewrite Hfac, lookup_insert_eq, Hf. cbn.
    destruct (assoc k (event_handlers f)) as [l|] eqn:Hk.
    - by destruct (Hold k l Hk) as [-> ->].
    - specialize (Hnew k Hk). destruct (assoc k d'); by rewrite Hnew. }
  split; [done|]. intros i r Hr.
  destruct (decide (i = self)) as [->|Hne].
  - destruct r as [| | | | |k|k].
    6: { rewrite Hself, times_absent; [by rewrite app_nil_r|].
         intros Hin. by apply (Hr k Hin). }
    all: unfold content; rewrite Hfac, lookup_insert_eq, Hf.
    all: cbn [list_of set_event_handlers prefix_keywords message_handlers
              after_reply_handlers before_reply_handlers
              message_handler_middleware exception_handlers].
    1-5: by eapply (on_event_frame st self f events func self f); [..|exact Hr].
    destruct (assoc k (exception_handlers f)) as [l|] eqn:Hk; [|done].
    by eapply (on_event_frame st self f events func self f (RException k)).
  - unfold content. rewrite Hfac, lookup_insert_ne by done.
    destruct (factories st !! i) as [fi|] eqn:Hi; [|done].
    destruct (list_of r fi) as [l|] eqn:Hl; [|done].
    by eapply on_event_frame.
Qed.

Lemma on_event_registers_witness :
  content (on_event 0%nat ["ready"; "ready"; "leave"]%string 12%nat bot_and_plugin)
          0%nat (REvent "ready")
  = content bot_and_plugin 0%nat (REvent "ready")
    ++ times 12%nat ["ready"; "ready"; "leave"]%string "ready".
Proof.
  refine (proj1 (on_event_registers bot_and_plugin 0%nat
                   ["ready"; "ready"; "leave"]%string 12%nat _ _) "ready"%string).
  - apply wf_built.
  - vm_compute. eauto.
Defined.

(** Registration under names leaves alone every list that is held, by
    any factory, in a role other than one of the names. *)
Lemma on_exception_frame st self f exceptions func i fi r l :
  wf st → factories st !! self = Some f →
  factories st !! i = Some fi → list_of r fi = Some l →
  (∀ k, k ∈ exceptions → r ≠ RException k) →
  deref (lists (on_exception self exceptions func st)) l = deref (lists st) l.
Proof.
  intros Hwf Hf Hi Hl Hr.
  destruct (on_exception_spec st self f exceptions func Hwf Hf) as (d' & _ & Hold & _ & Hframe).
  pose proof (wf_bound _ _ _ _ _ Hwf Hi Hl) as Hb.
  assert (Hrole : ∀ k, assoc k (exception_handlers f) = Some l → r = RException k).
  { intros k Hk. by apply (wf_role st i self fi f r (RException k) l). }
  destruct r as [| | | | |k|k].
  1-6: apply Hframe; [done|]; intros k' Hk'; by specialize (Hrole k' Hk').
  destruct (assoc k (exception_handlers f)) as [l'|] eqn:Hk.
  - destruct (decide (l' = l)) as [->|Hne].
    + destruct (Hold k l Hk) as [_ ->]. rewrite times_absent; [by rewrite app_nil_r|].
      intros Hin. by apply (Hr k Hin).
    + apply Hframe; [done|]. intros k' Hk'. specialize (Hrole k' Hk'). simplify_eq.
  - apply Hframe; [done|]. intros k' Hk'. specialize (Hrole k' Hk'). simplify_eq.
Qed.

(** X13: [on_exception(exceptions)(func)] adds [func] at the end of the
    factory's list for each name, once for each time the name occurs in
    [exceptions], creating the list where the name was not known; what any
    factory of the store holds in any other role stays as it was. *)
Theorem on_exception_registers
    (st : Store) (self : fid) (exceptions : list string) (func : callable) :
  wf st →
  is_Some (factories st !! self) →
  let st' := on_exception self exceptions func st in
  (∀ k, content st' self (RException k)
        = content st self (RException k) ++ times func exceptions k)
  ∧ (∀ i r, (∀ k, k ∈ exceptions → r ≠ RException k) →
            content st' i r = content st i r).
Proof.
  intros Hwf [f Hf]. cbn zeta.
  destruct (on_exception_spec st self f exceptions func Hwf Hf) as (d' & Hfac & Hold & Hnew & _).
  assert (Hself : ∀ k, content (on_exception self exceptions func st) self (RException k)
                       = content st self (RException k) ++ times func exceptions k).
  { intros k. unfold content. rewrite Hfac, lookup_insert_eq, Hf. cbn.
    destruct (assoc k (exception_handlers f)) as [l|] eqn:Hk.
    - by destruct (Hold k l Hk) as [-> ->].
    - specialize (Hnew k Hk). destruct (assoc k d'); by rewrite Hnew. }
  split; [done|]. intros i r Hr.
  destruct (decide (i = self)) as [->|Hne].
  - destruct r as [| | | | |k|k].
    7: { rewrite Hself, times_absent; [by rewrite app_nil_r|].
         intros Hin. by apply (Hr k Hin). }
    all: unfold content; rewrite Hfac, lookup_insert_eq, Hf.
    all: cbn [list_of set_exception_handlers prefix_keywords message_handlers
              after_reply_handlers before_reply_handlers
              message_handler_middleware event_handlers].
    1-5: by eapply (on_exception_frame st self f exceptions func self f); [..|exact Hr].
    destruct (assoc k (event_handlers f)) as [l|] eqn:Hk; [|done].
    by eapply (on_exception_frame st self f exceptions func self f (REvent k)).
  - unfold content. rewrite Hfac, lookup_insert_ne by done.
    destruct (factories st !! i) as [fi|] eqn:Hi; [|done].
    destruct (list_of r fi) as [l|] eqn:Hl; [|done].
    by eapply on_exception_frame.
Qed.

Lemma on_exception_registers_witness :
  content (on_exception 1%nat ["Exception"; "KeyError"; "KeyError"]%string 12%nat bot_and_plugin)
          1%nat (RException "KeyError")
  = content bot_and_plugin 1%nat (RException "KeyError")
    ++ times 12%nat ["Exception"; "KeyError"; "KeyError"]%string "KeyError".
Proof.
  refine (proj1 (on_exception_registers bot_and_plugin 1%nat
                   ["Exception"; "KeyError"; "KeyError"]%string 12%nat _ _) "KeyError"%string).
  - apply wf_built.
  - vm_compute. eauto.
Defined.

(** ** What the target and the parent share after [combine_factory] *)

Lemma times_once func k : times func [k] k = [Callback func].
Proof. unfold times. cbn. by destruct (String.string_dec k k). Qed.

Lemma on_event_other st self events func i :
  wf st → i ≠ self →
  factories (on_event self events func st) !! i = factories st !! i.
Proof.
  intros Hwf Hne. destruct (factories st !! self) as [f|] eqn:Hf.
  - destruct (on_event_spec st self f events func Hwf Hf) as (d' & -> & _).
    by rewrite lookup_insert_ne.
  - unfold on_event. by rewrite Hf.
Qed.

(** X14: an event name that only the parent knew is served, after
    [combine_factory], by one list that both factories hold: a handler
    registered for it afterwards on either of them is found in the
    other one as well. *)
Theorem combine_factory_shares_lists
    (st : Store) (target parent : fid) (t p : BotHandlerFactory)
    (k : string) (func : callable) :
  wf st →
  separate st target parent →
  factories st !! target = Some t →
  factories st !! parent = Some p →
  assoc k (event_handlers t) = None →
  is_Some (assoc k (event_handlers p)) →
  let st1 := combine_factory target parent st in
  content (on_event target [k] func st1) parent (REvent k)
  = content st parent (REvent k) ++ [Callback func]
  ∧ content (on_event parent [k] func st1) target (REvent k)
    = content st parent (REvent k) ++ [Callback func].
Proof.
  intros Hwf Hsep Ht Hp Hkt [lp Hkp]. cbn zeta.
  pose proof Hsep as [Hne _].
  pose proof (combine_wf st target parent Hwf) as Hwf1.
  pose proof (combine_target st target parent t p Ht Hp) as Ht1.
  assert (factories (combine_factory target parent st) !! parent = Some p) as Hp1.
  { rewrite combine_other; [done|by apply not_eq_sym]. }
  assert (assoc k (event_handlers (combined t p (lists st))) = Some lp) as Hk1.
  { pose proof (combine_list_of st target parent t p (REvent k) Hwf Ht Hp) as H.
    cbn in H. by rewrite Hkt, Hkp in H. }
  assert (deref (lists (combine_factory target parent st)) lp
          = content st parent (REvent k)) as Hlp.
  { rewrite <- (combine_content_others st target parent parent (REvent k) Hwf Hsep).
    rewrite (content_at _ _ _ _ Hp1). cbn. by rewrite Hkp. }
  split.
  - destruct (on_event_spec _ target _ [k] func Hwf1 Ht1) as (d' & Hfac & Hold & _).
    destruct (Hold k lp Hk1) as [_ Hd].
    unfold content. rewrite on_event_other, Hp1 by (done || by apply not_eq_sym).
    cbn [list_of]. rewrite Hkp, Hd, times_once. by rewrite Hlp.
  - destruct (on_event_spec _ parent _ [k] func Hwf1 Hp1) as (d' & Hfac & Hold & _).
    destruct (Hold k lp Hkp) as [_ Hd].
    unfold content. rewrite on_event_other, Ht1 by done.
    cbn [list_of]. rewrite Hk1, Hd, times_once. by rewrite Hlp.
Qed.

Lemma combine_factory_shares_lists_witness :
  content (on_event 0%nat ["join"%string] 13%nat
             (combine_factory 0%nat 1%nat bot_and_plugin)) 1%nat (REvent "join")
  = content bot_and_plugin 1%nat (REvent "join") ++ [Callback 13%nat].
Proof.
  refine (proj1 (combine_factory_shares_lists bot_and_plugin 0%nat 1%nat
                   (default fresh_factory (factories bot_and_plugin !! 0%nat))
                   (default fresh_factory (factories bot_and_plugin !! 1%nat))
                   "join" 13%nat _ _ _ _ _ _)).
  - apply wf_built.
  - apply separate_bot_and_plugin.
  - vm_compute. reflexivity.
  - vm_compute. reflexivity.
  - vm_compute. reflexivity.
  - vm_compute. eauto.
Defined.

(** X15: the five sequences, and the lists of the names both factories
    knew, are copied by [combine_factory]: what is registered on the
    parent afterwards does not reach the target. *)
Theorem combine_factory_copies
    (st : Store) (target parent : fid) (t p : BotHandlerFactory)
    (a : on_message_args) (func : callable) (k : string) :
  wf st →
  separate st target parent →
  factories st !! target = Some t →
  factories st !! parent = Some p →
  let st1 := combine_factory target parent st in
  content (on_message parent a func st1) target RMessage = content st1 target RMessage
  ∧ content (before_bot_reply parent func st1) target RBefore = content st1 target RBefore
  ∧ content (after_bot_reply parent func st1) target RAfter = content st1 target RAfter
  ∧ content (handler_middleware parent func st1) target RMiddleware
    = content st1 target RMiddleware
  ∧ (is_Some (assoc k (event_handlers t)) →
     content (on_event parent [k] func st1) target (REvent k)
     = content st1 target (REvent k)).
Proof.
  intros Hwf Hsep Ht Hp. cbn zeta.
  pose proof Hsep as [Hne Hsep'].
  pose proof (combine_wf st target parent Hwf) as Hwf1.
  pose proof (combine_target st target parent t p Ht Hp) as Ht1.
  assert (factories (combine_factory target parent st) !! parent = Some p) as Hp1.
  { rewrite combine_other; [done|by apply not_eq_sym]. }
  assert (Hl : ∀ r lt, list_of r t = Some lt →
                       list_of r (combined t p (lists st)) = Some lt).
  { intros r lt Hlt. by rewrite (combine_list_of st target parent t p r Hwf Ht Hp), Hlt. }
  assert (Hdiff : ∀ r r' lt lp, list_of r t = Some lt → list_of r' p = Some lp → lt ≠ lp).
  { intros r r' lt lp Hlt Hlp ->. by apply (Hsep' t p Ht Hp r r' lp). }
  repeat match goal with |- _ ∧ _ => split end.
  1-4: unfold on_message, before_bot_reply, after_bot_reply, handler_middleware;
    rewrite Hp1; unfold content, with_lists; cbn [factories lists]; rewrite Ht1;
    match goal with
    | |- context [list_of ?r (combined _ _ _)] =>
        rewrite (Hl r _ eq_refl); unfold append;
        apply deref_insert_ne; apply not_eq_sym;
        by apply (Hdiff r r _ _ eq_refl eq_refl)
    end.
  intros [lt Hkt].
  destruct (on_event_spec _ parent _ [k] func Hwf1 Hp1) as (d' & Hfac & _ & _ & Hframe).
  unfold content. rewrite on_event_other, Ht1 by done.
  rewrite (Hl (REvent k) lt Hkt).
  apply Hframe.
  - by apply (wf_bound _ target _ (REvent k) lt Hwf1 Ht1), Hl.
  - intros k' Hk'. by apply (Hdiff (REvent k) (REvent k') lt lt Hkt Hk').
Qed.

Lemma combine_factory_copies_witness :
  content (on_message 1%nat default_args 23%nat
             (combine_factory 0%nat 1%nat bot_and_plugin)) 0%nat RMessage
  = content (combine_factory 0%nat 1%nat bot_and_plugin) 0%nat RMessage.
Proof.
  refine (proj1 (combine_factory_copies bot_and_plugin 0%nat 1%nat
                   (default fresh_factory (factories bot_and_plugin !! 0%nat))
                   (default fresh_factory (factories bot_and_plugin !! 1%nat))
                   default_args 23%nat "ready" _ _ _ _)).
  - apply wf_built.
  - apply separate_bot_and_plugin.
  - vm_compute. reflexivity.
  - vm_compute. reflexivity.
Defined.

(** X16: combining the same parent into the same target a second time
    also changes the parent: under a name that only the parent knew, the
    parent's own list is appended to itself.  Under a name the target
    knew, and in the five sequences, the parent keeps what it had. *)
Theorem combine_factory_twice_grows_parent
    (st : Store) (target parent : fid) (t p : BotHandlerFactory) (r : role) :
  wf st →
  separate st target parent →
  factories st !! target = Some t →
  factories st !! parent = Some p →
  let twice := combine_factory target parent (combine_factory target parent st) in
  (list_of r t = None →
   content twice parent r = content st parent r ++ content st parent r)
  ∧ (is_Some (list_of r t) → content twice parent r = content st parent r).
Proof.
  intros Hwf Hsep Ht Hp. cbn zeta.
  pose proof Hsep as [Hne Hsep'].
  pose proof (combine_wf st target parent Hwf) as Hwf1.
  pose proof (combine_target st target parent t p Ht Hp) as Ht1.
  assert (factories (combine_factory target parent st) !! parent = Some p) as Hp1.
  { rewrite combine_other; [done|by apply not_eq_sym]. }
  pose proof (combine_list_of st target parent t p r Hwf Ht Hp) as Hl1.
  pose proof (combine_content_others st target parent parent r Hwf Hsep) as Hsame.
  split.
  - intros Hnone. rewrite Hnone in Hl1.
    destruct (list_of r p) as [lp|] eqn:Hlp.
    + assert (content (combine_factory target parent (combine_factory target parent st))
                      parent r
              = content (combine_factory target parent (combine_factory target parent st))
                        target r) as ->.
      { unfold content.
        rewrite (combine_target _ target parent _ p Ht1 Hp1).
        rewrite combine_other, Hp1 by by apply not_eq_sym.
        rewrite (combine_list_of _ target parent _ p r Hwf1 Ht1 Hp1).
        by rewrite Hl1, Hlp. }
      rewrite (combine_law _ target parent _ p Hwf1 Ht1 Hp1 r), Hsame.
      rewrite (combine_law st target parent t p Hwf Ht Hp r).
      rewrite (content_at st target t r Ht), Hnone. done.
    + unfold content at 1. rewrite combine_other, Hp1, Hlp by by apply not_eq_sym.
      rewrite (content_at st parent p r Hp), Hlp. done.
  - intros [lt Hlt]. rewrite Hlt in Hl1.
    rewrite <- Hsame.
    unfold content. rewrite !combine_other, Hp by by apply not_eq_sym.
    destruct (list_of r p) as [lp|] eqn:Hlp; [|done].
    apply (combine_frame _ target parent _ p lp Hwf1 Ht1 Hp1).
    intros r' Hr'.
    rewrite (combine_list_of st target parent t p r' Hwf Ht Hp) in Hr'.
    destruct (list_of r' t) as [l'|] eqn:Hl'.
    + simplify_eq. by apply (Hsep' t p Ht Hp r' r lp).
    + assert (r = r') as <- by (by apply (wf_role st parent parent p p r r' lp)).
      congruence.
Qed.

Lemma combine_factory_twice_grows_parent_witness :
  content (combine_factory 0%nat 1%nat (combine_factory 0%nat 1%nat bot_and_plugin))
          1%nat (REvent "join")
  = content bot_and_plugin 1%nat (REvent "join")
    ++ content bot_and_plugin 1%nat (REvent "join").
Proof.
  refine (proj1 (combine_factory_twice_grows_parent bot_and_plugin 0%nat 1%nat
                   (default fresh_factory (factories bot_and_plugin !! 0%nat))
                   (default fresh_factory (factories bot_and_plugin !! 1%nat))
                   (REvent "join") _ _ _ _) _).
  - apply wf_built.
  - apply separate_bot_and_plugin.
  - vm_compute. reflexivity.
  - vm_compute. reflexivity.
  - vm_compute. reflexivity.
Defined.

(** ** The group configuration *)

(** X17: a configuration set on the parent reaches the target with
    [combine_factory] and replaces what the target had for that group id;
    for every other group id the parent's configuration wins where it has
    one and the target's own is kept where it has none. *)
Theorem combine_factory_group_config
    (st : Store) (target parent : fid) (t p : BotHandlerFactory)
    (config : GroupConfig) (g : string) :
  factories st !! target = Some t →
  factories st !! parent = Some p →
  let st' := combine_factory target parent (set_group_config parent config st) in
  (factories st' !! target ≫= λ f, group_config f !! g)
  = if decide (g = cfg_group_id config) then Some config
    else match group_config p !! g with
         | Some c => Some c
         | None => group_config t !! g
         end.
Proof.
  intros Ht Hp. cbn zeta.
  set (p' := set_group_config_dict
               (<[cfg_group_id config := config]> (group_config p)) p).
  assert (factories (set_group_config parent config st) !! parent = Some p') as Hp'.
  { unfold set_group_config. rewrite Hp. cbn. by rewrite lookup_insert_eq. }
  destruct (decide (target = parent)) as [->|Hne].
  - assert (t = p) as -> by congruence.
    rewrite (combine_target _ parent parent p' p' Hp' Hp'). cbn.
    rewrite lookup_union. rewrite !lookup_insert.
    case_decide; subst.
    + rewrite decide_True by done. done.
    + rewrite decide_False by done. by destruct (group_config p !! g).
  - assert (factories (set_group_config parent config st) !! target = Some t) as Ht'.
    { unfold set_group_config. rewrite Hp. cbn. by rewrite lookup_insert_ne. }
    rewrite (combine_target _ target parent t p' Ht' Hp'). cbn.
    rewrite lookup_union. rewrite lookup_insert.
    case_decide; subst.
    + rewrite decide_True by done. by destruct (group_config t !! _).
    + rewrite decide_False by done.
      by destruct (group_config p !! g), (group_config t !! g).
Qed.

Lemma combine_factory_group_config_witness :
  (factories (combine_factory 0%nat 1%nat
                (set_group_config 1%nat (mkGroupConfig "games" true false false)
                   bot_and_plugin)) !! 0%nat
   ≫= λ f, group_config f !! "games"%string)
  = Some (mkGroupConfig "games" true false false).
Proof.
  apply (combine_factory_group_config bot_and_plugin 0%nat 1%nat
           (default fresh_factory (factories bot_and_plugin !! 0%nat))
           (default fresh_factory (factories bot_and_plugin !! 1%nat))
           (mkGroupConfig "games" true false false) "games").
  - vm_compute. reflexivity.
  - vm_compute. reflexivity.
Defined.

(** ** Factories that were never combined *)

Lemma register_under_bindings (mk : string → role) (mk_inj : Inj (=) (=) mk)
    (dict_of : BotHandlerFactory → list (string * loc))
    (Hdict : ∀ f k, list_of (mk k) f = assoc k (dict_of f))
    st f names func :
  wf st → (∃ i, factories st !! i = Some f) →
  ∀ k l,
    assoc k (foldl (register_under func) (dict_of f, lists st, next_loc st) names).1.1
    = Some l →
    assoc k (dict_of f) = Some l ∨ (next_loc st ≤ l)%nat.
Proof.
  intros (ρ & Hwf) (i & Hf) k l. destruct (Hwf _ _ Hf) as (_ & (Hρ & _) & Hb).
  destruct (register_under_content func names (dict_of f) (lists st) (next_loc st))
    as (_ & Hold & Hnew & _).
  { intros k' l' Hk'. apply (Hb (mk k')). by rewrite Hdict. }
  { intros k1 k2 l' Hk1 Hk2. apply mk_inj.
    rewrite <- (Hρ (mk k1) l'), <- (Hρ (mk k2) l'); by rewrite ?Hdict. }
  cbn zeta in *. intros Hl.
  destruct (assoc k (dict_of f)) as [l0|] eqn:Hk.
  - destruct (Hold k l0 Hk) as [Hsame _]. left. congruence.
  - specialize (Hnew k Hk). rewrite Hl in Hnew. right. nlia.
Qed.

Lemma separate_update st st' self f' :
  wf st →
  factories st' = <[self := f']> (factories st) →
  (∀ r l, list_of r f' = Some l →
          (∃ f r0, factories st !! self = Some f ∧ list_of r0 f = Some l)
          ∨ (next_loc st ≤ l)%nat) →
  (∀ a b, a ≠ b → separate st a b) →
  ∀ a b, a ≠ b → separate st' a b.
Proof.
  intros Hwf Hfac Hnew Hsep a b Hab. split; [done|].
  intros fa fb Ha Hb r r' l Hl Hl'. rewrite Hfac in Ha, Hb.
  assert (Hone : ∀ c fc rn rc, c ≠ self → factories st !! c = Some fc →
                   list_of rn f' = Some l → list_of rc fc = Some l → False).
  { intros c fc rn rc Hc Hfc Hln Hlc.
    destruct (Hnew _ _ Hln) as [(f & r0 & Hf & Hl0)|Hfresh].
    - destruct (Hsep self c (not_eq_sym Hc)) as [_ H].
      by apply (H f fc Hf Hfc r0 rc l).
    - pose proof (wf_bound _ _ _ _ _ Hwf Hfc Hlc). nlia. }
  destruct (decide (a = self)) as [->|Ha'], (decide (b = self)) as [->|Hb'].
  - done.
  - rewrite lookup_insert_eq in Ha. rewrite lookup_insert_ne in Hb by done.
    simplify_eq. by eapply Hone.
  - rewrite lookup_insert_eq in Hb. rewrite lookup_insert_ne in Ha by done.
    simplify_eq. by eapply Hone.
  - rewrite lookup_insert_ne in Ha, Hb by done.
    destruct (Hsep a b Hab) as [_ H]. by apply (H fa fb Ha Hb r r' l).
Qed.

Lemma separate_same_factories st st' :
  factories st' = factories st →
  (∀ a b, a ≠ b → separate st a b) →
  ∀ a b, a ≠ b → separate st' a b.
Proof.
  intros Hfac Hsep a b Hab. split; [done|]. rewrite Hfac.
  by destruct (Hsep a b Hab).
Qed.

Lemma separate_exec st c :
  registration c = true →
  wf st →
  (∀ a b, a ≠ b → separate st a b) →
  ∀ a b, a ≠ b → separate (exec st c) a b.
Proof.
  intros Hc Hwf Hsep.
  destruct c as [|self args func|self events func|self exceptions func
                 |self h|self h|self h|self config|target parent];
    [| | | | | | | |done]; cbn [exec].
  - (* __init__ *)
    eapply (separate_update st (new_factory st) (next_fid st));
      [exact Hwf|unfold new_factory; cbn [factories]; reflexivity| |exact Hsep].
    intros r l Hl. right. destruct r; cbn in Hl; simplify_eq; nlia.
  - apply (separate_same_factories st); [|done].
    unfold on_message. by destruct (factories st !! self).
  - destruct (factories st !! self) as [f|] eqn:Hf;
      [|by unfold on_event; rewrite Hf].
    destruct (on_event_spec st self f events func Hwf Hf) as (d' & Hfac & _).
    pose proof (register_under_bindings REvent REvent_inj event_handlers
                  (λ _ _, eq_refl) st f events func Hwf (ex_intro _ self Hf)) as Hbind.
    assert (Hd : d' = (foldl (register_under func)
                         (event_handlers f, lists st, next_loc st) events).1.1).
    { cbn zeta in Hfac. unfold on_event in Hfac. rewrite Hf in Hfac.
      destruct (foldl _ _ events) as [[d h] next]. cbn in Hfac.
      apply (f_equal (lookup self)) in Hfac. rewrite !lookup_insert_eq in Hfac.
      by simplify_eq. }
    apply (separate_update st _ self _ Hwf Hfac); [|done].
    intros r l Hl.
    destruct r as [| | | | |k|k]; cbn in Hl.
    + left. exists f, RPrefix. by simplify_eq.
    + left. exists f, RMessage. by simplify_eq.
    + left. exists f, RAfter. by simplify_eq.
    + left. exists f, RBefore. by simplify_eq.
    + left. exists f, RMiddleware. by simplify_eq.
    + rewrite Hd in Hl. destruct (Hbind k l Hl) as [?|?]; [left|by right].
      by exists f, (REvent k).
    + left. by exists f, (RException k).
  - destruct (factories st !! self) as [f|] eqn:Hf;
      [|by unfold on_exception; rewrite Hf].
    destruct (on_exception_spec st self f exceptions func Hwf Hf) as (d' & Hfac & _).
    pose proof (register_under_bindings RException RException_inj exception_handlers
                  (λ _ _, eq_refl) st f exceptions func Hwf (ex_intro _ self Hf))
      as Hbind.
    assert (Hd : d' = (foldl (register_under func)
                         (exception_handlers f, lists st, next_loc st) exceptions).1.1).
    { cbn zeta in Hfac. unfold on_exception in Hfac. rewrite Hf in Hfac.
      destruct (foldl _ _ exceptions) as [[d h] next]. cbn in Hfac.
      apply (f_equal (lookup self)) in Hfac. rewrite !lookup_insert_eq in Hfac.
      by simplify_eq. }
    apply (separate_update st _ self _ Hwf Hfac); [|done].
    intros r l Hl.
    destruct r as [| | | | |k|k]; cbn in Hl.
    + left. exists f, RPrefix. by simplify_eq.
    + left. exists f, RMessage. by simplify_eq.
    + left. exists f, RAfter. by simplify_eq.
    + left. exists f, RBefore. by simplify_eq.
    + left. exists f, RMiddleware. by simplify_eq.
    + left. by exists f, (REvent k).
    + rewrite Hd in Hl. destruct (Hbind k l Hl) as [?|?]; [left|by right].
      by exists f, (RException k).
  - apply (separate_same_factories st); [|done].
    unfold before_bot_reply. by destruct (factories st !! self).
  - apply (separate_same_factories st); [|done].
    unfold after_bot_reply. by destruct (factories st !! self).
  - apply (separate_same_factories st); [|done].
    unfold handler_middleware. by destruct (factories st !! self).
  - destruct (factories st !! self) as [f|] eqn:Hf;
      [|by unfold set_group_config; rewrite Hf].
    apply (separate_update st _ self
             (set_group_config_dict
                (<[cfg_group_id config := config]> (group_config f)) f) Hwf);
      [by unfold set_group_config; rewrite Hf| |done].
    intros r l Hl. left. exists f, r. split; [done|]. by destruct r.
Qed.

(** X18: factories that are created and filled by [__init__], the
    registration decorators and [set_group_config] never come to share a
    list object, however the calls are interleaved: only
    [combine_factory] makes two factories hold the same list. *)
Theorem registrations_keep_factories_apart (calls : list call) (a b : fid) :
  forallb registration calls = true →
  a ≠ b →
  separate (foldl exec empty_store calls) a b.
Proof.
  intros Hcalls.
  assert (Hgen : ∀ calls st, wf st → (∀ a b, a ≠ b → separate st a b) →
                   forallb registration calls = true →
                   ∀ a b, a ≠ b → separate (foldl exec st calls) a b).
  { clear. induction calls as [|c calls IH]; intros st Hwf Hsep Hall; [done|].
    cbn in Hall. apply andb_prop in Hall as [Hc Hall]. cbn [foldl].
    apply IH; [by apply wf_exec|by apply separate_exec|done]. }
  apply Hgen; [apply wf_empty| |done].
  intros a' b' Hab. split; [done|]. intros fa fb Ha. cbn in Ha.
  by rewrite lookup_empty in Ha.
Qed.

Lemma registrations_keep_factories_apart_witness :
  separate bot_and_plugin 0%nat 1%nat.
Proof.
  apply (registrations_keep_factories_apart
           [New; New;
            OnMessage 0%nat default_args 10%nat;
            OnEvent 0%nat ["ready"%string] 11%nat;
            OnMessage 1%nat default_args 20%nat;
            OnEvent 1%nat ["ready"%string; "join"%string] 21%nat;
            OnException 1%nat ["Exception"%string] 22%nat] 0%nat 1%nat).
  - reflexivity.
  - done.
Defined.

(** ** The module that [load_plugin] imports *)

Section plugin_module.
Import Stdlib.Strings.Ascii.
Local Open Scope string_scope.

Lemma append_nil (b : string) : "" +:+ b = b.
Proof. reflexivity. Qed.

Lemma append_cons c (a b : string) : String c a +:+ b = String c (a +:+ b).
Proof. reflexivity. Qed.

Lemma has_slash_app a b : has_slash (a +:+ b) = has_slash a || has_slash b.
Proof.
  induction a as [|c a IH]; [done|].
  rewrite append_cons. simpl. by rewrite IH, orb_assoc.
Qed.

Lemma basename_app dir name :
  has_slash name = false → basename (dir +:+ String "/" name) = name.
Proof.
  intros Hname. induction dir as [|c dir IH].
  - rewrite append_nil. simpl. by rewrite Hname.
  - rewrite append_cons. simpl. rewrite has_slash_app. simpl.
    by rewrite orb_true_r.
Qed.

Lemma basename_suffix path : ∃ pre, path = pre +:+ basename path.
Proof.
  induction path as [|c rest [pre IH]]; [by exists ""|]. simpl.
  destruct (has_slash rest).
  - exists (String c pre). rewrite append_cons. by f_equal.
  - destruct (Ascii.eqb_spec c "/") as [->|_]; [by exists "/"|by exists ""].
Qed.

Lemma endswith_app pre suffix : endswith (pre +:+ suffix) suffix = true.
Proof.
  induction pre as [|c pre IH].
  - rewrite append_nil. destruct suffix; simpl; [done|].
    by rewrite Ascii.eqb_refl, String.eqb_refl.
  - rewrite append_cons. simpl. rewrite IH. by rewrite orb_true_r.
Qed.

Lemma app_assoc_string (a b c : string) : (a +:+ b) +:+ c = a +:+ (b +:+ c).
Proof.
  induction a as [|x a IH]; [done|]. rewrite !append_cons. by rewrite IH.
Qed.

Lemma rstrip_app chars s t :
  rstrip chars t = "" → rstrip chars (s +:+ t) = rstrip chars s.
Proof.
  intros Ht. induction s as [|c s IH]; [done|].
  rewrite append_cons. simpl. by rewrite IH.
Qed.

Lemma lstrip_all_rstrip chars t : lstrip chars t = "" → rstrip chars t = "".
Proof.
  induction t as [|c t IH]; simpl; [done|].
  destruct (in_chars chars c); [|discriminate].
  intros H. by rewrite (IH H).
Qed.

Lemma strip_app chars s t :
  lstrip chars t = "" → strip chars (s +:+ t) = strip chars s.
Proof.
  intros Ht. unfold strip. induction s as [|c s IH].
  - rewrite append_nil. simpl. by rewrite Ht.
  - rewrite append_cons. simpl. destruct (in_chars chars c); [done|].
    rewrite <- append_cons.
    apply (rstrip_app chars (String c s) t). by apply lstrip_all_rstrip.
Qed.

Lemma length_lstrip chars s : (String.length (lstrip chars s) ≤ String.length s)%nat.
Proof.
  induction s as [|c s IH]; simpl; [done|].
  destruct (in_chars chars c); simpl; lia.
Qed.

Lemma length_rstrip chars s : (String.length (rstrip chars s) ≤ String.length s)%nat.
Proof.
  induction s as [|c s IH]; simpl; [done|].
  destruct (rstrip chars s); [destruct (in_chars chars c)|]; simpl in *; lia.
Qed.

Lemma rstrip_fix chars s : rstrip chars s = s ↔ ends_in chars s = false.
Proof.
  induction s as [|c s IH]; [done|].
  destruct s as [|c' s'].
  - simpl. destruct (in_chars chars c); split; done.
  - change (ends_in chars (String c (String c' s'))) with (ends_in chars (String c' s')).
    rewrite <- IH. change (rstrip chars (String c (String c' s')))
      with (match rstrip chars (String c' s') with
            | "" => if in_chars chars c then "" else String c ""
            | kept => String c kept
            end).
    destruct (rstrip chars (String c' s')) as [|c1 k] eqn:E.
    + split; [|discriminate]. destruct (in_chars chars c); discriminate.
    + split; [intros H; by simplify_eq|by intros ->].
Qed.

Lemma strip_fix chars s :
  strip chars s = s ↔ starts_in chars s = false ∧ ends_in chars s = false.
Proof.
  unfold strip. destruct s as [|c s]; [done|].
  cbn [lstrip starts_in]. destruct (in_chars chars c) eqn:Hc.
  - split; [|by intros [? _]]. intros H. exfalso.
    pose proof (length_rstrip chars (lstrip chars s)) as H1.
    pose proof (length_lstrip chars s) as H2.
    rewrite H in H1. simpl in H1. lia.
  - rewrite rstrip_fix. split; [done|by intros [_ ?]].
Qed.

(** X19: for a path that ends in [.py], [load_plugin] imports the file
    name with every leading and trailing '.', 'p' and 'y' removed, not
    the file name without its extension: the two agree exactly when the
    name before [.py] neither begins nor ends with one of these three
    characters. *)
Theorem load_plugin_strips_characters (path stem : string) :
  basename path = stem +:+ ".py" →
  load_plugin_module false path = Some (ImportModule (strip ".py" stem))
  ∧ (strip ".py" stem = stem
     ↔ starts_in ".py" stem = false ∧ ends_in ".py" stem = false).
Proof.
  intros Hbase. split; [|apply strip_fix].
  unfold load_plugin_module.
  destruct (basename_suffix path) as [pre Hpre]. rewrite Hbase in Hpre.
  assert (endswith path ".py" = true) as ->.
  { rewrite Hpre, <- app_assoc_string. apply endswith_app. }
  by rewrite Hbase, strip_app.
Qed.

Lemma load_plugin_strips_characters_witness :
  load_plugin_module false "plugins/happy.py" = Some (ImportModule "ha").
Proof.
  apply (load_plugin_strips_characters "plugins/happy.py" "happy").
  vm_compute. reflexivity.
Defined.

Lemma replace_backslash_app a b :
  replace_backslash (a +:+ b) = replace_backslash a +:+ replace_backslash b.
Proof.
  induction a as [|c a IH]; [done|].
  rewrite append_cons. simpl. by rewrite IH.
Qed.

(** X20: a directory given with a trailing '/' or backslash makes
    [load_plugin] ask for the module with the empty name, whatever the
    directory is called. *)
Theorem load_plugin_trailing_separator (dir : string) :
  load_plugin_module true (dir +:+ "/") = Some (ImportModule "")
  ∧ load_plugin_module true (dir +:+ "\") = Some (ImportModule "").
Proof.
  unfold load_plugin_module. rewrite !replace_backslash_app. simpl.
  by rewrite (basename_app (replace_backslash dir) "").
Qed.

End plugin_module.

End HandlerMore.

(* ===================================================================== *)
(** * More about the Tencent packaging *)
(* ===================================================================== *)

Module TencentMore.
Import Py Tencent TencentProofs.

Ltac step :=
  match goal with
  | |- context [rbind ?m _] => destruct m eqn:?; cbn [rbind]
  | |- context [if ?b then _ else _] => destruct b eqn:?
  | |- context [match ?x with _ => _ end] => destruct x eqn:?
  end.

Section package.
Context (text_convert : Message → string → json → Message)
        (format_mention : json → string)
        (remove_all : string → string → string)
        (findall_emoji : string → list string)
        (strip : string → string).

Abbreviation package := (package_tencent_message text_convert format_mention
                       remove_all findall_emoji strip).
Abbreviation body := (packaging text_convert format_mention remove_all
                    findall_emoji strip).
Abbreviation nested' := (nested text_convert format_mention remove_all
                    findall_emoji strip).

Lemma body_not_event recur instance message e :
  body recur instance message ≠ Ret (Evt e).
Proof.
  unfold packaging. repeat step; discriminate.
Qed.

(** X21: for a message-creation event the call never returns an
    [Event]: what it returns is a [Message] or [None].  So the nested call
    on a quoted message, which is made under the same event name, cannot
    hand back an object without an [image] attribute. *)
Theorem created_events_never_wrapped (depth : nat) (instance : TencentAPI)
    (event : string) (message : json) (is_reference : bool) (e : Event) :
  in_list event message_created = true →
  package depth instance event message is_reference ≠ Ret (Evt e).
Proof.
  intros He. rewrite package_unfold, He.
  destruct (suppressed message is_reference) as [[|]|]; cbn; try discriminate.
  apply body_not_event.
Qed.


(** ** A quotation *)

Lemma assoc_without k (fields : list (string * json)) :
  k ≠ "message_reference"%string →
  assoc k (filter (λ kv, negb (String.eqb kv.1 "message_reference")) fields)
  = assoc k fields.
Proof.
  intros Hk. induction fields as [|[k' v] fields IH]; [done|].
  rewrite filter_cons. cbn [fst].
  change (assoc k ((k', v) :: fields))
    with (if String.eqb k k' then Some v else assoc k fields).
  case_decide as Hd.
  - change (assoc k ((k', v) :: ?l))
      with (if String.eqb k k' then Some v else assoc k l).
    by rewrite IH.
  - rewrite IH. destruct (String.eqb_spec k k') as [->|_]; [|done].
    destruct (String.eqb_spec k' "message_reference"); [done|].
    by destruct Hd.
Qed.

Lemma assoc_without_reference (fields : list (string * json)) :
  assoc "message_reference"
    (filter (λ kv, negb (String.eqb kv.1 "message_reference")) fields) = None.
Proof.
  induction fields as [|[k' v] fields IH]; [done|].
  rewrite filter_cons. cbn [fst]. case_decide as Hd; [|done].
  change (assoc "message_reference" ((k', v) :: ?l))
    with (if String.eqb "message_reference" k' then Some v
          else assoc "message_reference" l).
  rewrite IH. destruct (String.eqb_spec "message_reference" k') as [<-|_]; [|done].
  by destruct Hd.
Qed.

Lemma getitem_without message k :
  k ≠ "message_reference"%string →
  getitem (without_reference message) k = getitem message k.
Proof.
  intros Hk. destruct message; try done. cbn. by rewrite assoc_without.
Qed.

Lemma contains_without message k :
  k ≠ "message_reference"%string →
  contains k (without_reference message) = contains k message.
Proof.
  intros Hk. destruct message; try done. cbn. by rewrite assoc_without.
Qed.

Ltac without :=
  rewrite ?getitem_without, ?contains_without by discriminate.

Lemma get_info_without obj message :
  get_info obj (without_reference message) = get_info obj message.
Proof. unfold get_info. by without. Qed.

Lemma suppressed_without message is_reference :
  suppressed (without_reference message) is_reference
  = suppressed message is_reference.
Proof. unfold suppressed. by without. Qed.

Lemma read_member_without message data :
  read_member (without_reference message) data = read_member message data.
Proof. unfold read_member. by without. Qed.

Lemma read_attachments_without message data :
  read_attachments (without_reference message) data = read_attachments message data.
Proof. unfold read_attachments. by without. Qed.

Lemma read_content_without bot message data :
  read_content text_convert format_mention remove_all findall_emoji strip
    bot (without_reference message) data
  = read_content text_convert format_mention remove_all findall_emoji strip
      bot message data.
Proof. unfold read_content. by without. Qed.

Lemma body_quotation recur instance message data :
  body recur instance message = Ret (Msg data) →
  ∃ own extra,
    body recur instance (without_reference message) = Ret (Msg own)
    ∧ data = set_image (image own ++ extra) own.
Proof.
  destruct message as [| | | | |fields];
    try (unfold packaging, get_info; cbn; discriminate).
  unfold packaging.
  rewrite get_info_without.
  rewrite (contains_without (JObj fields) "direct_message") by discriminate.
  rewrite (getitem_without (JObj fields) "direct_message") by discriminate.
  destruct (get_info new_Message (JObj fields)) as [d0|]; [|discriminate]. cbn [rbind].
  destruct (contains "direct_message" (JObj fields)) as [hd|]; [|discriminate].
  cbn [rbind].
  destruct (if hd then _ else _) as [direct|]; [|discriminate]. cbn [rbind].
  destruct (get_me instance) as [bot|]; [|discriminate]. cbn [rbind].
  destruct (if negb _ then _ else _) as [channel|]; [|discriminate]. cbn [rbind].
  destruct (negb (truthy channel)); [discriminate|].
  rewrite read_member_without.
  destruct (read_member _ _) as [d1|]; [|discriminate]. cbn [rbind].
  rewrite read_attachments_without.
  destruct (read_attachments _ _) as [d2|]; [|discriminate]. cbn [rbind].
  rewrite read_content_without.
  destruct (read_content _ _ _ _ _ _ _ _) as [d3|]; [|discriminate]. cbn [rbind].
  assert (contains "message_reference" (without_reference (JObj fields)) = Ret false)
    as ->.
  { cbn. by rewrite assoc_without_reference. }
  cbn [rbind].
  assert (Hsame : set_image (image d3 ++ []) d3 = d3).
  { rewrite app_nil_r. by destruct d3. }
  intros H. exists d3.
  repeat match type of H with
         | context [rbind ?m _] => destruct m eqn:?; cbn [rbind] in H
         | context [if ?b then _ else _] => destruct b eqn:?
         | context [match ?x with _ => _ end] => destruct x eqn:?
         end; simplify_eq.
  all: first [ by exists []; rewrite Hsame | by eexists ].
Qed.

(** X22: a quotation can only add pictures.  When a payload is packaged
    into a message, the same payload without its ['message_reference']
    entry is packaged as well, and the two messages differ in nothing but
    the pictures that the first one carries after those of the second. *)
Theorem quotation_only_adds_images (depth : nat) (instance : TencentAPI)
    (event : string) (message : json) (is_reference : bool) (data : Message) :
  package depth instance event message is_reference = Ret (Msg data) →
  ∃ own extra,
    package depth instance event (without_reference message) is_reference
    = Ret (Msg own)
    ∧ data = set_image (image own ++ extra) own.
Proof.
  rewrite !package_unfold. destruct (in_list event message_created); [|discriminate].
  rewrite suppressed_without.
  destruct (suppressed message is_reference) as [[|]|]; cbn; try discriminate.
  apply body_quotation.
Qed.

(** ** The parts of the packaging *)

(** X23: [get_info] needs the keys [id], [guild_id], [channel_id] and
    [author] with [id] and [username], and raises without one of them;
    [src_guild_id] falls back to [guild_id] and [avatar] to [None]; what
    the object held besides these fields is kept. *)
Theorem get_info_fields (obj : Message) (message : json) (data : Message) :
  get_info obj message = Ret data
  ↔ ∃ author id uid gid cid name,
      getitem message "author" = Ret author
      ∧ getitem message "id" = Ret id
      ∧ getitem author "id" = Ret uid
      ∧ getitem message "guild_id" = Ret gid
      ∧ getitem message "channel_id" = Ret cid
      ∧ getitem author "username" = Ret name
      ∧ data = mkMessage id uid gid
                 (match getitem message "src_guild_id" with
                  | Ret src => src
                  | Raise _ => gid
                  end)
                 cid name
                 (match getitem author "avatar" with
                  | Ret a => a
                  | Raise _ => JNull
                  end)
                 (is_direct obj) (is_admin obj) (is_at obj) (image obj)
                 (face obj) (at_target obj) (text obj).
Proof.
  unfold get_info. split.
  - destruct (getitem message "author") as [author|] eqn:Ha; [|discriminate].
    cbn [rbind].
    destruct (getitem message "id") as [id|] eqn:Hid; [|discriminate]. cbn [rbind].
    destruct (getitem author "id") as [uid|] eqn:Huid; [|discriminate]. cbn [rbind].
    destruct (getitem message "guild_id") as [gid|] eqn:Hgid; [|discriminate].
    cbn [rbind].
    destruct message as [| | | | |fields]; try discriminate.
    destruct author as [| | | | |afields]; try discriminate.
    cbn [contains rbind getitem].
    destruct (assoc "src_guild_id" fields) as [src|] eqn:Hsrc; cbn [rbind].
    all: cbn [getitem] in Hgid; rewrite ?Hgid; cbn [rbind].
    all: destruct (assoc "channel_id" fields) as [cid|] eqn:Hcid; [|discriminate];
      cbn [rbind].
    all: destruct (assoc "username" afields) as [name|] eqn:Hname; [|discriminate];
      cbn [rbind].
    all: destruct (assoc "avatar" afields) as [a|] eqn:Hav; cbn [rbind].
    all: intros [= <-]; exists (JObj afields), id, uid, gid, cid, name.
    all: cbn [getitem]; rewrite ?Hsrc, ?Hcid, ?Hname, ?Hav; by rewrite ?Hgid.
  - intros (author & id & uid & gid & cid & name & Ha & Hid & Huid & Hgid & Hcid
            & Hname & ->).
    rewrite Ha, Hid. cbn [rbind]. rewrite Huid, Hgid. cbn [rbind].
    destruct message as [| | | | |fields]; try discriminate.
    destruct author as [| | | | |afields]; try discriminate.
    cbn [contains rbind getitem] in *.
    destruct (assoc "src_guild_id" fields) as [src|]; cbn [rbind].
    all: rewrite ?Hgid, Hcid; cbn [rbind]; rewrite Hname; cbn [rbind].
    all: by destruct (assoc "avatar" afields) as [a|].
Qed.

Lemma existsb_admin n :
  existsb (py_eq n) (map JStr ADMIN) = admin_role n.
Proof.
  by destruct n.
Qed.

(** X24: with a list of roles, [is_admin] is set when one of the roles
    is the string '2', '4' or '5', and is left as it was otherwise: a
    role given as a number never counts, and the flag is never
    cleared. *)
Theorem admin_by_role (message member : json) (roles : list json) (data : Message) :
  getitem message "member" = Ret member →
  getitem member "roles" = Ret (JArr roles) →
  read_member message data
  = Ret (if existsb admin_role roles then set_is_admin true data else data).
Proof.
  intros Hm Hr. unfold read_member.
  destruct message as [| | | | |fields]; try discriminate.
  destruct member as [| | | | |mfields]; try discriminate.
  cbn [contains getitem] in *.
  destruct (assoc "member" fields) as [m|]; [|discriminate]. simplify_eq.
  cbn [rbind getitem contains].
  destruct (assoc "roles" mfields) as [rs|]; [|discriminate]. simplify_eq.
  cbn [rbind iter].
  replace (length (filter _ roles) =? 0)%nat with (negb (existsb admin_role roles)).
  { by destruct (existsb admin_role roles). }
  induction roles as [|n roles IH]; [done|].
  rewrite filter_cons. cbn [existsb]. rewrite <- (existsb_admin n).
  case_decide as Hn.
  - apply Is_true_true in Hn. by rewrite Hn.
  - apply Is_true_false in Hn. rewrite Hn. exact IH.
Qed.

Lemma add_attachments_app good urls rest data :
  Forall2 (λ item u, getitem item "url" = Ret (JStr u)) good urls →
  add_attachments (good ++ rest) data
  = add_attachments rest
      (set_image (image data ++ map (String.append "http://") urls) data).
Proof.
  intros H. revert data. induction H as [|item u good urls Hu _ IH]; intros data.
  - cbn. rewrite app_nil_r. by destruct data.
  - cbn. rewrite Hu. cbn. rewrite IH. cbn. by rewrite <- app_assoc.
Qed.

(** X25: every attachment adds ['http://' + url] to the pictures, in
    the order of the payload and after the pictures already there; one
    attachment without a [url], or with one that is not a string, makes
    the whole step raise, whatever the other attachments are. *)
Theorem attachments_in_order (message : json) (good rest : list json)
    (urls : list string) (data : Message) :
  getitem message "attachments" = Ret (JArr (good ++ rest)) →
  Forall2 (λ item u, getitem item "url" = Ret (JStr u)) good urls →
  match rest with
  | [] =>
      read_attachments message data
      = Ret (set_image (image data ++ map (String.append "http://") urls) data)
  | bad :: _ =>
      (∀ e, getitem bad "url" = Raise e → read_attachments message data = Raise e)
      ∧ (∀ v, getitem bad "url" = Ret v → (∀ u, v ≠ JStr u) →
              read_attachments message data = Raise TypeError)
  end.
Proof.
  intros Hm Hgood. unfold read_attachments.
  destruct message as [| | | | |fields]; try discriminate.
  cbn [contains getitem] in *.
  destruct (assoc "attachments" fields) as [a|]; [|discriminate]. simplify_eq.
  cbn [rbind iter].
  rewrite (add_attachments_app _ _ _ _ Hgood).
  destruct rest as [|bad rest]; [done|]. split.
  - intros e He. cbn. by rewrite He.
  - intros v Hv Hne. cbn. rewrite Hv. cbn.
    destruct v; try done. by destruct (Hne str).
Qed.

Abbreviation mentions := (strip_mentions format_mention remove_all).

Lemma targets_cons bot user users :
  targets bot (user :: users)
  = (if mentions_self bot user || bot_account user then []
     else match getitem user "id" with
          | Ret uid => [uid]
          | Raise _ => []
          end) ++ targets bot users.
Proof.
  unfold targets. simpl.
  destruct (mentions_self bot user || bot_account user); [done|].
  by destruct (getitem user "id").
Qed.

(** X26: of the accounts a message mentions, [at_target] receives,
    after what it held, exactly the ids of those that are neither the bot
    itself nor marked as bots, in the order of the payload and once for
    each time they are mentioned; [is_at] is set exactly when the bot
    itself is among them, which needs an answer from [get_me].  The
    pictures, the faces and [is_admin] are not touched. *)
Theorem mentions_exclude_bots (bot : json) (users : list json) (text : json)
    (data : Message) (out : json * Message) :
  mentions bot users text data = Ret out →
  at_target out.2 = at_target data ++ targets bot users
  ∧ is_at out.2 = is_at data || existsb (mentions_self bot) users
  ∧ image out.2 = image data
  ∧ face out.2 = face data
  ∧ is_admin out.2 = is_admin data.
Proof.
  revert text data. induction users as [|user users IH]; intros text data H.
  { cbn in H. simplify_eq. cbn. by rewrite app_nil_r, orb_false_r. }
  cbn [strip_mentions] in H.
  destruct text as [| | |body| |]; try discriminate.
  destruct (getitem user "id") as [id|] eqn:Hid; [|discriminate]. cbn [rbind] in H.
  rewrite targets_cons. cbn [existsb].
  destruct (truthy bot) eqn:Hbot.
  - destruct (getitem bot "id") as [bid|] eqn:Hbid; [|discriminate]. cbn [rbind] in H.
    assert (mentions_self bot user = py_eq id bid) as ->.
    { unfold mentions_self. by rewrite Hbot, Hid, Hbid. }
    destruct (py_eq id bid) eqn:Hme; cbn [orb app].
    + destruct (IH _ _ H) as (Ha & Hat & ? & ? & ?). cbn in Ha, Hat.
      rewrite Ha, Hat. by rewrite orb_true_r.
    + unfold bot_account.
      destruct (getitem user "bot") as [flag|] eqn:Hflag; [|discriminate].
      cbn [rbind] in H. destruct (truthy flag) eqn:Htr.
      * by apply (IH _ _ H).
      * destruct (IH _ _ H) as (Ha & Hat & ? & ? & ?). cbn in Ha, Hat.
        rewrite Ha, Hid, <- app_assoc. done.
  - cbn [rbind] in H.
    assert (mentions_self bot user = false) as ->.
    { unfold mentions_self. by rewrite Hbot. }
    cbn [orb]. unfold bot_account.
    destruct (getitem user "bot") as [flag|] eqn:Hflag; [|discriminate].
    cbn [rbind] in H. destruct (truthy flag) eqn:Htr.
    + by apply (IH _ _ H).
    + destruct (IH _ _ H) as (Ha & Hat & ? & ? & ?). cbn in Ha, Hat.
      rewrite Ha, Hid, <- app_assoc. done.
Qed.

(** X27: a direct message is packaged without asking for its channel;
    any other message whose channel the platform does not return is
    dropped before its member, attachments, content or quotation are
    looked at. *)
Theorem channel_lookup (recur : json → result packaged) (instance : TencentAPI)
    (message : json) (data : Message) (bot : json) :
  get_info new_Message message = Ret data →
  get_me instance = Ret bot →
  (∀ flag other,
     getitem message "direct_message" = Ret flag → truthy flag = true →
     body recur (mkAPI (get_me instance) other (get_message instance)) message
     = body recur instance message)
  ∧ (∀ channel,
       (∀ flag, getitem message "direct_message" = Ret flag → truthy flag = false) →
       get_channel instance (channel_id data) = Ret channel →
       truthy channel = false →
       body recur instance message = Ret Nothing).
Proof.
  intros Hinfo Hme. unfold packaging. rewrite Hinfo. cbn [rbind get_me].
  assert (∃ fields, message = JObj fields) as [fields ->].
  { unfold get_info in Hinfo. destruct message; try discriminate. eauto. }
  rewrite Hme. cbn [rbind contains getitem]. split.
  - intros flag other Hflag Htr.
    destruct (assoc "direct_message" fields) as [v|]; [|discriminate].
    simplify_eq. cbn. by rewrite Htr.
  - intros channel Hflag Hch Htr.
    destruct (assoc "direct_message" fields) as [v|]; cbn.
    + rewrite (Hflag v eq_refl). cbn. rewrite Hch. cbn. by rewrite Htr.
    + rewrite Hch. cbn. by rewrite Htr.
Qed.

End package.

Lemma quotation_only_adds_images_witness :
  ∃ own extra,
    package_tencent_message (λ m _ _, m) (λ _, ""%string) (λ body _, body)
      (λ _, []) (λ body, body) 1 quoting "MESSAGE_CREATE"
      (without_reference photo_message) false = Ret (Msg own)
    ∧ mkMessage (JStr "m2") (JStr "u2") (JStr "g1") (JStr "g1") (JStr "c1")
        (JStr "doctor") JNull (JBool false) true true
        ["http://cdn/a.png"; "http://cdn/b.png"]%string [] [JStr "u3"] ""
      = set_image (image own ++ extra) own.
Proof.
  apply (quotation_only_adds_images (λ m _ _, m) (λ _, ""%string) (λ body _, body)
           (λ _, []) (λ body, body) 1 quoting "MESSAGE_CREATE" photo_message false).
  vm_compute. reflexivity.
Defined.

Lemma created_events_never_wrapped_witness :
  package_tencent_message (λ m _ _, m) (λ _, ""%string) (λ body _, body)
    (λ _, []) (λ body, body) 1 quoting "MESSAGE_CREATE" photo_message false
  ≠ Ret (Evt (mkEvent "MESSAGE_CREATE" photo_message)).
Proof.
  apply (created_events_never_wrapped (λ m _ _, m) (λ _, ""%string) (λ body _, body)
           (λ _, []) (λ body, body) 1 quoting "MESSAGE_CREATE" photo_message false).
  reflexivity.
Defined.


Lemma admin_by_role_witness :
  read_member photo_message new_Message = Ret (set_is_admin true new_Message).
Proof.
  apply (admin_by_role photo_message (JObj [("roles", JArr [JStr "11"; JStr "4"])])
           [JStr "11"; JStr "4"] new_Message).
  - reflexivity.
  - reflexivity.
Defined.

Lemma attachments_in_order_witness :
  read_attachments photo_message new_Message
  = Ret (set_image (image new_Message ++ ["http://cdn/a.png"%string]) new_Message).
Proof.
  apply (attachments_in_order photo_message [JObj [("url", JStr "cdn/a.png")]] []
           ["cdn/a.png"%string] new_Message).
  - reflexivity.
  - repeat constructor.
Defined.

Lemma mentions_exclude_bots_witness :
  [JStr "u3"; JStr "u4"; JStr "u3"]
  = [] ++ targets (JObj [("id", JStr "me")])
            [JObj [("id", JStr "u3"); ("bot", JBool false)];
             JObj [("id", JStr "me"); ("bot", JBool true)];
             JObj [("id", JStr "b1"); ("bot", JBool true)];
             JObj [("id", JStr "u4"); ("bot", JBool false)];
             JObj [("id", JStr "u3"); ("bot", JBool false)]].
Proof.
  apply (mentions_exclude_bots (λ _, ""%string) (λ body _, body)
           (JObj [("id", JStr "me")])
           [JObj [("id", JStr "u3"); ("bot", JBool false)];
            JObj [("id", JStr "me"); ("bot", JBool true)];
            JObj [("id", JStr "b1"); ("bot", JBool true)];
            JObj [("id", JStr "u4"); ("bot", JBool false)];
            JObj [("id", JStr "u3"); ("bot", JBool false)]]
           (JStr "look") new_Message
           (JStr "look",
            set_at_target [JStr "u3"; JStr "u4"; JStr "u3"]
              (set_is_at true new_Message))).
  vm_compute. reflexivity.
Defined.

Lemma channel_lookup_witness :
  packaging (λ m _ _, m) (λ _, ""%string) (λ body _, body) (λ _, []) (λ body, body)
    (λ _, Raise RecursionError) no_channel photo_message
  = Ret Nothing.
Proof.
  refine (proj2 (channel_lookup (λ m _ _, m) (λ _, ""%string) (λ body _, body)
                   (λ _, []) (λ body, body) (λ _, Raise RecursionError) no_channel
                   photo_message
                   (mkMessage (JStr "m2") (JStr "u2") (JStr "g1") (JStr "g1")
                      (JStr "c1") (JStr "doctor") JNull (JBool false) false false
                      [] [] [] "")
                   (JObj [("id", JStr "me")]) _ _) JNull _ _ _).
  - reflexivity.
  - reflexivity.
  - intros flag Hflag. vm_compute in Hflag. discriminate.
  - reflexivity.
  - reflexivity.
Defined.

Lemma get_info_fields_witness :
  get_info new_Message quoted_message
  = Ret (mkMessage (JStr "m1") (JStr "u1") (JStr "g1") (JStr "g1") (JStr "c1")
           (JStr "helper") JNull (JBool false) false false [] [] [] "").
Proof.
  apply (proj2 (get_info_fields new_Message quoted_message
                  (mkMessage (JStr "m1") (JStr "u1") (JStr "g1") (JStr "g1")
                     (JStr "c1") (JStr "helper") JNull (JBool false) false false
                     [] [] [] ""))).
  exists (JObj [("id", JStr "u1"); ("username", JStr "helper"); ("bot", JBool true)]),
    (JStr "m1"), (JStr "u1"), (JStr "g1"), (JStr "c1"), (JStr "helper").
  repeat split; reflexivity.
Defined.

End TencentMore.
